(** * Clasper governance core: a shallow embedding and its verified properties

    The development follows the TypeScript sources of the governance core:

    - [lib/security/stableJson.ts] and [lib/security/sha256.ts]
      (canonical JSON and the hashes built on it),
    - [lib/governance/policyEngine.ts] (the YAML policy engine),
    - [lib/governance/toolTokens.ts] (one-shot tool tokens),
    - [lib/adapters/signedEnvelope.ts] (signed telemetry envelopes),
    - [lib/tracing/traceIntegrity.ts] (the step hash chain),
    - [lib/auth/tenantContext.ts] (tenant permission predicates).

    Part I holds the embedding, one module per source file, every function
    under the name it has in the source.  Part II holds the theorems. *)

From Stdlib Require Import ZArith NArith QArith String Ascii List Bool Lia.
From Stdlib Require Import DecimalString DecimalPos DecimalZ.
From stdpp Require Import base decidable option list sorting strings gmap.

Set Warnings "-register-all".

Local Open Scope string_scope.
Local Open Scope list_scope.

(* ===================================================================== *)
(** * Part I. The embedding                                               *)
(* ===================================================================== *)

(** ** JavaScript values and objects

    A JS string is a sequence of code units; the embedding uses Rocq strings,
    whose characters are the code units below 256.  A JS number is modelled as
    an integer: the specification forbids fractions and integers beyond the
    safe range in hashed payloads, and every number the modelled code hashes
    or prints is one (durations, counts).

    An ordinary JS object is a list of properties in creation order.  Its
    keys are enumerated ([Object.keys], [JSON.stringify], [for in]) in the
    order of ECMAScript's OrdinaryOwnPropertyKeys: first the keys that are
    array indices, in ascending numeric order, then the other string keys in
    creation order. *)
Module Js.

Definition DQ : ascii := "034"%char.
Definition BACKSLASH : ascii := "092"%char.

Definition digit_of (c : ascii) : option N :=
  let n := N_of_ascii c in
  if ((48 <=? n) && (n <=? 57))%N then Some (n - 48)%N else None.

Fixpoint digits_value (acc : N) (s : string) : option N :=
  match s with
  | EmptyString => Some acc
  | String c s' =>
      match digit_of c with
      | Some d => digits_value (10 * acc + d)%N s'
      | None => None
      end
  end.

(** [array_index k] is [Some n] when [k] is the canonical decimal form of an
    integer [n] with [0 <= n <= 2^32 - 2] (an array index in ECMAScript's
    sense): no sign, no leading zero. *)
Definition array_index (k : string) : option N :=
  match k with
  | EmptyString => None
  | String c rest =>
      if (N_of_ascii c =? 48)%N
      then match rest with EmptyString => Some 0%N | _ => None end
      else match digits_value 0 k with
           | Some n => if (n <=? 4294967294)%N then Some n else None
           | None => None
           end
  end.

Definition is_array_index (k : string) : bool :=
  match array_index k with Some _ => true | None => false end.

Definition index_value (k : string) : N :=
  match array_index k with Some n => n | None => 0%N end.

Definition index_le (k1 k2 : string) : Prop := (index_value k1 <= index_value k2)%N.

#[export] Instance index_le_dec : RelDecision index_le.
Proof. intros k1 k2. unfold index_le. apply _. Defined.

Section Objects.
Context {V : Type}.

(** An object: its own properties, oldest first. *)
Definition Obj := list (string * V).

(** OrdinaryOwnPropertyKeys. *)
Definition own_keys (o : Obj) : list string :=
  let ks := map fst o in
  merge_sort index_le (List.filter is_array_index ks)
    ++ List.filter (fun k => negb (is_array_index k)) ks.

(** [o[key]], [None] standing for [undefined]. *)
Fixpoint get (o : Obj) (key : string) : option V :=
  match o with
  | [] => None
  | (k, v) :: rest => if String.eqb k key then Some v else get rest key
  end.

Fixpoint replace (o : Obj) (key : string) (v : V) : Obj :=
  match o with
  | [] => []
  | (k, w) :: rest =>
      if String.eqb k key then (k, v) :: rest else (k, w) :: replace rest key v
  end.

(** [o[key] = v] on an ordinary object whose prototype is [Object.prototype].
    An existing property keeps its place; a new one is created last.  The
    key [__proto__] is the accessor inherited from [Object.prototype]: the
    assignment calls its setter and creates no own property. *)
Definition set (o : Obj) (key : string) (v : V) : Obj :=
  if String.eqb key "__proto__" then o
  else match get o key with
       | Some _ => replace o key v
       | None => o ++ [(key, v)]
       end.

(** The own enumerable properties in enumeration order, as [Object.entries]
    gives them and as [JSON.stringify] walks them. *)
Definition entries (o : Obj) : list (string * V) :=
  omap (fun k => match get o k with Some v => Some (k, v) | None => None end)
       (own_keys o).

End Objects.
Arguments Obj : clear implicits.

(** [Array.prototype.sort] without a comparator, on strings: ascending by
    code units.  The algorithm is left open by the language; on a total
    order every sorting algorithm returns the same list up to the order of
    equal elements, and equal strings are indistinguishable. *)
Definition Array_sort (xs : list string) : list string := merge_sort String.le xs.

Fixpoint join (sep : string) (xs : list string) : string :=
  match xs with
  | [] => ""
  | [x] => x
  | x :: rest => x +:+ sep +:+ join sep rest
  end.

End Js.

(** ** [lib/security/stableJson.ts] *)
Module StableJson.

(** type JsonValue = null | boolean | number | string | JsonValue[]
                   | { [key: string]: JsonValue } *)
Inductive JsonValue : Type :=
| JNull
| JBool (b : bool)
| JNumber (n : Z)
| JString (s : string)
| JArray (items : list JsonValue)
| JObject (props : Js.Obj JsonValue).

(** [sortObject], with the recursive call passed in as [stabilize].  The
    source computes [stabilize(value[key])] inside the loop; here the values
    are stabilized first and the loop looks them up, which is the same value
    for every key of the object (lemma [get_stabilized] in Part II) and lets
    the recursion be structural. *)
Definition sortObject (stabilize : JsonValue -> JsonValue)
    (value : Js.Obj JsonValue) : Js.Obj JsonValue :=
  let stabilized := map (fun kv => (fst kv, stabilize (snd kv))) value in
  let keys := Js.Array_sort (Js.own_keys value) in
  fold_left
    (fun sorted key =>
       match Js.get stabilized key with
       | Some v => Js.set sorted key v
       | None => sorted
       end)
    keys [].

Fixpoint stabilize (value : JsonValue) : JsonValue :=
  match value with
  | JArray items => JArray (map stabilize items)
  | JObject props => JObject (sortObject stabilize props)
  | _ => value
  end.

(** *** [JSON.stringify] on JSON values, without indentation *)

Definition hex_digit (n : N) : ascii :=
  ascii_of_N (if (n <? 10)%N then 48 + n else 87 + n)%N.

(** QuoteJSONString, one code unit. *)
Definition quote_char (c : ascii) : string :=
  let n := N_of_ascii c in
  if (n =? 34)%N then String Js.BACKSLASH (String Js.DQ "")
  else if (n =? 92)%N then String Js.BACKSLASH (String Js.BACKSLASH "")
  else if (n =? 8)%N then String Js.BACKSLASH "b"
  else if (n =? 12)%N then String Js.BACKSLASH "f"
  else if (n =? 10)%N then String Js.BACKSLASH "n"
  else if (n =? 13)%N then String Js.BACKSLASH "r"
  else if (n =? 9)%N then String Js.BACKSLASH "t"
  else if (n <? 32)%N then
    String Js.BACKSLASH
      (String "u" (String "0" (String "0"
         (String (hex_digit (n / 16)) (String (hex_digit (n mod 16)) "")))))
  else String c "".

Fixpoint quote_body (s : string) : string :=
  match s with
  | EmptyString => ""
  | String c s' => quote_char c +:+ quote_body s'
  end.

Definition quote (s : string) : string :=
  String Js.DQ (quote_body s +:+ String Js.DQ "").

(** Number::toString on an integer. *)
Definition Number_toString (n : Z) : string :=
  NilZero.string_of_int (Z.to_int n).

Definition stringify_property (kv : string * string) : string :=
  quote (fst kv) +:+ ":" +:+ snd kv.

Fixpoint JSON_stringify (value : JsonValue) : string :=
  match value with
  | JNull => "null"
  | JBool true => "true"
  | JBool false => "false"
  | JNumber n => Number_toString n
  | JString s => quote s
  | JArray items => "[" +:+ Js.join "," (map JSON_stringify items) +:+ "]"
  | JObject props =>
      let serialized := map (fun kv => (fst kv, JSON_stringify (snd kv))) props in
      "{" +:+ Js.join "," (map stringify_property (Js.entries serialized)) +:+ "}"
  end.

Definition stableStringify (value : JsonValue) : string :=
  JSON_stringify (stabilize value).

(** Two JSON values are the same value when they agree up to the order in
    which the properties of their objects were created. *)
Inductive same_value : JsonValue -> JsonValue -> Prop :=
| same_null : same_value JNull JNull
| same_bool b : same_value (JBool b) (JBool b)
| same_number n : same_value (JNumber n) (JNumber n)
| same_string s : same_value (JString s) (JString s)
| same_array xs ys :
    Forall2 same_value xs ys -> same_value (JArray xs) (JArray ys)
| same_object ps qs :
    (forall k, option_Forall2 same_value (Js.get ps k) (Js.get qs k)) ->
    same_value (JObject ps) (JObject qs).

(** The keys of every object of a value are enumerated in ascending order
    of code units. *)
Inductive keys_sorted : JsonValue -> Prop :=
| ks_null : keys_sorted JNull
| ks_bool b : keys_sorted (JBool b)
| ks_number n : keys_sorted (JNumber n)
| ks_string s : keys_sorted (JString s)
| ks_array xs : Forall keys_sorted xs -> keys_sorted (JArray xs)
| ks_object ps :
    Sorted String.le (Js.own_keys ps) ->
    Forall (fun kv => keys_sorted (snd kv)) ps ->
    keys_sorted (JObject ps).

(** No object of a value has a key that is an array index. *)
Inductive no_index_keys : JsonValue -> Prop :=
| ni_null : no_index_keys JNull
| ni_bool b : no_index_keys (JBool b)
| ni_number n : no_index_keys (JNumber n)
| ni_string s : no_index_keys (JString s)
| ni_array xs : Forall no_index_keys xs -> no_index_keys (JArray xs)
| ni_object ps :
    Forall (fun kv => Js.is_array_index (fst kv) = false) ps ->
    Forall (fun kv => no_index_keys (snd kv)) ps ->
    no_index_keys (JObject ps).

(** JSON's insignificant whitespace: space, tab, line feed, carriage
    return. *)
Definition is_whitespace (c : ascii) : bool :=
  let n := N_of_ascii c in
  ((n =? 32) || (n =? 9) || (n =? 10) || (n =? 13))%N.

Fixpoint has_whitespace (s : string) : bool :=
  match s with
  | EmptyString => false
  | String c s' => is_whitespace c || has_whitespace s'
  end.

(** No string and no key of a value holds a space.  (Tabs and line breaks
    inside strings are escaped by [JSON.stringify]; a space is the one
    whitespace character a string can carry into the text.) *)
Fixpoint no_space (s : string) : bool :=
  match s with
  | EmptyString => true
  | String c s' => negb (N_of_ascii c =? 32)%N && no_space s'
  end.

Inductive space_free : JsonValue -> Prop :=
| sf_null : space_free JNull
| sf_bool b : space_free (JBool b)
| sf_number n : space_free (JNumber n)
| sf_string s : no_space s = true -> space_free (JString s)
| sf_array xs : Forall space_free xs -> space_free (JArray xs)
| sf_object ps :
    Forall (fun kv => no_space (fst kv) = true /\ space_free (snd kv)) ps ->
    space_free (JObject ps).

(** Objects in memory have no two properties of one name. *)
Inductive well_formed : JsonValue -> Prop :=
| wf_null : well_formed JNull
| wf_bool b : well_formed (JBool b)
| wf_number n : well_formed (JNumber n)
| wf_string s : well_formed (JString s)
| wf_array xs : Forall well_formed xs -> well_formed (JArray xs)
| wf_object ps :
    NoDup (map fst ps) -> Forall (fun kv => well_formed (snd kv)) ps ->
    well_formed (JObject ps).

(** ToBoolean on a JSON value. *)
Definition ToBoolean (v : JsonValue) : bool :=
  match v with
  | JNull => false
  | JBool b => b
  | JNumber n => negb (n =? 0)%Z
  | JString s => negb (String.eqb s "")
  | JArray _ => true
  | JObject _ => true
  end.

End StableJson.

(** ** [lib/security/sha256.ts]

    SHA-256 itself is Node's [crypto.createHash]; the embedding takes the
    digest function [sha256Hex] as a parameter. *)
Module Sha256.
Section WithDigest.
Variable sha256Hex : string -> string.

Definition sha256Json (value : StableJson.JsonValue) : string :=
  sha256Hex (StableJson.stableStringify value).

Definition formatSha256 (hex : string) : string := "sha256:" +:+ hex.

End WithDigest.
End Sha256.

(** ** Outcomes of calls that may throw *)
Module Outcome.

Inductive t (E A : Type) : Type :=
| Return (a : A)
| Throw (e : E).
Arguments Return {E A} a.
Arguments Throw {E A} e.

Definition returned {E A} (m : t E A) : bool :=
  match m with Return _ => true | Throw _ => false end.

End Outcome.
Import Outcome (Return, Throw).

(** ** [lib/governance/policyEngine.ts] *)
Module PolicyEngine.

Inductive PolicyDecision : Type := allow | deny | require_approval.

#[export] Instance PolicyDecision_eq_dec : EqDecision PolicyDecision.
Proof. solve_decision. Defined.

(** The [if] block of a rule: the five conditions the interface declares
    and, in [if_other], whatever other keys the YAML document gives the
    block.  [loadPolicies] casts the parsed document to [PolicyRule[]]
    without validating it, so such keys reach [matches], which never reads
    them. *)
Record Conditions : Type := {
  if_environment : option string;
  if_tool : option string;
  if_adapter_risk_class : option string;
  if_skill_state : option string;
  if_tenant_id : option string;
  if_other : Js.Obj StableJson.JsonValue;
}.

(** The [then] block of a rule. *)
Record Effect : Type := {
  then_allow : option bool;
  then_deny : option bool;
  then_require_approval : option bool;
}.

Record PolicyRule : Type := {
  policy_id : string;
  rule_if : option Conditions;
  rule_then : Effect;
}.

Record PolicyContext : Type := {
  environment : option string;
  tool : option string;
  adapter_risk_class : option string;
  skill_state : option string;
  tenant_id : option string;
}.

Record PolicyEvaluation : Type := {
  decision : PolicyDecision;
  eval_policy_id : option string;
  matched : list PolicyRule;
}.

(** What [config.policyPath] holds when [loadPolicies] runs: no file, or a
    YAML document.  [policies] is [None] when the document is empty or its
    [policies] entry is not an array; an array element is [None] when it is
    null, and its fields are [None] when absent. *)
Record YamlRule : Type := {
  yaml_policy_id : option string;
  yaml_if : option Conditions;
  yaml_then : option Effect;
}.

Inductive PolicyFile : Type :=
| NoFile
| Document (policies : option (list (option YamlRule))).

(** ToBoolean on an optional string and on an optional boolean. *)
Definition truthy (s : option string) : bool :=
  match s with
  | Some s => negb (String.eqb s "")
  | None => false
  end.

Definition is_true (b : option bool) : bool :=
  match b with Some true => true | _ => false end.

(** [a !== b] on optional strings. *)
Definition strict_ne (a b : option string) : bool := negb (bool_decide (a = b)).

(** [parsed.policies.filter((rule) => !!rule && !!rule.policy_id && !!rule.then)] *)
Definition keep_rule (r : option YamlRule) : option PolicyRule :=
  match r with
  | Some {| yaml_policy_id := Some id; yaml_if := c; yaml_then := Some t |} =>
      if String.eqb id "" then None
      else Some {| policy_id := id; rule_if := c; rule_then := t |}
  | _ => None
  end.

Definition loadPolicies (file : PolicyFile) : list PolicyRule :=
  match file with
  | NoFile => []
  | Document None => []
  | Document (Some policies) => omap keep_rule policies
  end.

Definition matches (rule : PolicyRule) (ctx : PolicyContext) : bool :=
  match rule_if rule with
  | None => true
  | Some conditions =>
      if truthy (if_environment conditions)
         && strict_ne (if_environment conditions) (environment ctx) then false
      else if truthy (if_tool conditions)
         && strict_ne (if_tool conditions) (tool ctx) then false
      else if truthy (if_adapter_risk_class conditions)
         && strict_ne (if_adapter_risk_class conditions) (adapter_risk_class ctx)
      then false
      else if truthy (if_skill_state conditions)
         && strict_ne (if_skill_state conditions) (skill_state ctx) then false
      else if truthy (if_tenant_id conditions)
         && strict_ne (if_tenant_id conditions) (tenant_id ctx) then false
      else true
  end.

Definition decisionFromRule (rule : PolicyRule) : PolicyDecision :=
  if is_true (then_deny (rule_then rule)) then deny
  else if is_true (then_require_approval (rule_then rule)) then require_approval
  else if is_true (then_allow (rule_then rule)) then allow
  else deny.

(** The [for] loop of [evaluatePolicy] with the result that follows it;
    [matched] is the array the loop pushes to. *)
Fixpoint evaluate_loop (policies matched : list PolicyRule) (ctx : PolicyContext)
    : PolicyEvaluation :=
  match policies with
  | [] => {| decision := deny; eval_policy_id := None; matched := matched |}
  | rule :: rest =>
      if matches rule ctx then
        let matched := matched ++ [rule] in
        let decision := decisionFromRule rule in
        {| decision := decision; eval_policy_id := Some (policy_id rule);
           matched := matched |}
      else evaluate_loop rest matched ctx
  end.

Definition evaluatePolicy (file : PolicyFile) (ctx : PolicyContext) : PolicyEvaluation :=
  let policies := loadPolicies file in
  evaluate_loop policies [] ctx.

(** The fields a rule can put a condition on, with the condition of a rule
    and the value of a context for each. *)
Inductive Field : Type :=
| Environment | Tool | AdapterRiskClass | SkillState | TenantId.

Definition condition_on (f : Field) (conditions : Conditions) : option string :=
  match f with
  | Environment => if_environment conditions
  | Tool => if_tool conditions
  | AdapterRiskClass => if_adapter_risk_class conditions
  | SkillState => if_skill_state conditions
  | TenantId => if_tenant_id conditions
  end.

Definition context_field (f : Field) (ctx : PolicyContext) : option string :=
  match f with
  | Environment => environment ctx
  | Tool => tool ctx
  | AdapterRiskClass => adapter_risk_class ctx
  | SkillState => skill_state ctx
  | TenantId => tenant_id ctx
  end.

(** The precedence the specification asks of several matching rules:
    [deny] over [require_approval] over [allow]. *)
Definition rank (d : PolicyDecision) : nat :=
  match d with deny => 2 | require_approval => 1 | allow => 0 end.

(** The decision of highest precedence among the effects of [rules]. *)
Definition highest_precedence (rules : list PolicyRule) : PolicyDecision :=
  fold_right
    (fun r d => if (rank d <? rank (decisionFromRule r))%nat then decisionFromRule r else d)
    allow rules.

End PolicyEngine.

(** ** [lib/governance/toolTokens.ts] *)
Module ToolTokens.
Import StableJson.

Record ToolTokenClaims : Type := {
  claim_tenant_id : string;
  claim_workspace_id : string;
  claim_adapter_id : string;
  claim_execution_id : string;
  claim_tool : string;
  claim_scope : JsonValue;
}.

(** A compact JWS, decoded: the algorithm of its protected header, its
    payload (a JSON object) and its signature.  [Garbage] is a string that is
    not a compact JWS. *)
Record Jwt : Type := {
  jwt_alg : string;
  jwt_payload : Js.Obj JsonValue;
  jwt_signature : string;
}.

Inductive Token : Type :=
| Garbage (text : string)
| Compact (jwt : Jwt).

Record IssuedToolToken : Type := {
  token : Token;
  jti : string;
  expires_at : Z;
  scope_hash : string;
}.

Inductive ToolTokenErrorCode : Type := config_error | invalid_token | expired | used.

(** What a call can throw: a [ToolTokenError], or the driver's [SqliteError]
    when a statement violates a constraint. *)
Inductive Error : Type :=
| ToolTokenError (code : ToolTokenErrorCode)
| SqliteError.

(** Modelled from the spec: the [tool_tokens] table, whose declaration
    ([core/db.ts] of this revision) is not among the sources.  The
    specification gives its columns and the unique index on [jti], so the
    table is a finite map from [jti] to the rest of the row.  A timestamp
    column holds the ISO-8601 text of an instant; the model keeps the instant,
    in milliseconds since the epoch. *)
Record ToolTokenRow : Type := {
  row_tenant_id : string;
  row_adapter_id : string;
  row_execution_id : string;
  row_tool : string;
  row_scope_hash : string;
  row_issued_at : Z;
  row_expires_at : Z;
  row_used_at : option Z;
}.

Record Config : Type := {
  toolTokenSecret : string;
  toolTokenAlgorithm : string;
}.

(** The module state the three functions share: [config] and the database
    behind [getDatabase()]. *)
Record World : Type := {
  config : Config;
  tool_tokens : gmap string ToolTokenRow;
}.

Definition with_table (w : World) (table : gmap string ToolTokenRow) : World :=
  {| config := config w; tool_tokens := table |}.

Definition mark_used (now : Z) (row : ToolTokenRow) : ToolTokenRow :=
  {| row_tenant_id := row_tenant_id row; row_adapter_id := row_adapter_id row;
     row_execution_id := row_execution_id row; row_tool := row_tool row;
     row_scope_hash := row_scope_hash row; row_issued_at := row_issued_at row;
     row_expires_at := row_expires_at row; row_used_at := Some now |}.

(** [UPDATE tool_tokens SET used_at = ? WHERE jti = ? AND used_at IS NULL]:
    the new table and [changes], the number of rows the statement changed. *)
Definition sql_update_used_at (now : Z) (id : string)
    (table : gmap string ToolTokenRow) : gmap string ToolTokenRow * nat :=
  match table !! id with
  | Some row =>
      match row_used_at row with
      | None => (<[id := mark_used now row]> table, 1)
      | Some _ => (table, 0)
      end
  | None => (table, 0)
  end.

(** [INSERT INTO tool_tokens (...) VALUES (...)]: [used_at] is left NULL; a
    second row of the same [jti] violates the unique index. *)
Definition sql_insert (id : string) (row : ToolTokenRow)
    (table : gmap string ToolTokenRow) : Outcome.t Error (gmap string ToolTokenRow) :=
  match table !! id with
  | Some _ => Throw SqliteError
  | None => Return (<[id := row]> table)
  end.

Section WithCrypto.
(** Node's SHA-256 and the HMAC of [jose] ([hmac alg secret input]). *)
Variable sha256Hex : string -> string.
Variable hmac : string -> string -> string -> string.

(** The text a compact JWS signs: protected header and payload. *)
Definition jws_signing_input (alg : string) (payload : Js.Obj JsonValue) : string :=
  JSON_stringify (JObject [("alg", JString alg)]) +:+ "."
    +:+ JSON_stringify (JObject payload).

(** [new SignJWT(payload).setProtectedHeader({alg}).sign(secret)] *)
Definition SignJWT (alg secret : string) (payload : Js.Obj JsonValue) : Token :=
  Compact {| jwt_alg := alg; jwt_payload := payload;
             jwt_signature := hmac alg secret (jws_signing_input alg payload) |}.

Definition numeric_claim (payload : Js.Obj JsonValue) (name : string)
    : Outcome.t unit (option Z) :=
  match Js.get payload name with
  | None => Return None
  | Some (JNumber n) => Return (Some n)
  | Some _ => Throw tt
  end.

(** [jwtVerify(token, secret, { algorithms })] of [jose], at the time [now]
    (seconds since the epoch): the header's algorithm must be allowed, the
    signature must be the HMAC of the signing input, [iat], [nbf] and [exp]
    must be numbers when present, [nbf] not in the future and [exp] in the
    future.  [None] stands for any of the library's exceptions. *)
Definition jwtVerify (now : Z) (t : Token) (secret : string)
    (algorithms : list string) : option (Js.Obj JsonValue) :=
  match t with
  | Garbage _ => None
  | Compact jwt =>
      if negb (bool_decide (jwt_alg jwt ∈ algorithms)) then None
      else if negb (String.eqb (jwt_signature jwt)
                      (hmac (jwt_alg jwt) secret
                         (jws_signing_input (jwt_alg jwt) (jwt_payload jwt))))
      then None
      else match numeric_claim (jwt_payload jwt) "iat",
                 numeric_claim (jwt_payload jwt) "nbf",
                 numeric_claim (jwt_payload jwt) "exp" with
           | Return _, Return nbf, Return exp =>
               if match nbf with Some n => (now <? n)%Z | None => false end then None
               else if match exp with Some e => (e <=? now)%Z | None => false end
               then None
               else Some (jwt_payload jwt)
           | _, _, _ => None
           end
  end.

(** [issueToolToken(claims, ttlSeconds = 30)].  [uuid] is what [uuidv7()]
    returns and [now_ms] what [Date.now()] returns during the call. *)
Definition issueToolToken (uuid : string) (now_ms : Z) (claims : ToolTokenClaims)
    (ttlSeconds : option Z) (w : World) : Outcome.t Error IssuedToolToken * World :=
  if String.eqb (toolTokenSecret (config w)) "" then
    (Throw (ToolTokenError config_error), w)
  else
    let ttlSeconds := default 30%Z ttlSeconds in
    let jti := uuid in
    let issuedAt := (now_ms / 1000)%Z in
    let expiresAt := (issuedAt + ttlSeconds)%Z in
    let scopeHash :=
      Sha256.formatSha256 (Sha256.sha256Json sha256Hex (claim_scope claims)) in
    let secret := toolTokenSecret (config w) in
    let token :=
      SignJWT (toolTokenAlgorithm (config w)) secret
        [("typ", JString "tool_auth");
         ("tenant_id", JString (claim_tenant_id claims));
         ("workspace_id", JString (claim_workspace_id claims));
         ("adapter_id", JString (claim_adapter_id claims));
         ("execution_id", JString (claim_execution_id claims));
         ("tool", JString (claim_tool claims));
         ("scope", claim_scope claims);
         ("scope_hash", JString scopeHash);
         ("iat", JNumber issuedAt);
         ("exp", JNumber expiresAt);
         ("jti", JString jti)] in
    match sql_insert jti
            {| row_tenant_id := claim_tenant_id claims;
               row_adapter_id := claim_adapter_id claims;
               row_execution_id := claim_execution_id claims;
               row_tool := claim_tool claims;
               row_scope_hash := scopeHash;
               row_issued_at := (issuedAt * 1000)%Z;
               row_expires_at := (expiresAt * 1000)%Z;
               row_used_at := None |}
            (tool_tokens w) with
    | Throw e => (Throw e, w)
    | Return table =>
        (Return {| token := token; jti := jti;
                   expires_at := (expiresAt * 1000)%Z; scope_hash := scopeHash |},
         with_table w table)
    end.

(** [verifyToolToken(token)], at the time [now] (seconds since the epoch).
    The function reads [config] and nothing else of the world. *)
Definition verifyToolToken (now : Z) (t : Token) (w : World)
    : Outcome.t Error (Js.Obj JsonValue) :=
  if String.eqb (toolTokenSecret (config w)) "" then
    Throw (ToolTokenError config_error)
  else
    let secret := toolTokenSecret (config w) in
    match jwtVerify now t secret [toolTokenAlgorithm (config w)] with
    | Some payload => Return payload
    | None => Throw (ToolTokenError invalid_token)
    end.

End WithCrypto.

(** [consumeToolToken(jti)]; [now] is the instant of [new Date()]. *)
Definition consumeToolToken (now : Z) (id : string) (w : World) : bool * World :=
  let result := sql_update_used_at now id (tool_tokens w) in
  (bool_decide (0 < snd result)%nat, with_table w (fst result)).

(** A history of calls on the token store. *)
Inductive Call : Type :=
| CallIssue (uuid : string) (now_ms : Z) (claims : ToolTokenClaims) (ttl : option Z)
| CallConsume (now : Z) (id : string).

(** Runs the calls in order and collects what each [consumeToolToken(id)]
    returned. *)
Fixpoint consume_results (sha256Hex : string -> string)
    (hmac : string -> string -> string -> string)
    (id : string) (calls : list Call) (w : World) : list bool :=
  match calls with
  | [] => []
  | CallIssue uuid now_ms claims ttl :: rest =>
      consume_results sha256Hex hmac id rest
        (snd (issueToolToken sha256Hex hmac uuid now_ms claims ttl w))
  | CallConsume now id' :: rest =>
      let r := consumeToolToken now id' w in
      (if String.eqb id' id then [fst r] else [])
        ++ consume_results sha256Hex hmac id rest (snd r)
  end.

Definition consumes_of (id : string) (calls : list Call) : nat :=
  length (List.filter
            (fun c => match c with
                      | CallConsume _ id' => String.eqb id' id
                      | CallIssue _ _ _ _ => false
                      end) calls).

End ToolTokens.

(** ** [lib/adapters/signedEnvelope.ts] *)
Module SignedEnvelope.
Import StableJson.

Inductive SignedTelemetryPayloadType : Type :=
| trace | audit | cost | metrics | violations.

Definition payload_type_text (t : SignedTelemetryPayloadType) : string :=
  match t with
  | trace => "trace"
  | audit => "audit"
  | cost => "cost"
  | metrics => "metrics"
  | violations => "violations"
  end.

Record SignedTelemetryEnvelope : Type := {
  envelope_version : string;
  adapter_id : string;
  adapter_version : string;
  issued_at : string;
  execution_id : string;
  trace_id : string;
  payload_type : SignedTelemetryPayloadType;
  payload : JsonValue;
  payload_hash : string;
  signature : string;
}.

(** [alg] is declared ['ed25519' | 'ES256']; the function still tests for
    any other value, so the field is a string here. *)
Record TelemetryKey (Jwk : Type) : Type := {
  alg : string;
  publicJwk : Jwk;
  keyId : option string;
  revokedAt : option string;
}.
Arguments alg {Jwk} _.
Arguments publicJwk {Jwk} _.
Arguments keyId {Jwk} _.
Arguments revokedAt {Jwk} _.

Inductive SignedEnvelopeErrorCode : Type :=
| invalid_payload
| invalid_signature
| payload_hash_mismatch
| timestamp_skew
| unsupported_algorithm
| missing_key.

(** What the call can throw: a [SignedEnvelopeError], the error of Node's
    [createPublicKey] on a JWK it cannot import, or the error of Node's
    [crypto.verify] on a key that does not fit the algorithm asked for. *)
Inductive Error : Type :=
| SignedEnvelopeError (code : SignedEnvelopeErrorCode)
| KeyImportError
| CryptoVerifyError.

#[export] Instance SignedEnvelopeErrorCode_eq_dec : EqDecision SignedEnvelopeErrorCode.
Proof. solve_decision. Defined.
#[export] Instance Error_eq_dec : EqDecision Error.
Proof. solve_decision. Defined.

Definition with_payload (e : SignedTelemetryEnvelope) (p : JsonValue)
    : SignedTelemetryEnvelope :=
  {| envelope_version := envelope_version e; adapter_id := adapter_id e;
     adapter_version := adapter_version e; issued_at := issued_at e;
     execution_id := execution_id e; trace_id := trace_id e;
     payload_type := payload_type e; payload := p;
     payload_hash := payload_hash e; signature := signature e |}.

Definition with_payload_hash (e : SignedTelemetryEnvelope) (h : string)
    : SignedTelemetryEnvelope :=
  {| envelope_version := envelope_version e; adapter_id := adapter_id e;
     adapter_version := adapter_version e; issued_at := issued_at e;
     execution_id := execution_id e; trace_id := trace_id e;
     payload_type := payload_type e; payload := payload e;
     payload_hash := h; signature := signature e |}.

Definition with_signature (e : SignedTelemetryEnvelope) (s : string)
    : SignedTelemetryEnvelope :=
  {| envelope_version := envelope_version e; adapter_id := adapter_id e;
     adapter_version := adapter_version e; issued_at := issued_at e;
     execution_id := execution_id e; trace_id := trace_id e;
     payload_type := payload_type e; payload := payload e;
     payload_hash := payload_hash e; signature := s |}.

Definition buildSigningInput (envelope : SignedTelemetryEnvelope) : string :=
  let input :=
    JObject
      [("envelope_version", JString (envelope_version envelope));
       ("adapter_id", JString (adapter_id envelope));
       ("adapter_version", JString (adapter_version envelope));
       ("issued_at", JString (issued_at envelope));
       ("execution_id", JString (execution_id envelope));
       ("trace_id", JString (trace_id envelope));
       ("payload_type", JString (payload_type_text (payload_type envelope)));
       ("payload_hash", JString (payload_hash envelope))] in
  stableStringify input.

(** [s.includes(c)] and [s.replace(/c/g, d)] for one character. *)
Fixpoint includes (s : string) (c : ascii) : bool :=
  match s with
  | EmptyString => false
  | String x s' => Ascii.eqb x c || includes s' c
  end.

Fixpoint replace_all (s : string) (c d : ascii) : string :=
  match s with
  | EmptyString => EmptyString
  | String x s' => String (if Ascii.eqb x c then d else x) (replace_all s' c d)
  end.

Fixpoint repeat_char (c : ascii) (n : nat) : string :=
  match n with
  | O => EmptyString
  | S n' => String c (repeat_char c n')
  end.

(** [s.padEnd(n, '=')] *)
Definition padEnd (s : string) (n : nat) : string :=
  s +:+ repeat_char "="%char (n - String.length s).

(** [Math.ceil(n / d)] on naturals. *)
Definition ceil_div (n d : nat) : nat := (n + d - 1) / d.

Section WithRuntime.
(** What the function takes from Node: the digest, the base64 decoder of
    [Buffer.from(text, 'base64')], [Date] parsing ([None] for NaN), the JWK
    import ([None] when it throws) and [crypto.verify], whose first argument
    is the digest name ([None] for [null]) and which returns a boolean or
    throws ([None]), as it does for an Ed25519 key under the digest
    [sha256]. *)
Variable sha256Hex : string -> string.
Context {Jwk KeyObject Buffer : Type}.
Variable Buffer_from_base64 : string -> Buffer.
Variable Buffer_from_utf8 : string -> Buffer.
Variable Date_getTime : string -> option Z.
Variable createPublicKey : Jwk -> option KeyObject.
Variable cryptoVerify : option string -> Buffer -> KeyObject -> Buffer -> option bool.

Definition parseSignature (signature : string) : Buffer :=
  let isBase64Url := includes signature "-"%char || includes signature "_"%char in
  let normalized :=
    if isBase64Url
    then replace_all (replace_all signature "-"%char "+"%char) "_"%char "/"%char
    else signature in
  let padded :=
    padEnd normalized (ceil_div (String.length normalized) 4 * 4) in
  Buffer_from_base64 padded.

Definition check_signature (digest : option string) (key : TelemetryKey Jwk)
    (signingInput : string) (signature : Buffer) : Outcome.t Error unit :=
  match createPublicKey (publicJwk key) with
  | None => Throw KeyImportError
  | Some publicKey =>
      match cryptoVerify digest (Buffer_from_utf8 signingInput) publicKey signature with
      | None => Throw CryptoVerifyError
      | Some ok =>
          if negb ok then Throw (SignedEnvelopeError invalid_signature)
          else Return tt
      end
  end.

(** [verifySignedEnvelope({ envelope, key, maxSkewSeconds })]; [now] is what
    [Date.now()] returns, in milliseconds. *)
Definition verifySignedEnvelope (now : Z) (envelope : SignedTelemetryEnvelope)
    (key : option (TelemetryKey Jwk)) (maxSkewSeconds : Z) : Outcome.t Error unit :=
  match key with
  | None => Throw (SignedEnvelopeError missing_key)
  | Some key =>
      if PolicyEngine.truthy (revokedAt key) then
        Throw (SignedEnvelopeError missing_key)
      else
        let payloadHash :=
          Sha256.formatSha256 (Sha256.sha256Json sha256Hex (payload envelope)) in
        if negb (String.eqb payloadHash (payload_hash envelope)) then
          Throw (SignedEnvelopeError payload_hash_mismatch)
        else
          match Date_getTime (issued_at envelope) with
          | None => Throw (SignedEnvelopeError timestamp_skew)
          | Some issuedAt =>
              let skewMs := Z.abs (now - issuedAt) in
              if (maxSkewSeconds * 1000 <? skewMs)%Z then
                Throw (SignedEnvelopeError timestamp_skew)
              else
                let signingInput := buildSigningInput envelope in
                let signature := parseSignature (signature envelope) in
                if String.eqb (alg key) "ed25519" then
                  check_signature None key signingInput signature
                else if String.eqb (alg key) "ES256" then
                  check_signature (Some "sha256") key signingInput signature
                else Throw (SignedEnvelopeError unsupported_algorithm)
          end
  end.

End WithRuntime.

End SignedEnvelope.

(** ** [lib/tracing/traceIntegrity.ts] *)
Module TraceIntegrity.
Import StableJson.

Inductive TraceIntegrityStatus : Type :=
| verified | compromised | unsigned | unverified.

#[export] Instance TraceIntegrityStatus_eq_dec : EqDecision TraceIntegrityStatus.
Proof. solve_decision. Defined.

Record TraceIntegrityResult : Type := {
  status : TraceIntegrityStatus;
  failures : list string;
}.

(** A field of type [string | null] that may also be absent. *)
Inductive Nullable : Type :=
| Undefined
| Null
| Text (s : string).

#[export] Instance Nullable_eq_dec : EqDecision Nullable.
Proof. solve_decision. Defined.

(** Modelled from the spec: the declarations of [TraceStep] and [AgentTrace]
    ([tracing/trace.ts] is not among the sources).  The fields are the ones
    the specification lists for a step and [traceIntegrity.ts] reads:
    [step_id] and [step_hash] are optional strings, [prev_step_hash] is null
    at index 0, and [steps] may be missing from a trace read back from
    storage. *)
Record TraceStep : Type := {
  step_type : string;
  timestamp : string;
  durationMs : Z;
  data : JsonValue;
  step_id : option string;
  prev_step_hash : Nullable;
  step_hash : option string;
}.

Record AgentTrace : Type := {
  trace_id : string;
  steps : option (list TraceStep);
}.

Section WithDigest.
Variable sha256Hex : string -> string.

Definition buildStepPayload (step : TraceStep) : JsonValue :=
  JObject
    [("step_id",
      if PolicyEngine.truthy (step_id step)
      then JString (default "" (step_id step)) else JNull);
     ("prev_step_hash",
      match prev_step_hash step with Text s => JString s | _ => JNull end);
     ("type", JString (step_type step));
     ("timestamp", JString (timestamp step));
     ("durationMs", JNumber (durationMs step));
     ("data", data step)].

Definition computeStepHash (step : TraceStep) : string :=
  let payload := buildStepPayload step in
  Sha256.formatSha256 (Sha256.sha256Json sha256Hex payload).

(** The template strings [`step_${i}_...`]. *)
Definition failure_name (i : nat) (what : string) : string :=
  "step_" +:+ Number_toString (Z.of_nat i) +:+ "_" +:+ what.

(** A value of type [string | null] as a [Nullable]. *)
Definition string_or_null (h : option string) : Nullable :=
  match h with Some s => Text s | None => Null end.

(** [!!step.step_hash] *)
Definition has_hash (step : TraceStep) : bool := PolicyEngine.truthy (step_hash step).

(** The [for] loop of [verifyTraceIntegrity] from index [i] on: [prevHash]
    and [failures] are the loop's variables, the result is [failures] when
    the loop ends. *)
Fixpoint verify_loop (i : nat) (prevHash : option string) (failures : list string)
    (steps : list TraceStep) : list string :=
  match steps with
  | [] => failures
  | step :: rest =>
      let expectedPrev := if Nat.eqb i 0 then None else prevHash in
      if negb (has_hash step) then
        verify_loop (S i) None (failures ++ [failure_name i "missing_hash"]) rest
      else
        let failures :=
          if negb (bool_decide (prev_step_hash step = string_or_null expectedPrev))
          then failures ++ [failure_name i "prev_hash_mismatch"]
          else failures in
        let computed := computeStepHash step in
        let failures :=
          if negb (bool_decide (Some computed = step_hash step))
          then failures ++ [failure_name i "hash_mismatch"]
          else failures in
        verify_loop (S i) (step_hash step) failures rest
  end.

Definition verifyTraceIntegrity (trace : AgentTrace) : TraceIntegrityResult :=
  let steps := default [] (steps trace) in
  if Nat.eqb (length steps) 0 then
    {| status := unverified; failures := ["no_steps"] |}
  else
    let hasAnyHash := existsb has_hash steps in
    if negb hasAnyHash then
      {| status := unsigned; failures := ["missing_step_hashes"] |}
    else
      let failures := verify_loop 0 None [] steps in
      if (0 <? length failures)%nat then
        {| status := compromised; failures := failures |}
      else {| status := verified; failures := [] |}.

(** The hash the step at index [i] has to name as its predecessor's: null
    at index 0, else the hash of the step before it (null when that step
    carries none). *)
Definition expected_prev (steps : list TraceStep) (i : nat) : Nullable :=
  match i with
  | O => Null
  | S j =>
      match steps !! j with
      | Some before =>
          if has_hash before then string_or_null (step_hash before) else Null
      | None => Null
      end
  end.

(** The step at index [i] reconciles: it carries a hash, the hash is the one
    recomputed from the step, and its [prev_step_hash] links to the step
    before it. *)
Definition step_reconciles (steps : list TraceStep) (i : nat) (step : TraceStep) : Prop :=
  has_hash step = true
  /\ step_hash step = Some (computeStepHash step)
  /\ prev_step_hash step = expected_prev steps i.

Definition chain_reconciles (steps : list TraceStep) : Prop :=
  forall i step, steps !! i = Some step -> step_reconciles steps i step.

(** The step at index [i] is broken: it carries no hash, or the hash
    recomputed from it differs from the one it carries, or its
    [prev_step_hash] does not link to the step before it. *)
Definition step_broken (steps : list TraceStep) (i : nat) (step : TraceStep) : Prop :=
  has_hash step = false
  \/ step_hash step <> Some (computeStepHash step)
  \/ prev_step_hash step <> expected_prev steps i.

End WithDigest.

End TraceIntegrity.

(** ** [lib/auth/tenantContext.ts], the authorization helpers *)
Module TenantContext.
Import StableJson.

(** Amounts ([maxTokens], [budgetRemaining], costs, token counts) are finite
    JS numbers; the helpers only compare them, and on finite numbers the
    comparison is the one of the rationals. *)
Record TenantPermissions : Type := {
  tools : list string;
  maxTokens : option Q;
  budgetRemaining : option Q;
  allowedModels : option (list string);
  allowedSkills : option (list string);
}.

Record TenantContext : Type := {
  tenantId : string;
  workspaceId : string;
  userId : string;
  agentRole : option string;
  permissions : TenantPermissions;
  raw : Js.Obj JsonValue;
}.

(** [list.includes(x)] *)
Definition includes (l : list string) (x : string) : bool :=
  existsb (String.eqb x) l.

(** [s.split('/')[0]]: the text before the first slash, all of [s] when it
    has none. *)
Fixpoint before_slash (s : string) : string :=
  match s with
  | EmptyString => EmptyString
  | String c s' => if Ascii.eqb c "/"%char then EmptyString else String c (before_slash s')
  end.

Definition canUseTool (context : TenantContext) (toolName : string) : bool :=
  let tools := tools (permissions context) in
  if includes tools "*" then true
  else includes tools toolName.

Definition canUseModel (context : TenantContext) (modelName : string) : bool :=
  match allowedModels (permissions context) with
  | None => true
  | Some allowedModels =>
      if Nat.eqb (length allowedModels) 0 then true
      else
        let provider := before_slash modelName in
        includes allowedModels modelName
        || includes allowedModels (provider +:+ "/*")
  end.

Definition canUseSkill (context : TenantContext) (skillName : string) : bool :=
  match allowedSkills (permissions context) with
  | None => true
  | Some allowedSkills =>
      if Nat.eqb (length allowedSkills) 0 then true
      else includes allowedSkills skillName || includes allowedSkills "*"
  end.

(** [hasBudget(context, estimatedCost = 0)] *)
Definition hasBudget (context : TenantContext) (estimatedCost : option Q) : bool :=
  let estimatedCost := default 0%Q estimatedCost in
  match budgetRemaining (permissions context) with
  | None => true
  | Some budgetRemaining => Qle_bool estimatedCost budgetRemaining
  end.

Definition withinTokenLimit (context : TenantContext) (tokenCount : Q) : bool :=
  match maxTokens (permissions context) with
  | None => true
  | Some maxTokens => Qle_bool tokenCount maxTokens
  end.

(** A pattern of the form [namespace:*] and the values of that namespace. *)
Definition in_namespace (namespace value : string) : Prop :=
  exists rest, value = namespace +:+ ":" +:+ rest.

(** *** Extraction *)

(** [createSystemTenantContext(tenantId, workspaceId?)] *)
Definition createSystemTenantContext (tenantId : string) (workspaceId : option string)
    : TenantContext :=
  let workspace :=
    if PolicyEngine.truthy workspaceId then default "" workspaceId else tenantId in
  {| tenantId := tenantId;
     workspaceId := workspace;
     userId := "system";
     agentRole := None;
     permissions :=
       {| tools := ["*"]; maxTokens := None; budgetRemaining := None;
          allowedModels := None; allowedSkills := None |};
     raw := [("tenant_id", JString tenantId); ("workspace_id", JString workspace);
             ("user_id", JString "system"); ("type", JString "system")] |}.

(** What [TenantJWTPayloadSchema.safeParse] returns on success: the payload
    with every declared claim at its declared type. *)
Record TenantJWTPayload : Type := {
  claim_sub : option string;
  claim_iss : option string;
  claim_aud : option (string + list string);
  claim_exp : option Q;
  claim_iat : option Q;
  claim_tenant_id : string;
  claim_workspace_id : option string;
  claim_user_id : option string;
  claim_agent_role : option string;
  claim_type : option string;
  claim_allowed_tools : option (list string);
  claim_max_tokens : option Q;
  claim_budget_remaining : option Q;
  claim_allowed_models : option (list string);
  claim_allowed_skills : option (list string);
}.

(** ToBoolean on a property that may be absent. *)
Definition js_truthy (v : option JsonValue) : bool :=
  match v with
  | None => false
  | Some v => ToBoolean v
  end.

(** [a || b] *)
Definition js_or (a b : option JsonValue) : option JsonValue :=
  if js_truthy a then a else b.

(** The context the function builds when the payload fails the schema: the
    claims are used as they come, under casts that check nothing, so a field
    holds whatever JSON value the payload gave ([None] for [undefined]). *)
Record UncheckedTenantContext : Type := {
  unchecked_tenantId : option JsonValue;
  unchecked_workspaceId : option JsonValue;
  unchecked_userId : option JsonValue;
  unchecked_agentRole : option JsonValue;
  unchecked_tools : option JsonValue;
  unchecked_maxTokens : option JsonValue;
  unchecked_budgetRemaining : option JsonValue;
  unchecked_allowedModels : option JsonValue;
  unchecked_allowedSkills : option JsonValue;
  unchecked_raw : Js.Obj JsonValue;
}.

Inductive Extracted : Type :=
| Validated (context : TenantContext)
| Unchecked (context : UncheckedTenantContext).

Inductive TenantAuthErrorCode : Type :=
| config_error | missing_token | missing_tenant | token_expired
| invalid_signature | verification_failed | permission_denied.

Section WithSchema.
(** The validation of [zod]: [None] when [safeParse] reports failure. *)
Variable safeParse : Js.Obj JsonValue -> option TenantJWTPayload.

(** [extractTenantFromPayload(payload)] *)
Definition extractTenantFromPayload (payload : Js.Obj JsonValue)
    : Outcome.t TenantAuthErrorCode Extracted :=
  match safeParse payload with
  | None =>
      let tenantId := js_or (Js.get payload "tenant_id") (Js.get payload "tid") in
      if negb (js_truthy tenantId) then Throw missing_tenant
      else
        Return (Unchecked
          {| unchecked_tenantId := tenantId;
             unchecked_workspaceId :=
               js_or (js_or (Js.get payload "workspace_id") (Js.get payload "wid"))
                 tenantId;
             unchecked_userId :=
               js_or (js_or (Js.get payload "user_id") (Js.get payload "sub"))
                 (Some (JString "unknown"));
             unchecked_agentRole := Js.get payload "agent_role";
             unchecked_tools :=
               js_or (Js.get payload "allowed_tools") (Some (JArray []));
             unchecked_maxTokens := Js.get payload "max_tokens";
             unchecked_budgetRemaining := Js.get payload "budget_remaining";
             unchecked_allowedModels := Js.get payload "allowed_models";
             unchecked_allowedSkills := Js.get payload "allowed_skills";
             unchecked_raw := payload |})
  | Some data =>
      Return (Validated
        {| tenantId := claim_tenant_id data;
           workspaceId :=
             if PolicyEngine.truthy (claim_workspace_id data)
             then default "" (claim_workspace_id data)
             else claim_tenant_id data;
           userId :=
             if PolicyEngine.truthy (claim_user_id data)
             then default "" (claim_user_id data)
             else if PolicyEngine.truthy (claim_sub data)
                  then default "" (claim_sub data)
                  else "unknown";
           agentRole := claim_agent_role data;
           permissions :=
             {| tools := default [] (claim_allowed_tools data);
                maxTokens := claim_max_tokens data;
                budgetRemaining := claim_budget_remaining data;
                allowedModels := claim_allowed_models data;
                allowedSkills := claim_allowed_skills data |};
           raw := payload |})
  end.

End WithSchema.

End TenantContext.

(** ** [lib/adapters/registry.ts]

    The class works on the table [adapter_registry] of the SQLite database.
    The table is the list of its rows, oldest first.  Its unique index is
    the one the [ON CONFLICT] target of [register] names: tenant, adapter
    and version.  [new Date().toISOString()] is the argument [now] of the
    methods that read the clock. *)
Module AdapterRegistry.
Import StableJson.

Inductive AdapterRiskClass : Type := low | medium | high | critical.

Module AdapterRegistration.
Record t : Type := {
  adapter_id : string;
  display_name : string;
  risk_class : AdapterRiskClass;
  capabilities : list string;
  version : string;
  enabled : bool;
}.
End AdapterRegistration.

(** A row of the table: JSON values are stored as text, the flag as a
    number. *)
Module AdapterRow.
Record t : Type := {
  tenant_id : string;
  adapter_id : string;
  version : string;
  display_name : string;
  risk_class : AdapterRiskClass;
  capabilities : string;
  enabled : Z;
  telemetry_key_alg : option string;
  telemetry_public_jwk : option string;
  telemetry_key_id : option string;
  telemetry_key_created_at : option string;
  telemetry_key_revoked_at : option string;
  created_at : string;
  updated_at : string;
}.
End AdapterRow.

(** What the class hands out.  [capabilities] and [telemetry_public_jwk]
    are whatever [JSON.parse] made of the stored text ([JNull] for
    [null]). *)
Module AdapterRecord.
Record t : Type := {
  tenant_id : string;
  adapter_id : string;
  display_name : string;
  risk_class : AdapterRiskClass;
  capabilities : JsonValue;
  version : string;
  enabled : bool;
  created_at : string;
  updated_at : string;
  telemetry_key_alg : option string;
  telemetry_public_jwk : JsonValue;
  telemetry_key_id : option string;
  telemetry_key_created_at : option string;
  telemetry_key_revoked_at : option string;
}.
End AdapterRecord.

Record ActiveTelemetryKey : Type := {
  keyAlg : string;
  publicJwk : JsonValue;
  keyId : option string;
  createdAt : option string;
}.

Inductive Error : Type := SyntaxError.

Definition Table : Type := list AdapterRow.t.

(** [WHERE tenant_id = ? AND adapter_id = ?] *)
Definition where_adapter (tenantId adapterId : string) (row : AdapterRow.t) : bool :=
  String.eqb (AdapterRow.tenant_id row) tenantId
  && String.eqb (AdapterRow.adapter_id row) adapterId.

(** [WHERE tenant_id = ? AND adapter_id = ? AND version = ?] *)
Definition where_version (tenantId adapterId version : string) (row : AdapterRow.t)
    : bool :=
  where_adapter tenantId adapterId row && String.eqb (AdapterRow.version row) version.

(** The [WHERE] clause of the statements that take the version when it is
    given: [version ? ... : ...]. *)
Definition where_ (tenantId adapterId : string) (version : option string)
    : AdapterRow.t -> bool :=
  if PolicyEngine.truthy version
  then where_version tenantId adapterId (default "" version)
  else where_adapter tenantId adapterId.

(** [UPDATE adapter_registry SET ... WHERE ...]: the table afterwards and
    [result.changes], the number of rows the clause selects. *)
Definition sql_update (selected : AdapterRow.t -> bool) (set : AdapterRow.t -> AdapterRow.t)
    (table : Table) : Table * nat :=
  (map (fun row => if selected row then set row else row) table,
   length (List.filter selected table)).

(** [INSERT ... ON CONFLICT(tenant_id, adapter_id, version) DO UPDATE SET ...] *)
Definition sql_upsert (row : AdapterRow.t) (set : AdapterRow.t -> AdapterRow.t)
    (table : Table) : Table :=
  let conflict :=
    where_version (AdapterRow.tenant_id row) (AdapterRow.adapter_id row)
      (AdapterRow.version row) in
  if existsb conflict table
  then map (fun old => if conflict old then set old else old) table
  else table ++ [row].

Section WithRuntime.
(** [JSON.parse], which throws a [SyntaxError] on a text that is no JSON. *)
Variable JSON_parse : string -> Outcome.t Error JsonValue.
(** SQLite fixes no order among rows whose [updated_at] are equal: whether
    it puts the first of two such rows before the second. *)
Variable first_of_equal : AdapterRow.t -> AdapterRow.t -> bool.

(** [ORDER BY updated_at DESC LIMIT 1]; the column is text and compared as
    such. *)
Fixpoint sql_latest (rows : list AdapterRow.t) : option AdapterRow.t :=
  match rows with
  | [] => None
  | row :: rest =>
      match sql_latest rest with
      | None => Some row
      | Some other =>
          match String.compare (AdapterRow.updated_at row) (AdapterRow.updated_at other) with
          | Gt => Some row
          | Lt => Some other
          | Eq => if first_of_equal row other then Some row else Some other
          end
      end
  end.

Definition rowToRecord (row : AdapterRow.t) : Outcome.t Error AdapterRecord.t :=
  match JSON_parse (if negb (String.eqb (AdapterRow.capabilities row) "")
                    then AdapterRow.capabilities row else "[]") with
  | Throw e => Throw e
  | Return capabilities =>
      match (if PolicyEngine.truthy (AdapterRow.telemetry_public_jwk row)
             then JSON_parse (default "" (AdapterRow.telemetry_public_jwk row))
             else Return JNull) with
      | Throw e => Throw e
      | Return telemetry_public_jwk =>
          Return
            {| AdapterRecord.tenant_id := AdapterRow.tenant_id row;
               AdapterRecord.adapter_id := AdapterRow.adapter_id row;
               AdapterRecord.display_name := AdapterRow.display_name row;
               AdapterRecord.risk_class := AdapterRow.risk_class row;
               AdapterRecord.capabilities := capabilities;
               AdapterRecord.version := AdapterRow.version row;
               AdapterRecord.enabled := (AdapterRow.enabled row =? 1)%Z;
               AdapterRecord.created_at := AdapterRow.created_at row;
               AdapterRecord.updated_at := AdapterRow.updated_at row;
               AdapterRecord.telemetry_key_alg := AdapterRow.telemetry_key_alg row;
               AdapterRecord.telemetry_public_jwk := telemetry_public_jwk;
               AdapterRecord.telemetry_key_id := AdapterRow.telemetry_key_id row;
               AdapterRecord.telemetry_key_created_at :=
                 AdapterRow.telemetry_key_created_at row;
               AdapterRecord.telemetry_key_revoked_at :=
                 AdapterRow.telemetry_key_revoked_at row |}
      end
  end.

(** [get(tenantId, adapterId, version?)] *)
Definition get (table : Table) (tenantId adapterId : string) (version : option string)
    : Outcome.t Error (option AdapterRecord.t) :=
  let row :=
    if PolicyEngine.truthy version
    then List.find (where_version tenantId adapterId (default "" version)) table
    else sql_latest (List.filter (where_adapter tenantId adapterId) table) in
  match row with
  | Some row =>
      match rowToRecord row with
      | Return record => Return (Some record)
      | Throw e => Throw e
      end
  | None => Return None
  end.

(** [register(tenantId, registration)]: the statement is run before the
    record is read back, so the table is written also when the reading
    throws. *)
Definition register (table : Table) (now : string) (tenantId : string)
    (registration : AdapterRegistration.t)
    : Outcome.t Error (option AdapterRecord.t) * Table :=
  let capabilities :=
    JSON_stringify (JArray (map JString (AdapterRegistration.capabilities registration))) in
  let enabled := if AdapterRegistration.enabled registration then 1%Z else 0%Z in
  let table' :=
    sql_upsert
      {| AdapterRow.tenant_id := tenantId;
         AdapterRow.adapter_id := AdapterRegistration.adapter_id registration;
         AdapterRow.version := AdapterRegistration.version registration;
         AdapterRow.display_name := AdapterRegistration.display_name registration;
         AdapterRow.risk_class := AdapterRegistration.risk_class registration;
         AdapterRow.capabilities := capabilities;
         AdapterRow.enabled := enabled;
         AdapterRow.telemetry_key_alg := None;
         AdapterRow.telemetry_public_jwk := None;
         AdapterRow.telemetry_key_id := None;
         AdapterRow.telemetry_key_created_at := None;
         AdapterRow.telemetry_key_revoked_at := None;
         AdapterRow.created_at := now;
         AdapterRow.updated_at := now |}
      (fun old =>
         {| AdapterRow.tenant_id := AdapterRow.tenant_id old;
            AdapterRow.adapter_id := AdapterRow.adapter_id old;
            AdapterRow.version := AdapterRow.version old;
            AdapterRow.display_name := AdapterRegistration.display_name registration;
            AdapterRow.risk_class := AdapterRegistration.risk_class registration;
            AdapterRow.capabilities := capabilities;
            AdapterRow.enabled := enabled;
            AdapterRow.telemetry_key_alg := AdapterRow.telemetry_key_alg old;
            AdapterRow.telemetry_public_jwk := AdapterRow.telemetry_public_jwk old;
            AdapterRow.telemetry_key_id := AdapterRow.telemetry_key_id old;
            AdapterRow.telemetry_key_created_at := AdapterRow.telemetry_key_created_at old;
            AdapterRow.telemetry_key_revoked_at := AdapterRow.telemetry_key_revoked_at old;
            AdapterRow.created_at := AdapterRow.created_at old;
            AdapterRow.updated_at := now |})
      table in
  (get table' tenantId (AdapterRegistration.adapter_id registration)
     (Some (AdapterRegistration.version registration)),
   table').

(** [version || undefined] *)
Definition or_undefined (version : option string) : option string :=
  if PolicyEngine.truthy version then version else None.

(** [setTelemetryKey(params)] *)
Definition setTelemetryKey (table : Table) (now : string) (tenantId adapterId : string)
    (version : option string) (keyAlg : string) (publicJwk : Js.Obj JsonValue)
    (keyId : option string)
    : Outcome.t Error (option AdapterRecord.t) * Table :=
  let keyId := if PolicyEngine.truthy keyId then keyId else None in
  let '(table', changes) :=
    sql_update (where_ tenantId adapterId version)
      (fun old =>
         {| AdapterRow.tenant_id := AdapterRow.tenant_id old;
            AdapterRow.adapter_id := AdapterRow.adapter_id old;
            AdapterRow.version := AdapterRow.version old;
            AdapterRow.display_name := AdapterRow.display_name old;
            AdapterRow.risk_class := AdapterRow.risk_class old;
            AdapterRow.capabilities := AdapterRow.capabilities old;
            AdapterRow.enabled := AdapterRow.enabled old;
            AdapterRow.telemetry_key_alg := Some keyAlg;
            AdapterRow.telemetry_public_jwk := Some (JSON_stringify (JObject publicJwk));
            AdapterRow.telemetry_key_id := keyId;
            AdapterRow.telemetry_key_created_at := Some now;
            AdapterRow.telemetry_key_revoked_at := None;
            AdapterRow.created_at := AdapterRow.created_at old;
            AdapterRow.updated_at := now |})
      table in
  if Nat.eqb changes 0 then (Return None, table')
  else (get table' tenantId adapterId (or_undefined version), table').

(** [revokeTelemetryKey(params)]; the [reason] of the parameters is not
    read. *)
Definition revokeTelemetryKey (table : Table) (now : string) (tenantId adapterId : string)
    (version : option string)
    : Outcome.t Error (option AdapterRecord.t) * Table :=
  let '(table', changes) :=
    sql_update (where_ tenantId adapterId version)
      (fun old =>
         {| AdapterRow.tenant_id := AdapterRow.tenant_id old;
            AdapterRow.adapter_id := AdapterRow.adapter_id old;
            AdapterRow.version := AdapterRow.version old;
            AdapterRow.display_name := AdapterRow.display_name old;
            AdapterRow.risk_class := AdapterRow.risk_class old;
            AdapterRow.capabilities := AdapterRow.capabilities old;
            AdapterRow.enabled := AdapterRow.enabled old;
            AdapterRow.telemetry_key_alg := AdapterRow.telemetry_key_alg old;
            AdapterRow.telemetry_public_jwk := AdapterRow.telemetry_public_jwk old;
            AdapterRow.telemetry_key_id := AdapterRow.telemetry_key_id old;
            AdapterRow.telemetry_key_created_at := AdapterRow.telemetry_key_created_at old;
            AdapterRow.telemetry_key_revoked_at := Some now;
            AdapterRow.created_at := AdapterRow.created_at old;
            AdapterRow.updated_at := now |})
      table in
  if Nat.eqb changes 0 then (Return None, table')
  else (get table' tenantId adapterId (or_undefined version), table').

(** [getActiveTelemetryKey(params)] *)
Definition getActiveTelemetryKey (table : Table) (tenantId adapterId : string)
    (version : option string) : Outcome.t Error (option ActiveTelemetryKey) :=
  match get table tenantId adapterId version with
  | Throw e => Throw e
  | Return None => Return None
  | Return (Some record) =>
      if negb (ToBoolean (AdapterRecord.telemetry_public_jwk record))
         || PolicyEngine.truthy (AdapterRecord.telemetry_key_revoked_at record)
      then Return None
      else if negb (PolicyEngine.truthy (AdapterRecord.telemetry_key_alg record))
      then Return None
      else
        Return (Some
          {| keyAlg := default "" (AdapterRecord.telemetry_key_alg record);
             publicJwk := AdapterRecord.telemetry_public_jwk record;
             keyId := AdapterRecord.telemetry_key_id record;
             createdAt := AdapterRecord.telemetry_key_created_at record |})
  end.

(** [disable(tenantId, adapterId, version?)] *)
Definition disable (table : Table) (now : string) (tenantId adapterId : string)
    (version : option string) : bool * Table :=
  let '(table', changes) :=
    sql_update (where_ tenantId adapterId version)
      (fun old =>
         {| AdapterRow.tenant_id := AdapterRow.tenant_id old;
            AdapterRow.adapter_id := AdapterRow.adapter_id old;
            AdapterRow.version := AdapterRow.version old;
            AdapterRow.display_name := AdapterRow.display_name old;
            AdapterRow.risk_class := AdapterRow.risk_class old;
            AdapterRow.capabilities := AdapterRow.capabilities old;
            AdapterRow.enabled := 0%Z;
            AdapterRow.telemetry_key_alg := AdapterRow.telemetry_key_alg old;
            AdapterRow.telemetry_public_jwk := AdapterRow.telemetry_public_jwk old;
            AdapterRow.telemetry_key_id := AdapterRow.telemetry_key_id old;
            AdapterRow.telemetry_key_created_at := AdapterRow.telemetry_key_created_at old;
            AdapterRow.telemetry_key_revoked_at := AdapterRow.telemetry_key_revoked_at old;
            AdapterRow.created_at := AdapterRow.created_at old;
            AdapterRow.updated_at := now |})
      table in
  (negb (Nat.eqb changes 0), table').

End WithRuntime.

End AdapterRegistry.

(* ===================================================================== *)
(** * Part II. Theorems                                                   *)
(* ===================================================================== *)

(** ** The policy engine *)
Module PolicyEngineFacts.
Import PolicyEngine.

Definition no_conditions : Conditions :=
  {| if_environment := None; if_tool := None; if_adapter_risk_class := None;
     if_skill_state := None; if_tenant_id := None; if_other := [] |}.

Definition effect_allow : Effect :=
  {| then_allow := Some true; then_deny := None; then_require_approval := None |}.

Definition effect_deny : Effect :=
  {| then_allow := None; then_deny := Some true; then_require_approval := None |}.

Definition empty_context : PolicyContext :=
  {| environment := None; tool := None; adapter_risk_class := None;
     skill_state := None; tenant_id := None |}.

(** The context of the engine's own test: [{ tool: 'filesystem.write',
    tenant_id: 't1' }]. *)
Definition fs_write_context : PolicyContext :=
  {| environment := None; tool := Some "filesystem.write";
     adapter_risk_class := None; skill_state := None; tenant_id := Some "t1" |}.

(** [policies: []] *)
Definition empty_document : PolicyFile := Document (Some []).

(** A document with one rule, on another tool. *)
Definition shell_rule : YamlRule :=
  {| yaml_policy_id := Some "allow_shell";
     yaml_if := Some {| if_environment := None; if_tool := Some "shell.exec";
                        if_adapter_risk_class := None; if_skill_state := None;
                        if_tenant_id := None; if_other := [] |};
     yaml_then := Some effect_allow |}.

Definition shell_document : PolicyFile := Document (Some [Some shell_rule]).

(** Two rules without conditions, the first allowing, the second denying. *)
Definition allow_all : YamlRule :=
  {| yaml_policy_id := Some "allow_all"; yaml_if := None; yaml_then := Some effect_allow |}.
Definition deny_all : YamlRule :=
  {| yaml_policy_id := Some "deny_all"; yaml_if := None; yaml_then := Some effect_deny |}.

Definition allow_then_deny : PolicyFile := Document (Some [Some allow_all; Some deny_all]).

(** A rule whose [if] block is [{ tool: '' }]. *)
Definition empty_tool_rule : PolicyRule :=
  {| policy_id := "p";
     rule_if := Some {| if_environment := None; if_tool := Some "";
                        if_adapter_risk_class := None; if_skill_state := None;
                        if_tenant_id := None; if_other := [] |};
     rule_then := effect_deny |}.

(** The rule of the specification's scenario S3, reduced to its context
    condition: [if: { context: { external_network: true } }], [then: { deny:
    true }]. *)
Definition external_network_rule : PolicyRule :=
  {| policy_id := "deny_shell_exec_network";
     rule_if :=
       Some {| if_environment := None; if_tool := None;
               if_adapter_risk_class := None; if_skill_state := None;
               if_tenant_id := None;
               if_other :=
                 [("context",
                   StableJson.JObject
                     [("external_network", StableJson.JBool true)])] |};
     rule_then := effect_deny |}.

(** The engine's tests 'allows when a matching rule exists' and 'requires
    approval when rule demands it'. *)
Definition allow_fs_write_document : PolicyFile :=
  Document (Some [Some
    {| yaml_policy_id := Some "allow_fs_write";
       yaml_if := Some {| if_environment := None; if_tool := Some "filesystem.write";
                          if_adapter_risk_class := None; if_skill_state := None;
                          if_tenant_id := None; if_other := [] |};
       yaml_then := Some effect_allow |}]).

Definition prod_fs_write_document : PolicyFile :=
  Document (Some [Some
    {| yaml_policy_id := Some "prod_fs_write";
       yaml_if := Some {| if_environment := Some "prod";
                          if_tool := Some "filesystem.write";
                          if_adapter_risk_class := None; if_skill_state := None;
                          if_tenant_id := None; if_other := [] |};
       yaml_then := Some {| then_allow := None; then_deny := None;
                            then_require_approval := Some true |} |}]).

Example test_allows_matching_rule :
  let result :=
    evaluatePolicy allow_fs_write_document
      {| environment := None; tool := Some "filesystem.write";
         adapter_risk_class := None; skill_state := None; tenant_id := None |} in
  decision result = allow /\ eval_policy_id result = Some "allow_fs_write".
Proof. split; reflexivity. Qed.

Example test_requires_approval :
  decision
    (evaluatePolicy prod_fs_write_document
       {| environment := Some "prod"; tool := Some "filesystem.write";
          adapter_risk_class := None; skill_state := None; tenant_id := None |})
  = require_approval.
Proof. reflexivity. Qed.

Lemma evaluate_loop_no_match policies matched0 ctx :
  Forall (fun r => matches r ctx = false) policies ->
  evaluate_loop policies matched0 ctx
  = {| decision := deny; eval_policy_id := None; matched := matched0 |}.
Proof.
  induction 1 as [|r rest Hr _ IH]; simpl; [reflexivity|].
  rewrite Hr. exact IH.
Qed.

Lemma evaluate_loop_first_match before rule after matched0 ctx :
  Forall (fun r => matches r ctx = false) before ->
  matches rule ctx = true ->
  evaluate_loop (before ++ rule :: after) matched0 ctx
  = {| decision := decisionFromRule rule; eval_policy_id := Some (policy_id rule);
       matched := matched0 ++ [rule] |}.
Proof.
  intros Hbefore Hrule.
  induction Hbefore as [|r rest Hr _ IH]; simpl.
  - rewrite Hrule. reflexivity.
  - rewrite Hr. exact IH.
Qed.

(** C1, as stated, fails: with [policies: []] no rule matches the context of
    the engine's own test, and the decision is [deny], not [allow]. *)
Lemma evaluatePolicy_no_match_is_not_allow :
  (forall rule, rule ∈ loadPolicies empty_document -> matches rule fs_write_context = false)
  /\ decision (evaluatePolicy empty_document fs_write_context) = deny
  /\ decision (evaluatePolicy empty_document fs_write_context) <> allow.
Proof.
  split; [|split].
  - intros rule Hin. simpl in Hin. inversion Hin.
  - reflexivity.
  - discriminate.
Qed.

(** C1, amended: for every policy file and context, when no loaded rule
    matches the context, [evaluatePolicy] returns the decision [deny], no
    policy id and an empty list of matched rules. *)
Theorem evaluatePolicy_no_match_denies (file : PolicyFile) (ctx : PolicyContext) :
  (forall rule, rule ∈ loadPolicies file -> matches rule ctx = false) ->
  evaluatePolicy file ctx
  = {| decision := deny; eval_policy_id := None; matched := [] |}.
Proof.
  intros Hnone. unfold evaluatePolicy.
  apply evaluate_loop_no_match. apply Forall_forall. exact Hnone.
Qed.

Lemma evaluatePolicy_no_match_denies_witness :
  evaluatePolicy shell_document fs_write_context
  = {| decision := deny; eval_policy_id := None; matched := [] |}.
Proof.
  apply (evaluatePolicy_no_match_denies shell_document fs_write_context).
  intros rule Hin. simpl in Hin.
  apply list_elem_of_singleton in Hin. subst rule. reflexivity.
Defined.

(** C2, as stated, fails: both rules of [allow_then_deny] match every
    context, one of them denies, and the engine answers [allow] with only the
    first rule in [matched]. *)
Lemma evaluatePolicy_ignores_later_deny :
  Forall (fun r => matches r empty_context = true) (loadPolicies allow_then_deny)
  /\ length (loadPolicies allow_then_deny) = 2
  /\ highest_precedence (loadPolicies allow_then_deny) = deny
  /\ decision (evaluatePolicy allow_then_deny empty_context) = allow
  /\ length (matched (evaluatePolicy allow_then_deny empty_context)) = 1.
Proof.
  repeat split.
  - repeat constructor.
Qed.

(** C2, amended: for every policy file and context in which some loaded rule
    matches, [evaluatePolicy] stops at the first matching rule in file
    order: [matched] holds that rule alone, [policy_id] is its id, and the
    decision is the effect of that rule, where inside one rule's [then]
    block [deny] wins over [require_approval], which wins over [allow], and
    a block that sets none of the three gives [deny]. *)
Theorem evaluatePolicy_first_match (file : PolicyFile) (ctx : PolicyContext)
    (before : list PolicyRule) (rule : PolicyRule) (after : list PolicyRule) :
  loadPolicies file = before ++ rule :: after ->
  Forall (fun r => matches r ctx = false) before ->
  matches rule ctx = true ->
  evaluatePolicy file ctx
  = {| decision := decisionFromRule rule; eval_policy_id := Some (policy_id rule);
       matched := [rule] |}
  /\ decisionFromRule rule
     = (if is_true (then_deny (rule_then rule)) then deny
        else if is_true (then_require_approval (rule_then rule)) then require_approval
        else if is_true (then_allow (rule_then rule)) then allow
        else deny).
Proof.
  intros Hload Hbefore Hrule. split; [|reflexivity].
  unfold evaluatePolicy. rewrite Hload.
  apply (evaluate_loop_first_match before rule after [] ctx Hbefore Hrule).
Qed.

Lemma evaluatePolicy_first_match_witness :
  evaluatePolicy allow_then_deny empty_context
  = {| decision := allow; eval_policy_id := Some "allow_all";
       matched := [{| policy_id := "allow_all"; rule_if := None;
                      rule_then := effect_allow |}] |}.
Proof.
  apply (evaluatePolicy_first_match allow_then_deny empty_context []
           {| policy_id := "allow_all"; rule_if := None; rule_then := effect_allow |}
           [{| policy_id := "deny_all"; rule_if := None; rule_then := effect_deny |}]).
  - reflexivity.
  - constructor.
  - reflexivity.
Defined.

(** C3, as stated, fails twice.  The rule whose [if] block is [{ tool: '' }]
    specifies a condition on [tool], the empty context has no [tool], and the
    rule matches it.  And the rule whose [if] block is [{ context: {
    external_network: true } }] matches a context that has no [context] at
    all: the engine knows no such condition and never reads it. *)
Lemma matches_ignores_empty_condition :
  (exists conditions, rule_if empty_tool_rule = Some conditions
                      /\ is_Some (condition_on Tool conditions))
  /\ context_field Tool empty_context = None
  /\ matches empty_tool_rule empty_context = true
  /\ (exists conditions, rule_if external_network_rule = Some conditions
                         /\ is_Some (Js.get (if_other conditions) "context"))
  /\ matches external_network_rule empty_context = true.
Proof.
  split_and!; try reflexivity.
  - eexists. split; [reflexivity|]. simpl. eauto.
  - eexists. split; [reflexivity|]. simpl. eauto.
Qed.

(** C3, amended: for every rule whose [if] block gives a non-empty string
    for one of the five fields the engine reads ([environment], [tool],
    [adapter_risk_class], [skill_state], [tenant_id]) and every context in
    which that field is absent, the rule does not match the context. *)
Theorem matches_unknown_field (rule : PolicyRule) (conditions : Conditions)
    (f : Field) (ctx : PolicyContext) :
  rule_if rule = Some conditions ->
  truthy (condition_on f conditions) = true ->
  context_field f ctx = None ->
  matches rule ctx = false.
Proof.
  intros Hif Hcond Hctx. unfold matches. rewrite Hif.
  assert (Hne : strict_ne (condition_on f conditions) (context_field f ctx) = true).
  { rewrite Hctx. destruct (condition_on f conditions); [reflexivity|discriminate]. }
  destruct f; simpl in Hcond, Hne; rewrite ?Hcond, ?Hne; simpl;
    repeat match goal with
           | |- (if ?b then false else _) = false => destruct b; [reflexivity|]
           end; try reflexivity.
Qed.

Lemma matches_unknown_field_witness :
  matches {| policy_id := "allow_shell"; rule_if := yaml_if shell_rule;
             rule_then := effect_allow |} empty_context = false.
Proof.
  eapply (matches_unknown_field _ _ Tool empty_context).
  - reflexivity.
  - reflexivity.
  - reflexivity.
Defined.

End PolicyEngineFacts.

(** ** Tool tokens *)
Module ToolTokensFacts.
Import StableJson ToolTokens.

#[local] Arguments consumeToolToken : simpl never.
#[local] Arguments issueToolToken : simpl never.

(** Stand-ins for the digest and the HMAC in closed examples. *)
Definition toy_sha256Hex (input : string) : string := input.
Definition toy_hmac (alg secret input : string) : string := secret +:+ "|" +:+ input.

Definition test_config : Config :=
  {| toolTokenSecret := "test-secret"; toolTokenAlgorithm := "HS256" |}.

Definition empty_world : World := {| config := test_config; tool_tokens := ∅ |}.

(** The claims of the module's own test. *)
Definition test_claims : ToolTokenClaims :=
  {| claim_tenant_id := "t1"; claim_workspace_id := "w1"; claim_adapter_id := "a1";
     claim_execution_id := "e1"; claim_tool := "filesystem.write";
     claim_scope := JObject [("path", JString "/tmp/out.txt"); ("bytes", JNumber 10)] |}.

Definition test_issue : Outcome.t Error IssuedToolToken * World :=
  issueToolToken toy_sha256Hex toy_hmac "jti-1" 1000000 test_claims None empty_world.

Definition test_token : Token :=
  match fst test_issue with
  | Return issued => token issued
  | Throw _ => Garbage ""
  end.

(** The state of one [jti] in the store. *)
Definition unused (id : string) (w : World) : Prop :=
  exists row, tool_tokens w !! id = Some row /\ row_used_at row = None.

Definition consumed (id : string) (w : World) : Prop :=
  exists row, tool_tokens w !! id = Some row /\ is_Some (row_used_at row).

Lemma with_table_same (w : World) : with_table w (tool_tokens w) = w.
Proof. destruct w; reflexivity. Qed.

Lemma consume_unused now id w row :
  tool_tokens w !! id = Some row -> row_used_at row = None ->
  consumeToolToken now id w
  = (true, with_table w (<[id := mark_used now row]> (tool_tokens w))).
Proof.
  intros Hrow Hused. unfold consumeToolToken, sql_update_used_at.
  rewrite Hrow, Hused. reflexivity.
Qed.

Lemma consume_consumed now id w : consumed id w -> consumeToolToken now id w = (false, w).
Proof.
  intros (row & Hrow & [t Ht]). unfold consumeToolToken, sql_update_used_at.
  rewrite Hrow, Ht. simpl. by rewrite with_table_same.
Qed.

Lemma consume_absent now id w :
  tool_tokens w !! id = None -> consumeToolToken now id w = (false, w).
Proof.
  intros Hnone. unfold consumeToolToken, sql_update_used_at.
  rewrite Hnone. simpl. by rewrite with_table_same.
Qed.

Lemma consume_makes_consumed now id w :
  unused id w -> consumed id (snd (consumeToolToken now id w)).
Proof.
  intros (row & Hrow & Hused). rewrite (consume_unused now id w row Hrow Hused).
  exists (mark_used now row). cbn [snd tool_tokens with_table row_used_at mark_used].
  split; [apply lookup_insert_eq|eauto].
Qed.

(** A consume of another [jti] leaves the row of [id] alone. *)
Lemma consume_other_lookup now id id' w :
  id' <> id ->
  tool_tokens (snd (consumeToolToken now id' w)) !! id = tool_tokens w !! id.
Proof.
  intros Hne. unfold consumeToolToken, sql_update_used_at.
  destruct (tool_tokens w !! id') as [row|] eqn:Hrow; simpl; [|reflexivity].
  destruct (row_used_at row); simpl; [reflexivity|].
  by rewrite lookup_insert_ne.
Qed.

(** An issue leaves an existing row alone: the insert of a second row of the
    same [jti] throws, and any other insert is elsewhere in the table. *)
Lemma issue_keeps_row sha hmac uuid now_ms claims ttl w id row :
  tool_tokens w !! id = Some row ->
  tool_tokens (snd (issueToolToken sha hmac uuid now_ms claims ttl w)) !! id = Some row.
Proof.
  intros Hrow. unfold issueToolToken, sql_insert.
  destruct (String.eqb (toolTokenSecret (config w)) ""); [exact Hrow|].
  destruct (tool_tokens w !! uuid) as [other|] eqn:Huuid; simpl; [exact Hrow|].
  rewrite lookup_insert_ne; [exact Hrow|]. congruence.
Qed.

Lemma issue_keeps_absent sha hmac uuid now_ms claims ttl w id :
  uuid <> id -> tool_tokens w !! id = None ->
  tool_tokens (snd (issueToolToken sha hmac uuid now_ms claims ttl w)) !! id = None.
Proof.
  intros Hne Hnone. unfold issueToolToken, sql_insert.
  destruct (String.eqb (toolTokenSecret (config w)) ""); [exact Hnone|].
  destruct (tool_tokens w !! uuid) as [other|] eqn:Huuid; simpl; [exact Hnone|].
  by rewrite lookup_insert_ne.
Qed.

(** What a successful issue leaves in the store. *)
Lemma issue_inserts_unused sha hmac uuid now_ms claims ttl w issued w1 :
  issueToolToken sha hmac uuid now_ms claims ttl w = (Return issued, w1) ->
  jti issued = uuid /\ tool_tokens w !! uuid = None /\ unused uuid w1.
Proof.
  unfold issueToolToken, sql_insert.
  destruct (String.eqb (toolTokenSecret (config w)) ""); [discriminate|].
  destruct (tool_tokens w !! uuid) as [other|] eqn:Huuid; [discriminate|].
  intros [= <- <-]. simpl. split; [reflexivity|]. split; [reflexivity|].
  unfold unused, with_table. simpl.
  eexists. split; [apply lookup_insert_eq|reflexivity].
Qed.

Lemma consume_results_issue sha hmac id uuid now_ms claims ttl rest w :
  consume_results sha hmac id (CallIssue uuid now_ms claims ttl :: rest) w
  = consume_results sha hmac id rest
      (snd (issueToolToken sha hmac uuid now_ms claims ttl w)).
Proof. reflexivity. Qed.

Lemma consume_results_same sha hmac id now rest w :
  consume_results sha hmac id (CallConsume now id :: rest) w
  = fst (consumeToolToken now id w)
    :: consume_results sha hmac id rest (snd (consumeToolToken now id w)).
Proof. simpl. rewrite String.eqb_refl. reflexivity. Qed.

Lemma consume_results_other sha hmac id now id' rest w :
  id' <> id ->
  consume_results sha hmac id (CallConsume now id' :: rest) w
  = consume_results sha hmac id rest (snd (consumeToolToken now id' w)).
Proof.
  intros Hne. simpl. apply String.eqb_neq in Hne. rewrite Hne. reflexivity.
Qed.

Lemma consumes_of_issue id uuid now_ms claims ttl rest :
  consumes_of id (CallIssue uuid now_ms claims ttl :: rest) = consumes_of id rest.
Proof. reflexivity. Qed.

Lemma consumes_of_same id now rest :
  consumes_of id (CallConsume now id :: rest) = S (consumes_of id rest).
Proof. unfold consumes_of. simpl. rewrite String.eqb_refl. reflexivity. Qed.

Lemma consumes_of_other id now id' rest :
  id' <> id -> consumes_of id (CallConsume now id' :: rest) = consumes_of id rest.
Proof.
  intros Hne. unfold consumes_of. simpl.
  apply String.eqb_neq in Hne. rewrite Hne. reflexivity.
Qed.

Lemma consumed_after_issue sha hmac uuid now_ms claims ttl id w :
  consumed id w -> consumed id (snd (issueToolToken sha hmac uuid now_ms claims ttl w)).
Proof.
  intros (row & Hrow & Hused). exists row.
  split; [by apply issue_keeps_row|exact Hused].
Qed.

Lemma unused_after_issue sha hmac uuid now_ms claims ttl id w :
  unused id w -> unused id (snd (issueToolToken sha hmac uuid now_ms claims ttl w)).
Proof.
  intros (row & Hrow & Hused). exists row.
  split; [by apply issue_keeps_row|exact Hused].
Qed.

Lemma consumed_after_other now id id' w :
  id' <> id -> consumed id w -> consumed id (snd (consumeToolToken now id' w)).
Proof.
  intros Hne (row & Hrow & Hused). exists row.
  split; [by rewrite consume_other_lookup|exact Hused].
Qed.

Lemma unused_after_other now id id' w :
  id' <> id -> unused id w -> unused id (snd (consumeToolToken now id' w)).
Proof.
  intros Hne (row & Hrow & Hused). exists row.
  split; [by rewrite consume_other_lookup|exact Hused].
Qed.

(** Once consumed, every later consume of the [jti] returns false. *)
Lemma consume_results_consumed sha hmac id calls :
  forall w, consumed id w ->
  consume_results sha hmac id calls w = replicate (consumes_of id calls) false.
Proof.
  induction calls as [|call rest IH]; intros w Hw; [reflexivity|].
  destruct call as [uuid now_ms claims ttl|now id'].
  - rewrite consume_results_issue, consumes_of_issue.
    apply IH. by apply consumed_after_issue.
  - destruct (decide (id' = id)) as [->|Hne].
    + rewrite consume_results_same, consumes_of_same.
      rewrite (consume_consumed now id w Hw). simpl. f_equal. by apply IH.
    + rewrite consume_results_other, consumes_of_other by done.
      apply IH. by apply consumed_after_other.
Qed.

(** From an unused token on, the first consume returns true and all later
    ones false. *)
Lemma consume_results_unused sha hmac id calls :
  forall w, unused id w ->
  consume_results sha hmac id calls w
  = match consumes_of id calls with
    | O => []
    | S later => true :: replicate later false
    end.
Proof.
  induction calls as [|call rest IH]; intros w Hw; [reflexivity|].
  destruct call as [uuid now_ms claims ttl|now id'].
  - rewrite consume_results_issue, consumes_of_issue.
    apply IH. by apply unused_after_issue.
  - destruct (decide (id' = id)) as [->|Hne].
    + rewrite consume_results_same, consumes_of_same.
      pose proof (consume_makes_consumed now id w Hw) as Hdone.
      destruct Hw as (row & Hrow & Hused).
      rewrite (consume_unused now id w row Hrow Hused) in *.
      cbn [fst snd] in *. f_equal. by apply consume_results_consumed.
    + rewrite consume_results_other, consumes_of_other by done.
      apply IH. by apply unused_after_other.
Qed.

(** No call issues the [jti]. *)
Definition never_issues (id : string) (calls : list Call) : Prop :=
  Forall (fun c => match c with
                   | CallIssue uuid _ _ _ => uuid <> id
                   | CallConsume _ _ => True
                   end) calls.

Lemma consume_results_absent sha hmac id calls :
  never_issues id calls ->
  forall w, tool_tokens w !! id = None ->
  consume_results sha hmac id calls w = replicate (consumes_of id calls) false.
Proof.
  induction 1 as [|call rest Hcall _ IH]; intros w Hw; [reflexivity|].
  destruct call as [uuid now_ms claims ttl|now id'].
  - rewrite consume_results_issue, consumes_of_issue.
    apply IH. by apply issue_keeps_absent.
  - destruct (decide (id' = id)) as [->|Hne].
    + rewrite consume_results_same, consumes_of_same.
      rewrite (consume_absent now id w Hw). simpl. f_equal. by apply IH.
    + rewrite consume_results_other, consumes_of_other by done.
      apply IH. by rewrite consume_other_lookup.
Qed.

Lemma filter_replicate_false n : List.filter (fun b : bool => b) (replicate n false) = [].
Proof. induction n; simpl; auto. Qed.

(** C4: after a successful [issueToolToken] the row of the new [jti] has
    [used_at] null; the first [consumeToolToken(jti)] returns true and sets
    [used_at] to its timestamp; in every history of later calls (consumes of
    this and other tokens, further issues, at any times) the results of the
    consumes of this [jti] are one true followed by false only, so exactly
    one of them is true; and [consumeToolToken] is the single conditional
    update, its result being whether the statement changed a row. *)
Theorem consumeToolToken_exactly_once (sha : string -> string)
    (hmac : string -> string -> string -> string) (uuid : string) (now_ms : Z)
    (claims : ToolTokenClaims) (ttl : option Z) (w : World)
    (issued : IssuedToolToken) (w1 : World) :
  issueToolToken sha hmac uuid now_ms claims ttl w = (Return issued, w1) ->
  (exists row,
      tool_tokens w1 !! jti issued = Some row /\ row_used_at row = None
      /\ forall now,
           consumeToolToken now (jti issued) w1
           = (true, with_table w1 (<[jti issued := mark_used now row]> (tool_tokens w1)))
           /\ row_used_at (mark_used now row) = Some now
           /\ forall later,
                fst (consumeToolToken later (jti issued)
                       (snd (consumeToolToken now (jti issued) w1))) = false)
  /\ (forall calls,
        consume_results sha hmac (jti issued) calls w1
        = match consumes_of (jti issued) calls with
          | O => []
          | S later => true :: replicate later false
          end)
  /\ (forall calls,
        (0 < consumes_of (jti issued) calls)%nat ->
        length (List.filter (fun b : bool => b)
                  (consume_results sha hmac (jti issued) calls w1)) = 1%nat)
  /\ (forall now id w',
        consumeToolToken now id w'
        = (bool_decide (0 < snd (sql_update_used_at now id (tool_tokens w')))%nat,
           with_table w' (fst (sql_update_used_at now id (tool_tokens w'))))).
Proof.
  intros Hissue.
  destruct (issue_inserts_unused _ _ _ _ _ _ _ _ _ Hissue) as (Hjti & _ & Hunused).
  rewrite Hjti. split; [|split; [|split]].
  - destruct Hunused as (row & Hrow & Hused). exists row.
    split; [exact Hrow|]. split; [exact Hused|]. intros now.
    split; [by apply consume_unused|]. split; [reflexivity|]. intros later.
    rewrite consume_consumed; [reflexivity|].
    apply consume_makes_consumed. by exists row.
  - intros calls. by apply consume_results_unused.
  - intros calls Hsome. rewrite consume_results_unused by done.
    destruct (consumes_of uuid calls) as [|later]; [lia|].
    simpl. by rewrite filter_replicate_false.
  - reflexivity.
Qed.

(** Scenario S6 of the specification: three consumes of one issued token. *)
Lemma consumeToolToken_exactly_once_witness :
  consume_results toy_sha256Hex toy_hmac "jti-1"
    [CallConsume 1000500 "jti-1"; CallConsume 1000501 "jti-1"; CallConsume 1000900 "jti-1"]
    (snd test_issue)
  = [true; false; false].
Proof.
  destruct (consumeToolToken_exactly_once toy_sha256Hex toy_hmac "jti-1" 1000000
              test_claims None empty_world _ _ eq_refl) as (_ & Hcalls & _).
  exact (Hcalls [CallConsume 1000500 "jti-1"; CallConsume 1000501 "jti-1";
                 CallConsume 1000900 "jti-1"]).
Defined.

(** C10: for a [jti] that has no row, [consumeToolToken(jti)] returns false
    and leaves the store as it is; the result is the one it gives for a token
    already consumed; and as long as no call issues that [jti], every consume
    of it in any history of calls returns false.  The function returns a
    boolean on every input: it has no throwing path. *)
Theorem consumeToolToken_never_issued (now : Z) (id : string) (w : World) :
  tool_tokens w !! id = None ->
  consumeToolToken now id w = (false, w)
  /\ (forall w', consumed id w' ->
        fst (consumeToolToken now id w') = fst (consumeToolToken now id w))
  /\ (forall sha hmac calls, never_issues id calls ->
        consume_results sha hmac id calls w = replicate (consumes_of id calls) false).
Proof.
  intros Hnone. split; [by apply consume_absent|]. split.
  - intros w' Hw'. by rewrite consume_consumed, consume_absent.
  - intros sha hmac calls Hcalls. by apply consume_results_absent.
Qed.

Lemma consumeToolToken_never_issued_witness :
  consumeToolToken 1000500 "no-such-jti" (snd test_issue) = (false, snd test_issue).
Proof.
  apply (consumeToolToken_never_issued 1000500 "no-such-jti" (snd test_issue)).
  reflexivity.
Defined.

(** The module's test 'issues and consumes tokens': the token verifies and
    its payload names the tool. *)
Example test_issue_verify :
  exists payload,
    verifyToolToken toy_hmac 1001 test_token (snd test_issue) = Return payload
    /\ Js.get payload "tool" = Some (JString "filesystem.write").
Proof. eexists. split; reflexivity. Qed.

(** *** Verification *)

Lemma numeric_claim_number payload name n :
  Js.get payload name = Some (JNumber n) -> numeric_claim payload name = Return (Some n).
Proof. intros H. unfold numeric_claim. by rewrite H. Qed.

(** What [jwtVerify] has checked when it returns a payload. *)
Lemma jwtVerify_returns hmac now t secret algorithms payload :
  jwtVerify hmac now t secret algorithms = Some payload ->
  exists jwt,
    t = Compact jwt /\ payload = jwt_payload jwt
    /\ jwt_alg jwt ∈ algorithms
    /\ jwt_signature jwt
       = hmac (jwt_alg jwt) secret (jws_signing_input (jwt_alg jwt) (jwt_payload jwt))
    /\ (forall e, Js.get payload "exp" = Some (JNumber e) -> (now < e)%Z).
Proof.
  unfold jwtVerify. destruct t as [text|jwt]; [discriminate|].
  destruct (bool_decide (jwt_alg jwt ∈ algorithms)) eqn:Halg; simpl; [|discriminate].
  apply bool_decide_eq_true in Halg.
  destruct (String.eqb_spec (jwt_signature jwt)
              (hmac (jwt_alg jwt) secret
                 (jws_signing_input (jwt_alg jwt) (jwt_payload jwt)))) as [Hsig|];
    simpl; [|discriminate].
  destruct (numeric_claim (jwt_payload jwt) "iat") as [iat|]; [|discriminate].
  destruct (numeric_claim (jwt_payload jwt) "nbf") as [nbf|] eqn:Hnbf; [|discriminate].
  destruct (numeric_claim (jwt_payload jwt) "exp") as [exp|] eqn:Hexp; [|discriminate].
  destruct (match nbf with Some n => (now <? n)%Z | None => false end); [discriminate|].
  destruct (match exp with Some e => (e <=? now)%Z | None => false end) eqn:Hlive;
    [discriminate|].
  intros [= <-]. exists jwt. repeat split; try done.
  intros e He. rewrite (numeric_claim_number _ _ _ He) in Hexp.
  injection Hexp as <-. apply Z.leb_gt in Hlive. exact Hlive.
Qed.

Lemma jwtVerify_expired hmac now jwt secret algorithms e :
  Js.get (jwt_payload jwt) "exp" = Some (JNumber e) -> (e <= now)%Z ->
  jwtVerify hmac now (Compact jwt) secret algorithms = None.
Proof.
  intros He Hle. unfold jwtVerify.
  destruct (negb (bool_decide (jwt_alg jwt ∈ algorithms))); [reflexivity|].
  destruct (negb _); [reflexivity|].
  rewrite (numeric_claim_number _ _ _ He).
  destruct (numeric_claim (jwt_payload jwt) "iat") as [iat|]; [|reflexivity].
  destruct (numeric_claim (jwt_payload jwt) "nbf") as [nbf|]; [|reflexivity].
  destruct (match nbf with Some n => (now <? n)%Z | None => false end); [reflexivity|].
  apply Z.leb_le in Hle. by rewrite Hle.
Qed.

Lemma jwtVerify_accepts hmac now jwt secret algorithms e :
  jwt_alg jwt ∈ algorithms ->
  jwt_signature jwt
  = hmac (jwt_alg jwt) secret (jws_signing_input (jwt_alg jwt) (jwt_payload jwt)) ->
  Outcome.returned (numeric_claim (jwt_payload jwt) "iat") = true ->
  Js.get (jwt_payload jwt) "nbf" = None ->
  Js.get (jwt_payload jwt) "exp" = Some (JNumber e) -> (now < e)%Z ->
  jwtVerify hmac now (Compact jwt) secret algorithms = Some (jwt_payload jwt).
Proof.
  intros Halg Hsig Hiat Hnbf He Hlt. unfold jwtVerify.
  rewrite (bool_decide_eq_true_2 _ Halg). simpl.
  rewrite <- Hsig, String.eqb_refl. simpl.
  rewrite (numeric_claim_number _ _ _ He).
  destruct (numeric_claim (jwt_payload jwt) "iat") as [iat|]; [|discriminate].
  unfold numeric_claim. rewrite Hnbf.
  apply Z.leb_gt in Hlt. by rewrite Hlt.
Qed.

(** C5, as stated, fails: the token issued in the test verifies against a
    store that holds no row for its [jti]. *)
Lemma verifyToolToken_without_row :
  (exists jwt, test_token = Compact jwt
               /\ Js.get (jwt_payload jwt) "jti" = Some (JString "jti-1"))
  /\ tool_tokens empty_world !! "jti-1" = None
  /\ Outcome.returned (verifyToolToken toy_hmac 1001 test_token empty_world) = true.
Proof.
  split; [|split; reflexivity].
  eexists. split; reflexivity.
Qed.

(** C5, amended: with a secret configured, [verifyToolToken] performs the
    signature check and the expiry check of [jwtVerify] and never reads the
    token store.  Its result is the same for every content of the store; when
    it returns, it returns the whole payload of a token whose algorithm is
    the configured one, whose signature is the HMAC under the configured
    secret and whose [exp], if a number, is in the future; a token whose
    [exp] has passed fails with [invalid_token], consumed or not; and a
    token signed under the secret with the configured algorithm, with a
    well-typed [iat], without [nbf] and with [exp] in the future, verifies
    whether or not a row for its [jti] exists. *)
Theorem verifyToolToken_checks (hmac : string -> string -> string -> string)
    (now : Z) (t : Token) (w : World) :
  toolTokenSecret (config w) <> "" ->
  (forall table,
      verifyToolToken hmac now t (with_table w table) = verifyToolToken hmac now t w)
  /\ (forall payload,
        verifyToolToken hmac now t w = Return payload ->
        exists jwt,
          t = Compact jwt /\ payload = jwt_payload jwt
          /\ jwt_alg jwt = toolTokenAlgorithm (config w)
          /\ jwt_signature jwt
             = hmac (jwt_alg jwt) (toolTokenSecret (config w))
                 (jws_signing_input (jwt_alg jwt) (jwt_payload jwt))
          /\ (forall e, Js.get payload "exp" = Some (JNumber e) -> (now < e)%Z))
  /\ (forall jwt e,
        t = Compact jwt ->
        Js.get (jwt_payload jwt) "exp" = Some (JNumber e) -> (e <= now)%Z ->
        forall table,
          verifyToolToken hmac now t (with_table w table)
          = Throw (ToolTokenError invalid_token))
  /\ (forall jwt e,
        t = Compact jwt ->
        jwt_alg jwt = toolTokenAlgorithm (config w) ->
        jwt_signature jwt
        = hmac (jwt_alg jwt) (toolTokenSecret (config w))
            (jws_signing_input (jwt_alg jwt) (jwt_payload jwt)) ->
        Outcome.returned (numeric_claim (jwt_payload jwt) "iat") = true ->
        Js.get (jwt_payload jwt) "nbf" = None ->
        Js.get (jwt_payload jwt) "exp" = Some (JNumber e) -> (now < e)%Z ->
        forall table,
          verifyToolToken hmac now t (with_table w table) = Return (jwt_payload jwt)).
Proof.
  intros Hsecret. apply String.eqb_neq in Hsecret.
  split; [reflexivity|]. split; [|split].
  - intros payload. unfold verifyToolToken. rewrite Hsecret.
    destruct (jwtVerify _ _ _ _ _) as [p|] eqn:Hverify; [|discriminate].
    intros [= <-].
    destruct (jwtVerify_returns _ _ _ _ _ _ Hverify)
      as (jwt & -> & -> & Halg & Hsig & Hexp).
    exists jwt. repeat split; try done.
    by apply list_elem_of_singleton in Halg.
  - intros jwt e -> He Hle table. unfold verifyToolToken.
    cbn [config with_table]. rewrite Hsecret.
    by rewrite (jwtVerify_expired _ _ _ _ _ e He Hle).
  - intros jwt e -> Halg Hsig Hiat Hnbf He Hlt table. unfold verifyToolToken.
    cbn [config with_table]. rewrite Hsecret.
    rewrite (jwtVerify_accepts _ _ _ _ _ e); try done.
    apply list_elem_of_singleton. exact Halg.
Qed.

(** The issued test token is rejected once its thirty seconds have passed,
    though nothing has consumed it. *)
Lemma verifyToolToken_checks_witness :
  verifyToolToken toy_hmac 1030 test_token (snd test_issue)
  = Throw (ToolTokenError invalid_token).
Proof.
  destruct (verifyToolToken_checks toy_hmac 1030 test_token empty_world)
    as (_ & _ & Hexpired & _); [discriminate|].
  refine (Hexpired _ 1030%Z eq_refl eq_refl _ (tool_tokens (snd test_issue))).
  lia.
Defined.

End ToolTokensFacts.

(** ** Signed telemetry envelopes *)
Module SignedEnvelopeFacts.
Import StableJson SignedEnvelope.

(** A stand-in runtime for closed examples: the digest of a text is the text,
    base64 text decodes to itself, every timestamp parses to the instant 0,
    every JWK imports, and the signature of a text is a run of [A]s four
    times as long as the text. *)
Definition toy_sha256Hex (input : string) : string := input.
Definition toy_decode (text : string) : string := text.
Definition toy_getTime (text : string) : option Z := Some 0%Z.
Definition toy_createPublicKey (jwk : unit) : option unit := Some tt.
Definition toy_sign (data : string) : string :=
  repeat_char "A"%char (4 * String.length data).
Definition toy_cryptoVerify (digest : option string) (data : string) (key : unit)
    (signature : string) : option bool :=
  Some (String.eqb signature (toy_sign data)).

Definition toy_verify (now : Z) (envelope : SignedTelemetryEnvelope)
    (key : option (TelemetryKey unit)) (maxSkewSeconds : Z) : Outcome.t Error unit :=
  verifySignedEnvelope toy_sha256Hex toy_decode toy_decode toy_getTime
    toy_createPublicKey toy_cryptoVerify now envelope key maxSkewSeconds.

Definition toy_key : TelemetryKey unit :=
  {| alg := "ed25519"; publicJwk := tt; keyId := None; revokedAt := None |}.

(** The envelope of the module's test, [{ hello: 'world' }], before it is
    signed, and signed. *)
Definition unsigned_envelope : SignedTelemetryEnvelope :=
  {| envelope_version := "v1"; adapter_id := "adapter-1"; adapter_version := "0.4.1";
     issued_at := "1970-01-01T00:00:00.000Z"; execution_id := "exec-1";
     trace_id := "trace-1"; payload_type := trace;
     payload := JObject [("hello", JString "world")];
     payload_hash :=
       Sha256.formatSha256
         (Sha256.sha256Json toy_sha256Hex (JObject [("hello", JString "world")]));
     signature := "" |}.

Definition good_envelope : SignedTelemetryEnvelope :=
  with_signature unsigned_envelope (toy_sign (buildSigningInput unsigned_envelope)).

Lemma formatSha256_inj h1 h2 :
  Sha256.formatSha256 h1 = Sha256.formatSha256 h2 -> h1 = h2.
Proof. unfold Sha256.formatSha256. apply (inj (String.app "sha256:")). Qed.

Section WithRuntime.
Variable sha256Hex : string -> string.
Context {Jwk KeyObject Buffer : Type}.
Variable Buffer_from_base64 : string -> Buffer.
Variable Buffer_from_utf8 : string -> Buffer.
Variable Date_getTime : string -> option Z.
Variable createPublicKey : Jwk -> option KeyObject.
Variable cryptoVerify : option string -> Buffer -> KeyObject -> Buffer -> option bool.

Abbreviation verify :=
  (verifySignedEnvelope sha256Hex Buffer_from_base64 Buffer_from_utf8 Date_getTime
     createPublicKey cryptoVerify).

(** The hash check comes before the timestamp and the signature. *)
Lemma hash_mismatch_first now e (key : TelemetryKey Jwk) maxSkew :
  PolicyEngine.truthy (revokedAt key) = false ->
  payload_hash e <> Sha256.formatSha256 (Sha256.sha256Json sha256Hex (payload e)) ->
  verify now e (Some key) maxSkew = Throw (SignedEnvelopeError payload_hash_mismatch).
Proof.
  intros Hlive Hhash. unfold verifySignedEnvelope. rewrite Hlive.
  destruct (String.eqb_spec
              (Sha256.formatSha256 (Sha256.sha256Json sha256Hex (payload e)))
              (payload_hash e)) as [Heq|Hne]; [|reflexivity].
  congruence.
Qed.

(** The digest name the function passes to [crypto.verify]. *)
Definition digest_for (algorithm : string) : option string :=
  if String.eqb algorithm "ed25519" then None else Some "sha256".

Lemma bad_signature_rejected now e (key : TelemetryKey Jwk) maxSkew issuedAt publicKey :
  PolicyEngine.truthy (revokedAt key) = false ->
  payload_hash e = Sha256.formatSha256 (Sha256.sha256Json sha256Hex (payload e)) ->
  Date_getTime (issued_at e) = Some issuedAt ->
  (Z.abs (now - issuedAt) <= maxSkew * 1000)%Z ->
  alg key = "ed25519" \/ alg key = "ES256" ->
  createPublicKey (publicJwk key) = Some publicKey ->
  cryptoVerify (digest_for (alg key)) (Buffer_from_utf8 (buildSigningInput e)) publicKey
    (parseSignature Buffer_from_base64 (signature e)) = Some false ->
  verify now e (Some key) maxSkew = Throw (SignedEnvelopeError invalid_signature).
Proof.
  intros Hlive Hhash Htime Hskew Halg Hkey Hbad.
  unfold verifySignedEnvelope. rewrite Hlive, <- Hhash, String.eqb_refl, Htime.
  cbn [negb]. apply Z.ltb_ge in Hskew. rewrite Hskew.
  unfold check_signature, digest_for in *.
  destruct Halg as [Halg|Halg]; rewrite Halg in *; simpl in *;
    rewrite Hkey, Hbad; reflexivity.
Qed.

(** A base64url signature and its base64 spelling decode to the same bytes:
    exchanging [-] for [+] or [_] for [/] in the signature text changes
    nothing the function looks at. *)
Lemma parseSignature_alias s :
  parseSignature Buffer_from_base64
    (replace_all (replace_all s "-"%char "+"%char) "_"%char "/"%char)
  = parseSignature Buffer_from_base64 s.
Proof.
  assert (Hnone : forall t c d, c <> d -> includes (replace_all t c d) c = false).
  { intros t c d Hcd. induction t as [|x t IH]; simpl; [reflexivity|].
    rewrite IH, orb_false_r. destruct (Ascii.eqb_spec x c) as [->|Hx].
    - by apply Ascii.eqb_neq.
    - by apply Ascii.eqb_neq. }
  assert (Hkeep : forall t c d a, a <> d -> includes t a = false ->
                                  includes (replace_all t c d) a = false).
  { intros t c d a Had. induction t as [|x t IH]; simpl; [reflexivity|].
    intros [Hx Ht]%orb_false_iff. rewrite (IH Ht), orb_false_r.
    destruct (Ascii.eqb x c); [|exact Hx].
    apply Ascii.eqb_neq. congruence. }
  assert (Hid : forall t c d, includes t c = false -> replace_all t c d = t).
  { intros t c d. induction t as [|x t IH]; simpl; [reflexivity|].
    intros [Hx Ht]%orb_false_iff. by rewrite Hx, (IH Ht). }
  set (n := replace_all (replace_all s "-"%char "+"%char) "_"%char "/"%char).
  assert (Hdash : includes n "-"%char = false).
  { apply Hkeep; [discriminate|]. apply Hnone. discriminate. }
  assert (Hunder : includes n "_"%char = false).
  { apply Hnone. discriminate. }
  unfold parseSignature at 1. rewrite Hdash, Hunder. cbn [orb].
  unfold parseSignature.
  destruct (includes s "-"%char || includes s "_"%char) eqn:Hurl; [reflexivity|].
  apply orb_false_iff in Hurl as [Hd Hu].
  subst n. by rewrite (Hid s _ _ Hd), (Hid s _ _ Hu).
Qed.

End WithRuntime.

(** The module's test 'rejects when issued_at is outside skew': ten minutes
    against sixty seconds. *)
Example test_rejects_outside_skew :
  toy_verify 600000 good_envelope (Some toy_key) 60
  = Throw (SignedEnvelopeError timestamp_skew).
Proof. vm_compute. reflexivity. Qed.

Example missing_and_revoked_key :
  toy_verify 0 good_envelope None 300 = Throw (SignedEnvelopeError missing_key)
  /\ toy_verify 0 good_envelope
       (Some {| alg := "ed25519"; publicJwk := tt; keyId := None;
                revokedAt := Some "2026-01-01T00:00:00.000Z" |}) 300
     = Throw (SignedEnvelopeError missing_key).
Proof. split; reflexivity. Qed.

End SignedEnvelopeFacts.

(** ** Trace integrity *)
Module TraceIntegrityFacts.
Import StableJson TraceIntegrity.

Definition toy_sha256Hex (input : string) : string := input.

(** The single step of the module's test 'detects hash mismatches'. *)
Definition forged_step : TraceStep :=
  {| step_type := "tool_call"; timestamp := "2026-01-01T00:00:00.000Z";
     durationMs := 1; data := JObject [("toolCallId", JString "1")];
     step_id := Some "step-1"; prev_step_hash := Null;
     step_hash := Some "sha256:deadbeef" |}.

Definition forged_trace : AgentTrace :=
  {| trace_id := "trace-1"; steps := Some [forged_step] |}.

(** The two steps of the module's test 'verifies a valid hash chain', each
    hashed the way the test's [hashStep] does it. *)
Definition with_hash (step : TraceStep) : TraceStep :=
  {| step_type := step_type step; timestamp := timestamp step;
     durationMs := durationMs step; data := data step; step_id := step_id step;
     prev_step_hash := prev_step_hash step;
     step_hash := Some (computeStepHash toy_sha256Hex step) |}.

Definition step1 : TraceStep :=
  with_hash
    {| step_type := "tool_call"; timestamp := "2026-01-01T00:00:00.000Z";
       durationMs := 1;
       data := JObject [("toolCallId", JString "1"); ("toolName", JString "fs.read");
                        ("arguments", JObject []); ("permitted", JBool true)];
       step_id := Some "step-1"; prev_step_hash := Null; step_hash := None |}.

Definition step2 : TraceStep :=
  with_hash
    {| step_type := "tool_result"; timestamp := "2026-01-01T00:00:00.001Z";
       durationMs := 1;
       data := JObject [("toolCallId", JString "1"); ("toolName", JString "fs.read");
                        ("success", JBool true); ("result", JObject [])];
       step_id := Some "step-2";
       prev_step_hash := string_or_null (step_hash step1); step_hash := None |}.

Example test_verifies_valid_chain :
  verifyTraceIntegrity toy_sha256Hex {| trace_id := "trace-1"; steps := Some [step1; step2] |}
  = {| status := verified; failures := [] |}.
Proof. vm_compute. reflexivity. Qed.

Example test_detects_hash_mismatch :
  verifyTraceIntegrity toy_sha256Hex forged_trace
  = {| status := compromised; failures := ["step_0_hash_mismatch"] |}.
Proof. vm_compute. reflexivity. Qed.

(** A first step whose [prev_step_hash] is absent rather than null, and a
    trace in which only the second step is signed. *)
Example first_step_without_prev :
  status
    (verifyTraceIntegrity toy_sha256Hex
       {| trace_id := "trace-1";
          steps := Some [with_hash
            {| step_type := "llm_call"; timestamp := "t"; durationMs := 0;
               data := JNull; step_id := None; prev_step_hash := Undefined;
               step_hash := None |}] |})
  = compromised.
Proof. vm_compute. reflexivity. Qed.

Example empty_and_unsigned :
  status (verifyTraceIntegrity toy_sha256Hex {| trace_id := "t"; steps := None |})
  = unverified
  /\ status (verifyTraceIntegrity toy_sha256Hex {| trace_id := "t"; steps := Some [] |})
     = unverified
  /\ status
       (verifyTraceIntegrity toy_sha256Hex
          {| trace_id := "t";
             steps := Some [{| step_type := "llm_call"; timestamp := "t";
                               durationMs := 0; data := JNull; step_id := None;
                               prev_step_hash := Undefined; step_hash := None |}] |})
     = unsigned.
Proof. repeat split. Qed.

Section WithDigest.
Variable sha256Hex : string -> string.

Abbreviation loop := (verify_loop sha256Hex).
Abbreviation computed := (computeStepHash sha256Hex).

(** [expected_prev], with the value asked at index 0 left open: the loop
    entered at a later index asks for the hash it carries in [prevHash]. *)
Definition expected_from (first : Nullable) (steps : list TraceStep) (i : nat)
    : Nullable :=
  match i with
  | O => first
  | S _ => expected_prev steps i
  end.

Definition step_ok (first : Nullable) (steps : list TraceStep) (i : nat)
    (step : TraceStep) : Prop :=
  has_hash step = true
  /\ step_hash step = Some (computed step)
  /\ prev_step_hash step = expected_from first steps i.

Lemma verify_loop_app steps :
  forall i prevHash fs, loop i prevHash fs steps = fs ++ loop i prevHash [] steps.
Proof.
  induction steps as [|step rest IH]; intros i prevHash fs; simpl.
  - by rewrite app_nil_r.
  - destruct (has_hash step); simpl.
    + rewrite IH. rewrite (IH _ _ (if negb _ then _ else _)).
      rewrite app_assoc. f_equal.
      destruct (negb (bool_decide (prev_step_hash step = _)));
        destruct (negb (bool_decide (Some _ = step_hash step))); simpl;
        by rewrite <- ?app_assoc, ?app_nil_r.
    + rewrite IH. rewrite (IH _ _ [_]). by rewrite app_assoc.
Qed.

Lemma verify_loop_clean steps :
  forall i prevHash,
    loop i prevHash [] steps = []
    <-> forall j step, steps !! j = Some step ->
          step_ok (string_or_null (if Nat.eqb i 0 then None else prevHash)) steps j step.
Proof.
  induction steps as [|step rest IH]; intros i prevHash.
  - split; [|reflexivity]. intros _ j step Hj. by destruct j.
  - cbn [verify_loop]. destruct (has_hash step) eqn:Hhash; cbn [negb].
    2:{ split.
        - rewrite verify_loop_app. intros Hnil.
          apply app_eq_nil in Hnil as [Hnil _]. discriminate.
        - intros Hall. destruct (Hall 0 step eq_refl) as (Habs & _). congruence. }
    destruct (decide (prev_step_hash step
                      = string_or_null (if Nat.eqb i 0 then None else prevHash)))
      as [Hprev|Hprev].
    2:{ rewrite (bool_decide_eq_false_2 _ Hprev). cbn [negb]. split.
        - rewrite verify_loop_app. intros Hnil.
          apply app_eq_nil in Hnil as [Hnil _].
          destruct (negb _); discriminate.
        - intros Hall. destruct (Hall 0 step eq_refl) as (_ & _ & Habs).
          contradiction. }
    rewrite (bool_decide_eq_true_2 _ Hprev). cbn [negb].
    destruct (decide (Some (computed step) = step_hash step)) as [Hsum|Hsum].
    2:{ rewrite (bool_decide_eq_false_2 _ Hsum). cbn [negb app]. split.
        - rewrite verify_loop_app. intros Hnil.
          apply app_eq_nil in Hnil as [Hnil _]. discriminate.
        - intros Hall. destruct (Hall 0 step eq_refl) as (_ & Habs & _).
          congruence. }
    rewrite (bool_decide_eq_true_2 _ Hsum). cbn [negb].
    rewrite IH. cbn [Nat.eqb]. split.
    + intros Hrest [|j] step' Hj.
      * injection Hj as <-. by repeat split.
      * destruct (Hrest j step' Hj) as (H1 & H2 & H3). repeat split; try done.
        rewrite H3. destruct j as [|j]; cbn [expected_from expected_prev].
        -- cbn [lookup list_lookup]. by rewrite Hhash.
        -- reflexivity.
    + intros Hall j step' Hj.
      destruct (Hall (S j) step' Hj) as (H1 & H2 & H3). repeat split; try done.
      rewrite H3. destruct j as [|j]; cbn [expected_from expected_prev].
      * cbn [lookup list_lookup]. by rewrite Hhash.
      * reflexivity.
Qed.

Lemma loop_clean_iff_reconciles steps :
  loop 0 None [] steps = [] <-> chain_reconciles sha256Hex steps.
Proof.
  rewrite verify_loop_clean. cbn [Nat.eqb string_or_null].
  unfold chain_reconciles, step_ok, step_reconciles.
  split; intros H i step Hi; destruct (H i step Hi) as (H1 & H2 & H3);
    repeat split; try done; by destruct i.
Qed.

Lemma step_broken_iff steps i step :
  step_broken sha256Hex steps i step <-> ~ step_reconciles sha256Hex steps i step.
Proof.
  unfold step_broken, step_reconciles. split.
  - intros [H|[H|H]] (H1 & H2 & H3); congruence.
  - intros Hnot. destruct (has_hash step) eqn:Hhash; [|by left]. right.
    destruct (decide (step_hash step = Some (computed step))) as [Hsum|Hsum];
      [|by left]. right.
    intros Hprev. apply Hnot. by repeat split.
Qed.

(** Some step is broken exactly when the chain does not reconcile. *)
Lemma broken_iff_not_reconciles steps :
  (exists i step, steps !! i = Some step /\ step_broken sha256Hex steps i step)
  <-> ~ chain_reconciles sha256Hex steps.
Proof.
  split.
  - intros (i & step & Hi & Hbroken) Hall.
    apply step_broken_iff in Hbroken. apply Hbroken. by apply Hall.
  - intros Hnot.
    assert (Hdec : forall n, (exists i step, i < n /\ steps !! i = Some step
                                 /\ step_broken sha256Hex steps i step)
                             \/ (forall i step, i < n -> steps !! i = Some step ->
                                   step_reconciles sha256Hex steps i step)).
    { induction n as [|n [Hfound|Hnone]].
      - right. intros i step Hlt. lia.
      - left. destruct Hfound as (i & step & Hlt & Hrest). exists i, step.
        split; [lia|exact Hrest].
      - destruct (steps !! n) as [step|] eqn:Hn.
        + destruct (has_hash step) eqn:Hhash.
          * destruct (decide (step_hash step = Some (computed step))) as [Hsum|Hsum].
            -- destruct (decide (prev_step_hash step = expected_prev steps n))
                 as [Hprev|Hprev].
               ++ right. intros i step' Hlt Hi.
                  destruct (decide (i = n)) as [->|Hne].
                  ** rewrite Hn in Hi. injection Hi as <-. by repeat split.
                  ** apply Hnone; [lia|exact Hi].
               ++ left. exists n, step. split; [lia|]. split; [exact Hn|].
                  right. by right.
            -- left. exists n, step. split; [lia|]. split; [exact Hn|].
               right. by left.
          * left. exists n, step. split; [lia|]. split; [exact Hn|]. by left.
        + right. intros i step' Hlt Hi. destruct (decide (i = n)) as [->|Hne].
          * congruence.
          * apply Hnone; [lia|exact Hi]. }
    destruct (Hdec (length steps)) as [(i & step & _ & Hfound)|Hall].
    + by exists i, step.
    + exfalso. apply Hnot. intros i step Hi.
      apply Hall; [|exact Hi]. by apply lookup_lt_Some in Hi.
Qed.

End WithDigest.

Lemma existsb_has_hash_false (all : list TraceStep) :
  existsb has_hash all = false <-> Forall (fun s => has_hash s = false) all.
Proof.
  induction all as [|s rest IH]; simpl.
  - split; [constructor|reflexivity].
  - rewrite orb_false_iff, IH. split.
    + intros [H1 H2]. by constructor.
    + intros H. by inversion H.
Qed.

Lemma existsb_has_hash_true (all : list TraceStep) :
  existsb has_hash all = true <-> Exists (fun s => has_hash s = true) all.
Proof.
  induction all as [|s rest IH]; simpl.
  - split; [discriminate|]. intros H. inversion H.
  - rewrite orb_true_iff, IH. split.
    + intros [H|H]; [by left|by right].
    + intros H. inversion H; [by left|by right].
Qed.

(** The verdict in terms of the loop's own tests. *)
Lemma verdict_of_loop (sha256Hex : string -> string) (trace : AgentTrace) :
  let all := default [] (steps trace) in
  let verdict := status (verifyTraceIntegrity sha256Hex trace) in
  (verdict = unverified <-> all = [])
  /\ (verdict = unsigned
      <-> all <> [] /\ Forall (fun s => has_hash s = false) all)
  /\ (verdict = compromised
      <-> all <> [] /\ Exists (fun s => has_hash s = true) all
          /\ exists i step, all !! i = Some step /\ step_broken sha256Hex all i step)
  /\ (verdict = verified
      <-> all <> [] /\ (forall s, s ∈ all -> has_hash s = true)
          /\ chain_reconciles sha256Hex all).
Proof.
  intros all verdict. subst verdict. unfold verifyTraceIntegrity. fold all.
  destruct (decide (all = [])) as [Hnil|Hne].
  { rewrite Hnil. cbn. split_and!.
    - done.
    - split; [discriminate|]. by intros [? _].
    - split; [discriminate|]. by intros [? _].
    - split; [discriminate|]. by intros [? _]. }
  replace (Nat.eqb (length all) 0) with false by (by destruct all).
  destruct (existsb has_hash all) eqn:Hany; cbn [negb].
  - pose proof (proj1 (existsb_has_hash_true all) Hany) as Hsome.
    assert (Hnotall : ~ Forall (fun s => has_hash s = false) all).
    { intros Hnone%existsb_has_hash_false. congruence. }
    destruct (verify_loop sha256Hex 0 None [] all) as [|f fs] eqn:Hloop.
    + apply loop_clean_iff_reconciles in Hloop. cbn. split_and!.
      * split; [discriminate|done].
      * split; [discriminate|]. by intros [_ ?].
      * split; [discriminate|]. intros (_ & _ & Hbroken).
        by apply broken_iff_not_reconciles in Hbroken.
      * split; [|done]. intros _. split_and!; [done| |done].
        intros s (i & Hi)%list_elem_of_lookup. by destruct (Hloop i s Hi).
    + assert (Hbad : ~ chain_reconciles sha256Hex all).
      { intros Hok%loop_clean_iff_reconciles. congruence. }
      cbn. split_and!.
      * split; [discriminate|done].
      * split; [discriminate|]. by intros [_ ?].
      * split; [|done]. intros _. split_and!; [done|done|].
        by apply broken_iff_not_reconciles.
      * split; [discriminate|]. by intros (_ & _ & ?).
  - pose proof (proj1 (existsb_has_hash_false all) Hany) as Hnone.
    cbn. split_and!.
    + split; [discriminate|done].
    + split; [|done]. intros _. by split.
    + split; [discriminate|]. intros (_ & Hsome%existsb_has_hash_true & _).
      congruence.
    + split; [discriminate|]. intros (_ & Hevery & _).
      destruct all as [|first rest]; [done|].
      inversion Hnone as [|? ? Hfirst _]; subst.
      rewrite Hevery in Hfirst; [discriminate|]. by left.
Qed.

(** *** The verdict, on the fields of the steps *)

(** The step carries a [step_hash]: the field is present and not the empty
    string. *)
Definition carries_hash (step : TraceStep) : Prop :=
  exists hash, step_hash step = Some hash /\ hash <> "".

(** The [step_hash] of the step is the hash recomputed from the step. *)
Definition hash_matches (sha256Hex : string -> string) (step : TraceStep) : Prop :=
  step_hash step = Some (computeStepHash sha256Hex step).

(** The [prev_step_hash] of the step at index [i] links to the step before
    it: it is null at index 0, and the [step_hash] of the step at index
    [i - 1] after that. *)
Definition links (all : list TraceStep) (i : nat) (step : TraceStep) : Prop :=
  match i with
  | O => prev_step_hash step = Null
  | S j =>
      exists before hash,
        all !! j = Some before
        /\ step_hash before = Some hash
        /\ prev_step_hash step = Text hash
  end.

Lemma has_hash_carries (step : TraceStep) : has_hash step = true <-> carries_hash step.
Proof.
  unfold has_hash, carries_hash, PolicyEngine.truthy.
  destruct (step_hash step) as [hash|].
  - destruct (String.eqb_spec hash "") as [->|Hne]; cbn [negb]; split.
    + discriminate.
    + by intros (hash & [= <-] & Hne).
    + intros _. by exists hash.
    + done.
  - split; [discriminate|]. by intros (hash & Hsome & _).
Qed.

Lemma hash_matches_carries (sha256Hex : string -> string) (step : TraceStep) :
  hash_matches sha256Hex step -> carries_hash step.
Proof.
  unfold hash_matches. intros Hsum. exists (computeStepHash sha256Hex step).
  split; [done|]. unfold computeStepHash, Sha256.formatSha256. discriminate.
Qed.

Lemma reconciles_on_fields (sha256Hex : string -> string) (all : list TraceStep) :
  chain_reconciles sha256Hex all
  <-> forall i step, all !! i = Some step -> hash_matches sha256Hex step /\ links all i step.
Proof.
  unfold chain_reconciles, step_reconciles. split.
  - intros Hall i step Hi. destruct (Hall i step Hi) as (_ & Hsum & Hprev).
    split; [done|]. destruct i as [|j]; [done|].
    cbn [expected_prev links] in *.
    destruct (lookup_lt_is_Some_2 all j) as [before Hj].
    { apply lookup_lt_Some in Hi. lia. }
    rewrite Hj in Hprev. destruct (Hall j before Hj) as (Hhash & Hbefore & _).
    rewrite Hhash, Hbefore in Hprev. by exists before, (computeStepHash sha256Hex before).
  - intros Hall i step Hi. destruct (Hall i step Hi) as (Hsum & Hlink).
    split_and!; [|done|].
    + by eapply has_hash_carries, hash_matches_carries.
    + destruct i as [|j]; [done|]. cbn [expected_prev links] in *.
      destruct Hlink as (before & hash & Hj & Hbefore & ->).
      rewrite Hj. destruct (Hall j before Hj) as (Hsound%hash_matches_carries & _).
      apply has_hash_carries in Hsound. by rewrite Hsound, Hbefore.
Qed.

(** C7: [verifyTraceIntegrity] maps every trace to one of four verdicts,
    told apart by the fields of its steps.  It is [unverified] exactly when
    the trace has no steps; [unsigned] exactly when it has steps and none
    carries a [step_hash]; [verified] exactly when it has steps and, for
    every step, the [step_hash] is the hash recomputed from the step and the
    [prev_step_hash] links to the step before it (null at index 0); and
    [compromised] exactly when some step carries a [step_hash] and, for some
    step, the recomputed hash differs from its [step_hash] (or it has none)
    or its [prev_step_hash] does not link. *)
Theorem verifyTraceIntegrity_verdict (sha256Hex : string -> string) (trace : AgentTrace) :
  let all := default [] (steps trace) in
  let verdict := status (verifyTraceIntegrity sha256Hex trace) in
  (verdict = unverified <-> all = [])
  /\ (verdict = unsigned
      <-> all <> [] /\ forall step, step ∈ all -> ~ carries_hash step)
  /\ (verdict = verified
      <-> all <> []
          /\ forall i step,
               all !! i = Some step ->
               step_hash step = Some (computeStepHash sha256Hex step)
               /\ links all i step)
  /\ (verdict = compromised
      <-> (exists step, step ∈ all /\ carries_hash step)
          /\ exists i step,
               all !! i = Some step
               /\ (step_hash step <> Some (computeStepHash sha256Hex step)
                   \/ ~ links all i step)).
Proof.
  intros all verdict.
  destruct (verdict_of_loop sha256Hex trace)
    as (Hunverified & Hunsigned & Hcompromised & Hverified).
  fold all verdict in Hunverified, Hunsigned, Hcompromised, Hverified.
  assert (Hsome : Exists (fun s => has_hash s = true) all
                  <-> exists step, step ∈ all /\ carries_hash step).
  { rewrite Exists_exists. split; intros (step & Hin & Hhash); exists step;
      (split; [done|]); by apply has_hash_carries. }
  assert (Hsound : chain_reconciles sha256Hex all
                   <-> forall i step, all !! i = Some step ->
                         step_hash step = Some (computeStepHash sha256Hex step)
                         /\ links all i step)
    by apply reconciles_on_fields.
  split_and!.
  - exact Hunverified.
  - rewrite Hunsigned, Forall_forall. split; intros [Hne Hnone]; (split; [done|]).
    + intros step Hin Hcarries%has_hash_carries. specialize (Hnone step Hin). congruence.
    + intros step Hin. apply not_true_is_false. intros Hhash%has_hash_carries.
      by apply (Hnone step Hin).
  - rewrite Hverified, Hsound. split.
    + by intros (Hne & _ & Hall).
    + intros [Hne Hall]. split_and!; [done| |done].
      intros step (i & Hi)%list_elem_of_lookup.
      destruct (Hall i step Hi) as [Hsum _].
      by eapply has_hash_carries, hash_matches_carries.
  - rewrite Hcompromised, Hsome. split.
    + intros (_ & Hcarried & i & step & Hi & Hbroken). split; [done|].
      destruct (decide (step_hash step = Some (computeStepHash sha256Hex step)))
        as [Hsum|Hsum]; [|by exists i, step; split; [|left]].
      destruct Hbroken as [Hnone|[Hne|Hprev]].
      * apply hash_matches_carries, has_hash_carries in Hsum. congruence.
      * done.
      * destruct i as [|j]; [by exists 0, step; split; [|right]|].
        cbn [expected_prev] in Hprev.
        destruct (all !! j) as [before|] eqn:Hj.
        2:{ exists (S j), step. split; [done|]. right. cbn [links].
            intros (before & hash & Hbefore & _). congruence. }
        destruct (has_hash before) eqn:Hbefore.
        -- exists (S j), step. split; [done|]. right. cbn [links].
           intros (before' & hash & Hj' & Hhash & Hlink).
           rewrite Hj in Hj'. injection Hj' as <-.
           rewrite Hhash in Hprev. by cbn in Hprev.
        -- exists j, before. split; [done|]. left.
           intros Hsum'%hash_matches_carries%has_hash_carries. congruence.
    + intros ((carrier & Hin & Hcarries) & i & step & Hi & Hbad). split_and!.
      * intros Hnil. rewrite Hnil in Hin. by apply elem_of_nil in Hin.
      * by exists carrier.
      * apply broken_iff_not_reconciles. rewrite Hsound.
        intros Hall. destruct (Hall i step Hi) as [Hsum Hlink].
        by destruct Hbad.
Qed.

(** The two traces of the module's tests: the valid chain is verified, and
    the step whose [step_hash] is not the recomputed one makes its trace
    compromised. *)
Lemma verifyTraceIntegrity_verdict_witness :
  status
    (verifyTraceIntegrity toy_sha256Hex
       {| trace_id := "trace-1"; steps := Some [step1; step2] |})
  = verified
  /\ status (verifyTraceIntegrity toy_sha256Hex forged_trace) = compromised.
Proof.
  split.
  - apply (verifyTraceIntegrity_verdict toy_sha256Hex
             {| trace_id := "trace-1"; steps := Some [step1; step2] |}).
    split; [discriminate|].
    intros [|[|i]] step Hi; cbn in Hi; [| |done].
    + injection Hi as <-. split; reflexivity.
    + injection Hi as <-. split; [reflexivity|].
      exists step1, (computeStepHash toy_sha256Hex step1). by split_and!.
  - apply (verifyTraceIntegrity_verdict toy_sha256Hex forged_trace).
    split.
    + exists forged_step. split; [by left|]. exists "sha256:deadbeef". by split.
    + exists 0, forged_step. split; [reflexivity|]. left. vm_compute. discriminate.
Defined.

End TraceIntegrityFacts.

(** ** Tenant permission predicates *)
Module TenantContextFacts.
Import StableJson TenantContext.

Definition context_with (p : TenantPermissions) : TenantContext :=
  {| tenantId := "t1"; workspaceId := "w1"; userId := "u1"; agentRole := None;
     permissions := p; raw := [] |}.

(** A tenant whose allowed tools are [tickets:*]. *)
Definition tickets_tenant : TenantContext :=
  context_with {| tools := ["tickets:*"]; maxTokens := None; budgetRemaining := None;
                  allowedModels := None; allowedSkills := None |}.

(** A tenant whose token carried no [allowed_tools]: [tools] is []. *)
Definition unrestricted_tenant : TenantContext :=
  context_with {| tools := []; maxTokens := None; budgetRemaining := None;
                  allowedModels := None; allowedSkills := None |}.

(** A tenant whose allowed models are [*]. *)
Definition any_model_tenant : TenantContext :=
  context_with {| tools := ["*"]; maxTokens := None; budgetRemaining := None;
                  allowedModels := Some ["*"]; allowedSkills := None |}.

(** The module's tests of the five helpers. *)
Example test_canUseTool :
  let context :=
    context_with {| tools := ["read_ticket"; "create_ticket"]; maxTokens := None;
                    budgetRemaining := None; allowedModels := None;
                    allowedSkills := None |} in
  canUseTool context "read_ticket" = true
  /\ canUseTool context "delete_ticket" = false
  /\ canUseTool any_model_tenant "any_tool" = true.
Proof. repeat split. Qed.

Example test_canUseModel :
  let restricted :=
    context_with {| tools := []; maxTokens := None; budgetRemaining := None;
                    allowedModels := Some ["gpt-4o"; "gpt-4o-mini"];
                    allowedSkills := None |} in
  let provider :=
    context_with {| tools := []; maxTokens := None; budgetRemaining := None;
                    allowedModels := Some ["openai/*"]; allowedSkills := None |} in
  canUseModel unrestricted_tenant "gpt-4o" = true
  /\ canUseModel restricted "gpt-4o" = true
  /\ canUseModel restricted "gpt-3.5" = false
  /\ canUseModel provider "openai/gpt-4o" = true.
Proof. repeat split. Qed.

Example test_hasBudget_withinTokenLimit :
  let context :=
    context_with {| tools := []; maxTokens := Some 4000%Q;
                    budgetRemaining := Some 50%Q; allowedModels := None;
                    allowedSkills := None |} in
  hasBudget unrestricted_tenant (Some 100%Q) = true
  /\ hasBudget context (Some 25%Q) = true
  /\ hasBudget context (Some 100%Q) = false
  /\ withinTokenLimit unrestricted_tenant 100000%Q = true
  /\ withinTokenLimit context 2000%Q = true
  /\ withinTokenLimit context 5000%Q = false.
Proof. repeat split. Qed.

Lemma includes_elem_of (l : list string) (x : string) : includes l x = true <-> x ∈ l.
Proof.
  unfold includes. induction l as [|y l IH]; simpl.
  - split; [discriminate|]. intros H. inversion H.
  - rewrite orb_true_iff, IH, elem_of_cons, String.eqb_eq. tauto.
Qed.

(** C8, as stated, fails: the allowed tool [tickets:*] does not permit the
    tool [tickets:read] of that namespace; a tenant with no tool restriction
    in its token is permitted no tool; and [*] among the allowed models
    permits no model. *)
Lemma canUseTool_has_no_namespace_wildcard :
  in_namespace "tickets" "tickets:read"
  /\ canUseTool tickets_tenant "tickets:read" = false
  /\ canUseTool unrestricted_tenant "read_ticket" = false
  /\ canUseModel any_model_tenant "gpt-4o" = false.
Proof.
  split; [by exists "read"|]. repeat split.
Qed.

(** C8, amended: the five predicates are functions of the permissions of
    the context and the requested value alone.  [canUseTool] passes exactly
    when the tool list holds [*] or the tool's exact name (so an empty list
    permits nothing and [namespace:*] is an ordinary name).  [canUseModel]
    passes exactly when [allowedModels] is absent or empty, or holds the
    exact model name, or holds [provider/*] for the text before the model's
    first slash.  [canUseSkill] passes exactly when [allowedSkills] is absent
    or empty, or holds the exact skill name or [*].  [hasBudget] passes
    exactly when [budgetRemaining] is absent or at least the estimated cost
    (0 when none is given), and [withinTokenLimit] exactly when [maxTokens]
    is absent or at least the token count. *)
Theorem permission_predicates (context : TenantContext) :
  (forall other : TenantContext,
      permissions other = permissions context ->
      (forall v, canUseTool other v = canUseTool context v)
      /\ (forall v, canUseModel other v = canUseModel context v)
      /\ (forall v, canUseSkill other v = canUseSkill context v)
      /\ (forall c, hasBudget other c = hasBudget context c)
      /\ (forall n, withinTokenLimit other n = withinTokenLimit context n))
  /\ (forall toolName,
        canUseTool context toolName = true
        <-> "*" ∈ tools (permissions context)
            \/ toolName ∈ tools (permissions context))
  /\ (forall modelName,
        canUseModel context modelName = true
        <-> match allowedModels (permissions context) with
            | None => True
            | Some [] => True
            | Some allowed =>
                modelName ∈ allowed \/ (before_slash modelName +:+ "/*") ∈ allowed
            end)
  /\ (forall skillName,
        canUseSkill context skillName = true
        <-> match allowedSkills (permissions context) with
            | None => True
            | Some [] => True
            | Some allowed => skillName ∈ allowed \/ "*" ∈ allowed
            end)
  /\ (forall estimatedCost,
        hasBudget context estimatedCost = true
        <-> match budgetRemaining (permissions context) with
            | None => True
            | Some remaining => (default 0%Q estimatedCost <= remaining)%Q
            end)
  /\ (forall tokenCount,
        withinTokenLimit context tokenCount = true
        <-> match maxTokens (permissions context) with
            | None => True
            | Some limit => (tokenCount <= limit)%Q
            end).
Proof.
  split_and!.
  - intros other Hsame.
    unfold canUseTool, canUseModel, canUseSkill, hasBudget, withinTokenLimit.
    rewrite Hsame. by repeat split.
  - intros toolName. unfold canUseTool.
    destruct (includes (tools (permissions context)) "*") eqn:Hstar.
    + apply includes_elem_of in Hstar. tauto.
    + rewrite includes_elem_of. split; [tauto|]. intros [Habs|H]; [|exact H].
      apply includes_elem_of in Habs. congruence.
  - intros modelName. unfold canUseModel.
    destruct (allowedModels (permissions context)) as [[|m allowed]|]; [done| |done].
    cbn [length Nat.eqb]. by rewrite orb_true_iff, !includes_elem_of.
  - intros skillName. unfold canUseSkill.
    destruct (allowedSkills (permissions context)) as [[|k allowed]|]; [done| |done].
    cbn [length Nat.eqb]. by rewrite orb_true_iff, !includes_elem_of.
  - intros estimatedCost. unfold hasBudget.
    destruct (budgetRemaining (permissions context)); [|done].
    apply Qle_bool_iff.
  - intros tokenCount. unfold withinTokenLimit.
    destruct (maxTokens (permissions context)); [|done].
    apply Qle_bool_iff.
Qed.

End TenantContextFacts.

(** ** Canonical JSON *)
Module StableJsonFacts.
Import StableJson.

(** Induction on JSON values that reaches the elements of arrays and the
    values of objects. *)
Section NestedInduction.
Variable P : JsonValue -> Prop.
Hypothesis P_null : P JNull.
Hypothesis P_bool : forall b, P (JBool b).
Hypothesis P_number : forall n, P (JNumber n).
Hypothesis P_string : forall s, P (JString s).
Hypothesis P_array : forall items, Forall P items -> P (JArray items).
Hypothesis P_object : forall props, Forall (fun kv => P (snd kv)) props -> P (JObject props).

Fixpoint JsonValue_nested_ind (value : JsonValue) : P value :=
  match value with
  | JNull => P_null
  | JBool b => P_bool b
  | JNumber n => P_number n
  | JString s => P_string s
  | JArray items =>
      P_array items
        (list_ind (Forall P) (@List.Forall_nil _ P)
           (fun item rest IH =>
              @List.Forall_cons _ P item rest (JsonValue_nested_ind item) IH)
           items)
  | JObject props =>
      P_object props
        (list_ind (Forall (fun kv => P (snd kv))) (@List.Forall_nil _ _)
           (fun kv rest IH =>
              @List.Forall_cons _ (fun kv => P (snd kv)) kv rest
                (JsonValue_nested_ind (snd kv)) IH)
           props)
  end.

End NestedInduction.

(** *** Objects *)

Lemma get_map {V W} (f : V -> W) (o : Js.Obj V) (key : string) :
  Js.get (map (fun kv => (fst kv, f (snd kv))) o) key = f <$> Js.get o key.
Proof.
  induction o as [|[k v] rest IH]; simpl; [reflexivity|].
  destruct (String.eqb k key); [reflexivity|exact IH].
Qed.

(** The value the loop of [sortObject] looks up is the one the source
    computes, [stabilize(value[key])]. *)
Lemma get_stabilized (value : Js.Obj JsonValue) (key : string) :
  Js.get (map (fun kv => (fst kv, stabilize (snd kv))) value) key
  = stabilize <$> Js.get value key.
Proof. apply get_map. Qed.

Lemma get_Some_elem {V} (o : Js.Obj V) key v : Js.get o key = Some v -> (key, v) ∈ o.
Proof.
  induction o as [|[k w] rest IH]; simpl; [discriminate|].
  destruct (String.eqb_spec k key) as [->|Hne].
  - intros [= ->]. by left.
  - intros H. right. by apply IH.
Qed.

Lemma get_is_Some {V} (o : Js.Obj V) key : is_Some (Js.get o key) <-> key ∈ map fst o.
Proof.
  induction o as [|[k w] rest IH]; simpl.
  - split; [by intros [? ?]|]. intros H. inversion H.
  - rewrite elem_of_cons. destruct (String.eqb_spec k key) as [->|Hne].
    + split; [by left|by eauto].
    + rewrite IH. split; [by right|]. intros [->|H]; [done|exact H].
Qed.

Lemma filter_split {A} (f : A -> bool) (l : list A) :
  List.filter f l ++ List.filter (fun x => negb (f x)) l ≡ₚ l.
Proof.
  induction l as [|x l IH]; simpl; [reflexivity|].
  destruct (f x); simpl.
  - by constructor.
  - rewrite <- Permutation_middle. by constructor.
Qed.

Lemma own_keys_Permutation {V} (o : Js.Obj V) : Js.own_keys o ≡ₚ map fst o.
Proof.
  unfold Js.own_keys. rewrite merge_sort_Permutation. apply filter_split.
Qed.

Lemma Array_sort_unique (l1 l2 : list string) :
  l1 ≡ₚ l2 -> Js.Array_sort l1 = Js.Array_sort l2.
Proof.
  intros Hperm. unfold Js.Array_sort.
  apply (Sorted_unique String.le).
  - apply Sorted_merge_sort; apply _.
  - apply Sorted_merge_sort; apply _.
  - by rewrite !merge_sort_Permutation.
Qed.

(** Two objects with the same property names give the loop of [sortObject]
    the same keys in the same order. *)
Lemma sorted_keys_agree {V} (o1 o2 : Js.Obj V) :
  NoDup (map fst o1) -> NoDup (map fst o2) ->
  (forall k, is_Some (Js.get o1 k) <-> is_Some (Js.get o2 k)) ->
  Js.Array_sort (Js.own_keys o1) = Js.Array_sort (Js.own_keys o2).
Proof.
  intros Hnd1 Hnd2 Hsame. apply Array_sort_unique.
  rewrite !own_keys_Permutation. apply NoDup_Permutation; [done|done|].
  intros k. by rewrite <- !get_is_Some.
Qed.

Lemma sortObject_loop_ext (o1 o2 : Js.Obj JsonValue) (keys : list string) :
  (forall k, Js.get o1 k = Js.get o2 k) ->
  forall sorted,
    fold_left (fun sorted key =>
                 match Js.get o1 key with
                 | Some v => Js.set sorted key v
                 | None => sorted
                 end) keys sorted
    = fold_left (fun sorted key =>
                   match Js.get o2 key with
                   | Some v => Js.set sorted key v
                   | None => sorted
                   end) keys sorted.
Proof.
  intros Hsame. induction keys as [|k keys IH]; intros sorted; simpl; [reflexivity|].
  rewrite Hsame. apply IH.
Qed.

(** *** Determinism *)

Lemma same_value_is_Some ps qs k :
  (forall k, option_Forall2 same_value (Js.get ps k) (Js.get qs k)) ->
  is_Some (Js.get ps k) <-> is_Some (Js.get qs k).
Proof.
  intros Hsame. specialize (Hsame k).
  inversion Hsame; split; intros [? ?]; eauto; congruence.
Qed.

Lemma stabilize_same_value (v1 : JsonValue) :
  forall v2, well_formed v1 -> well_formed v2 -> same_value v1 v2 ->
             stabilize v1 = stabilize v2.
Proof.
  induction v1 as [| | | |items IH|props IH] using JsonValue_nested_ind;
    intros v2 Hwf1 Hwf2 Hsame; inversion Hsame; subst; try reflexivity.
  - (* arrays: element by element *)
    simpl. f_equal.
    inversion Hwf1 as [| | | |? Hwfs1|]; subst.
    inversion Hwf2 as [| | | |? Hwfs2|]; subst.
    match goal with H : Forall2 same_value _ _ |- _ => rename H into Hall end.
    clear Hsame Hwf1 Hwf2.
    induction Hall as [|x y xs ys Hxy Hall IHall]; [reflexivity|].
    inversion IH; subst. inversion Hwfs1; subst. inversion Hwfs2; subst.
    simpl. f_equal; [by auto|by apply IHall].
  - (* objects: the same keys in the same order, with the same values *)
    simpl. f_equal.
    inversion Hwf1 as [| | | | |? Hnd1 Hwfs1]; subst.
    inversion Hwf2 as [| | | | |? Hnd2 Hwfs2]; subst.
    match goal with
    | H : forall k, option_Forall2 same_value _ _ |- _ => rename H into Hprops
    end.
    unfold sortObject.
    rewrite (sorted_keys_agree props qs Hnd1 Hnd2)
      by (intros k; by apply same_value_is_Some).
    apply sortObject_loop_ext. intros k. rewrite !get_stabilized.
    specialize (Hprops k).
    inversion Hprops as [x y Hxy Hx Hy|Hx Hy]; [|reflexivity].
    simpl. f_equal.
    symmetry in Hx, Hy. apply get_Some_elem in Hx as Hinx. apply get_Some_elem in Hy as Hiny.
    rewrite Forall_forall in IH. rewrite Forall_forall in Hwfs1, Hwfs2.
    apply (IH (k, x) Hinx y); [exact (Hwfs1 (k, x) Hinx)|exact (Hwfs2 (k, y) Hiny)|exact Hxy].
Qed.

(** The serialization depends only on the value: two well-formed JSON
    values that differ at most in the creation order of their properties
    have the same canonical text. *)
Theorem stableStringify_deterministic (v1 v2 : JsonValue) :
  well_formed v1 -> well_formed v2 -> same_value v1 v2 ->
  stableStringify v1 = stableStringify v2.
Proof.
  intros Hwf1 Hwf2 Hsame. unfold stableStringify.
  by rewrite (stabilize_same_value v1 v2 Hwf1 Hwf2 Hsame).
Qed.

(** *** The order of the emitted keys *)

Lemma get_app {V} (o1 o2 : Js.Obj V) key :
  Js.get (o1 ++ o2) key
  = match Js.get o1 key with Some v => Some v | None => Js.get o2 key end.
Proof.
  induction o1 as [|[k v] rest IH]; simpl; [reflexivity|].
  destruct (String.eqb k key); [reflexivity|exact IH].
Qed.

(** What one key contributes to the object [sortObject] builds. *)
Definition picked (o : Js.Obj JsonValue) (key : string) : option (string * JsonValue) :=
  if String.eqb key "__proto__" then None
  else (fun v => (key, v)) <$> Js.get o key.

Lemma sortObject_loop_closed_form (o : Js.Obj JsonValue) (keys : list string) :
  NoDup keys ->
  forall sorted,
    (forall k, k ∈ keys -> Js.get sorted k = None) ->
    fold_left (fun sorted key =>
                 match Js.get o key with
                 | Some v => Js.set sorted key v
                 | None => sorted
                 end) keys sorted
    = sorted ++ omap (picked o) keys.
Proof.
  induction 1 as [|k keys Hfresh Hnd IH]; intros sorted Hnew; simpl.
  - by rewrite app_nil_r.
  - assert (Hrest : forall k', k' ∈ keys -> Js.get sorted k' = None).
    { intros k' Hk'. apply Hnew. by right. }
    unfold picked at 1. destruct (Js.get o k) as [v|] eqn:Hget; simpl.
    + unfold Js.set. destruct (String.eqb k "__proto__"); [by apply IH|].
      rewrite (Hnew k) by (by left). rewrite IH.
      * by rewrite <- app_assoc.
      * intros k' Hk'. rewrite get_app, (Hrest k' Hk'). simpl.
        destruct (String.eqb_spec k k') as [->|]; [done|reflexivity].
    + destruct (String.eqb k "__proto__"); by apply IH.
Qed.

Lemma Array_sort_NoDup (l : list string) : NoDup l -> NoDup (Js.Array_sort l).
Proof.
  intros Hnd. unfold Js.Array_sort. by rewrite merge_sort_Permutation.
Qed.

Lemma own_keys_NoDup {V} (o : Js.Obj V) : NoDup (map fst o) -> NoDup (Js.own_keys o).
Proof. intros Hnd. by rewrite own_keys_Permutation. Qed.

(** [sortObject] in closed form: the keys of the object in ascending order,
    [__proto__] left out, each with its stabilized value. *)
Lemma sortObject_closed_form (props : Js.Obj JsonValue) :
  NoDup (map fst props) ->
  sortObject stabilize props
  = omap (picked (map (fun kv => (fst kv, stabilize (snd kv))) props))
      (Js.Array_sort (Js.own_keys props)).
Proof.
  intros Hnd. unfold sortObject.
  rewrite sortObject_loop_closed_form; [reflexivity| |done].
  by apply Array_sort_NoDup, own_keys_NoDup.
Qed.

Lemma map_fst_omap_picked (o : Js.Obj JsonValue) (keys : list string) :
  map fst (omap (picked o) keys)
  = List.filter (fun k => negb (String.eqb k "__proto__") && bool_decide (is_Some (Js.get o k)))
      keys.
Proof.
  induction keys as [|k keys IH]; simpl; [reflexivity|].
  unfold picked at 1. destruct (String.eqb k "__proto__"); simpl; [exact IH|].
  destruct (Js.get o k) as [v|]; simpl.
  - rewrite ?bool_decide_eq_true_2 by eauto. simpl. f_equal. exact IH.
  - rewrite ?bool_decide_eq_false_2 by (by intros [? ?]). exact IH.
Qed.

Lemma Sorted_List_filter (f : string -> bool) (l : list string) :
  Sorted String.le l -> Sorted String.le (List.filter f l).
Proof.
  intros Hsorted. apply Sorted_StronglySorted in Hsorted; [|apply _].
  apply StronglySorted_Sorted.
  induction Hsorted as [|x l Hl IH Hx]; simpl; [constructor|].
  destruct (f x); [|exact IH]. constructor; [exact IH|].
  rewrite List.Forall_forall in *. intros y Hy. apply Hx.
  by apply filter_In in Hy as [? _].
Qed.

Lemma own_keys_without_index (ks : list string) (o : Js.Obj JsonValue) :
  map fst o = ks -> Forall (fun k => Js.is_array_index k = false) ks ->
  Js.own_keys o = ks.
Proof.
  intros Hks Hnone. unfold Js.own_keys. rewrite Hks. clear Hks.
  assert (Hidx : List.filter Js.is_array_index ks = []).
  { induction Hnone as [|k ks Hk _ IH]; simpl; [reflexivity|]. by rewrite Hk. }
  assert (Hrest : List.filter (fun k => negb (Js.is_array_index k)) ks = ks).
  { clear Hidx. induction Hnone as [|k ks Hk _ IH]; simpl; [reflexivity|].
    rewrite Hk. simpl. by rewrite IH. }
  by rewrite Hidx, Hrest.
Qed.

Lemma elem_of_omap_picked (o : Js.Obj JsonValue) (keys : list string) k v :
  (k, v) ∈ omap (picked o) keys -> Js.get o k = Some v.
Proof.
  rewrite list_elem_of_omap. intros (key & _ & Hpick). unfold picked in Hpick.
  destruct (String.eqb key "__proto__"); [discriminate|].
  destruct (Js.get o key) as [w|] eqn:Hget; simpl in Hpick; [|discriminate].
  by injection Hpick as -> ->.
Qed.

(** On values none of whose objects has an array index among its keys,
    the canonical form has the keys of every object, at every depth, in
    ascending order. *)
Theorem stabilize_keys_sorted (value : JsonValue) :
  well_formed value -> no_index_keys value -> keys_sorted (stabilize value).
Proof.
  induction value as [| | | |items IH|props IH] using JsonValue_nested_ind;
    intros Hwf Hni; try (simpl; constructor).
  - inversion Hwf as [| | | |? Hwfs|]; subst. inversion Hni as [| | | |? Hnis|]; subst.
    rewrite List.Forall_forall in *. intros x' Hin.
    apply in_map_iff in Hin as (x & <- & Hx). by apply IH; auto.
  - inversion Hwf as [| | | | |? Hnd Hwfs]; subst.
    inversion Hni as [| | | | |? Hkeys Hnis]; subst.
    rewrite sortObject_closed_form by done.
    erewrite own_keys_without_index; [|reflexivity|].
    + rewrite map_fst_omap_picked. apply Sorted_List_filter.
      unfold Js.Array_sort. apply Sorted_merge_sort; apply _.
    + rewrite map_fst_omap_picked. rewrite List.Forall_forall in *.
      intros k [Hk _]%filter_In.
      apply list_elem_of_In in Hk. unfold Js.Array_sort in Hk.
      rewrite merge_sort_Permutation, own_keys_Permutation in Hk.
      apply list_elem_of_In, in_map_iff in Hk as ([k' v] & <- & Hkv).
      exact (Hkeys (k', v) Hkv).
  - inversion Hwf as [| | | | |? Hnd Hwfs]; subst.
    inversion Hni as [| | | | |? Hkeys Hnis]; subst.
    rewrite sortObject_closed_form by done.
    rewrite List.Forall_forall in *. intros [k v'] Hin. simpl.
    apply list_elem_of_In, elem_of_omap_picked in Hin.
    rewrite get_stabilized in Hin.
    destruct (Js.get props k) as [v|] eqn:Hget; [|discriminate].
    injection Hin as <-. apply get_Some_elem, list_elem_of_In in Hget.
    apply (IH (k, v) Hget); [exact (Hwfs (k, v) Hget)|exact (Hnis (k, v) Hget)].
Qed.

(** Arrays keep the order of their elements. *)
Lemma stabilize_array (items : list JsonValue) :
  stabilize (JArray items) = JArray (map stabilize items).
Proof. reflexivity. Qed.

Lemma JSON_stringify_array (items : list JsonValue) :
  JSON_stringify (JArray items)
  = "[" +:+ Js.join "," (map JSON_stringify items) +:+ "]".
Proof. reflexivity. Qed.

(** *** No insignificant whitespace *)

Lemma has_whitespace_app (a b : string) :
  has_whitespace (a +:+ b) = has_whitespace a || has_whitespace b.
Proof.
  induction a as [|c a IH]; [reflexivity|].
  change (String c a +:+ b) with (String c (a +:+ b)).
  cbn [has_whitespace]. by rewrite IH, orb_assoc.
Qed.

Lemma has_whitespace_join (sep : string) (xs : list string) :
  has_whitespace sep = false ->
  Forall (fun x => has_whitespace x = false) xs ->
  has_whitespace (Js.join sep xs) = false.
Proof.
  intros Hsep. induction 1 as [|x xs Hx Hxs IH]; [reflexivity|].
  destruct xs as [|y ys]; [exact Hx|].
  change (Js.join sep (x :: y :: ys)) with (x +:+ sep +:+ Js.join sep (y :: ys)).
  by rewrite !has_whitespace_app, Hx, Hsep, IH.
Qed.

Lemma quote_char_no_whitespace (c : ascii) :
  (N_of_ascii c =? 32)%N = false -> has_whitespace (quote_char c) = false.
Proof. destruct c as [[] [] [] [] [] [] [] []]; vm_compute; congruence. Qed.

Lemma has_whitespace_cons (c : ascii) (s : string) :
  has_whitespace (String c s) = is_whitespace c || has_whitespace s.
Proof. reflexivity. Qed.

Lemma quote_body_no_whitespace (s : string) :
  no_space s = true -> has_whitespace (quote_body s) = false.
Proof.
  induction s as [|c s IH]; intros Hs; [reflexivity|].
  cbn [no_space] in Hs. apply andb_true_iff in Hs as [Hc Hs].
  cbn [quote_body]. rewrite has_whitespace_app, (IH Hs), orb_false_r.
  apply quote_char_no_whitespace. by apply negb_true_iff.
Qed.

Lemma quote_no_whitespace (s : string) :
  no_space s = true -> has_whitespace (quote s) = false.
Proof.
  intros Hs. unfold quote.
  rewrite has_whitespace_cons, has_whitespace_app, (quote_body_no_whitespace s Hs).
  reflexivity.
Qed.

Lemma string_of_uint_no_whitespace (d : Decimal.uint) :
  has_whitespace (NilEmpty.string_of_uint d) = false.
Proof. induction d; simpl; auto. Qed.

Lemma Number_toString_no_whitespace (n : Z) :
  has_whitespace (Number_toString n) = false.
Proof.
  unfold Number_toString, NilZero.string_of_int, NilZero.string_of_uint.
  destruct (Z.to_int n) as [d|d].
  - destruct d; try reflexivity; apply (string_of_uint_no_whitespace (_ d)).
  - cbn [has_whitespace]. destruct d; try reflexivity;
      apply (string_of_uint_no_whitespace (_ d)).
Qed.

Lemma elem_of_entries {V} (o : Js.Obj V) (kv : string * V) : kv ∈ Js.entries o -> kv ∈ o.
Proof.
  unfold Js.entries. rewrite list_elem_of_omap. intros (k & _ & Hk).
  destruct (Js.get o k) as [v|] eqn:Hget; [|discriminate].
  injection Hk as <-. by apply get_Some_elem.
Qed.

Lemma JSON_stringify_no_whitespace (value : JsonValue) :
  space_free value -> has_whitespace (JSON_stringify value) = false.
Proof.
  induction value as [|[]| | |items IH|props IH] using JsonValue_nested_ind;
    intros Hsf; try reflexivity.
  - apply Number_toString_no_whitespace.
  - inversion Hsf; subst. by apply quote_no_whitespace.
  - inversion Hsf as [| | | |? Hall|]; subst. cbn [JSON_stringify].
    rewrite !has_whitespace_app, has_whitespace_join; [reflexivity|reflexivity|].
    rewrite List.Forall_forall in *. intros x Hin.
    apply in_map_iff in Hin as (v & <- & Hv). by apply IH; auto.
  - inversion Hsf as [| | | | |? Hall]; subst. cbn [JSON_stringify].
    rewrite !has_whitespace_app, has_whitespace_join; [reflexivity|reflexivity|].
    rewrite List.Forall_forall in *. intros x Hin.
    apply in_map_iff in Hin as ([k text] & <- & Hentry).
    apply list_elem_of_In, elem_of_entries, list_elem_of_In in Hentry.
    apply in_map_iff in Hentry as ([k' v] & [= <- <-] & Hkv).
    destruct (Hall _ Hkv) as [Hkey Hvalue]. unfold stringify_property.
    pose proof (IH _ Hkv Hvalue) as Htext. cbn [fst snd] in *.
    by rewrite !has_whitespace_app, (quote_no_whitespace _ Hkey), Htext.
Qed.

Lemma replace_Forall {V} (Q : string * V -> Prop) (o : Js.Obj V) key v :
  Q (key, v) -> Forall Q o -> Forall Q (Js.replace o key v).
Proof.
  intros Hnew. induction 1 as [|[k w] rest Hkw Hrest IH]; simpl; [constructor|].
  destruct (String.eqb_spec k key) as [->|]; constructor; auto.
Qed.

Lemma set_Forall {V} (Q : string * V -> Prop) (o : Js.Obj V) key v :
  Q (key, v) -> Forall Q o -> Forall Q (Js.set o key v).
Proof.
  intros Hnew Ho. unfold Js.set. destruct (String.eqb key "__proto__"); [exact Ho|].
  destruct (Js.get o key).
  - by apply replace_Forall.
  - apply Forall_app. split; [exact Ho|]. by repeat constructor.
Qed.

(** Every property [sortObject] creates is a property of the object it
    reads, with the value stabilized. *)
Lemma sortObject_Forall (Q : string * JsonValue -> Prop) (props : Js.Obj JsonValue) :
  (forall k v, (k, v) ∈ props -> Q (k, stabilize v)) ->
  Forall Q (sortObject stabilize props).
Proof.
  intros Hq. unfold sortObject.
  generalize (Js.Array_sort (Js.own_keys props)). intros keys.
  assert (Hacc : Forall Q ([] : Js.Obj JsonValue)) by constructor.
  revert Hacc. generalize ([] : Js.Obj JsonValue).
  induction keys as [|k keys IH]; intros sorted Hsorted; simpl; [exact Hsorted|].
  apply IH. rewrite get_stabilized.
  destruct (Js.get props k) as [v|] eqn:Hget; simpl; [|exact Hsorted].
  apply set_Forall; [|exact Hsorted]. apply Hq. by apply get_Some_elem.
Qed.

Lemma stabilize_space_free (value : JsonValue) :
  space_free value -> space_free (stabilize value).
Proof.
  induction value as [| | | |items IH|props IH] using JsonValue_nested_ind;
    intros Hsf; try exact Hsf.
  - inversion Hsf as [| | | |? Hall|]; subst. simpl. constructor.
    rewrite List.Forall_forall in *. intros x Hin.
    apply in_map_iff in Hin as (v & <- & Hv). by apply IH; auto.
  - inversion Hsf as [| | | | |? Hall]; subst. simpl. constructor.
    apply sortObject_Forall. intros k v Hkv%list_elem_of_In.
    rewrite List.Forall_forall in *.
    destruct (Hall _ Hkv) as [Hkey Hvalue]. split; [exact Hkey|].
    exact (IH _ Hkv Hvalue).
Qed.

(** The canonical text holds no whitespace the value does not carry inside
    its strings: on a value whose strings and keys are free of spaces it
    holds no space, tab, line feed or carriage return at all. *)
Theorem stableStringify_no_whitespace (value : JsonValue) :
  space_free value -> has_whitespace (stableStringify value) = false.
Proof.
  intros Hsf. unfold stableStringify.
  by apply JSON_stringify_no_whitespace, stabilize_space_free.
Qed.

(** *** Keys that are array indices *)

(** The text ["k"] of a key or string without characters to escape. *)
Definition quoted (s : string) : string := String Js.DQ (s +:+ String Js.DQ "").

(** The object [{ "10": 1, "9": 2 }], as [JSON.parse] builds it. *)
Definition ten_nine : JsonValue := JObject [("10", JNumber 1); ("9", JNumber 2)].

(** C9 at the object [{ "10": 1, "9": 2 }]: the object is well formed, its
    keys in ascending order of code units are 10, 9, and the canonical
    text lists them as 9, 10. *)
Theorem stableStringify_array_index_keys :
  well_formed ten_nine
  /\ Js.Array_sort ["10"; "9"] = ["10"; "9"]
  /\ stableStringify ten_nine
     = "{" +:+ quoted "9" +:+ ":2," +:+ quoted "10" +:+ ":1}"
  /\ stableStringify ten_nine
     <> "{" +:+ quoted "10" +:+ ":1," +:+ quoted "9" +:+ ":2}"
  /\ ~ keys_sorted (stabilize ten_nine).
Proof.
  split_and!.
  - constructor.
    + compute_done.
    + repeat constructor.
  - reflexivity.
  - reflexivity.
  - discriminate.
  - intros Hsorted. inversion Hsorted as [| | | | |? Hkeys _]; subst.
    vm_compute in Hkeys. inversion Hkeys as [|? ? _ Hhd]; subst.
    inversion Hhd as [|? ? Hle]; subst. vm_compute in Hle. exact Hle.
Qed.

(** *** Examples *)

Example stringify_hello_world :
  stableStringify (JObject [("hello", JString "world")])
  = "{" +:+ quoted "hello" +:+ ":" +:+ quoted "world" +:+ "}".
Proof. reflexivity. Qed.

(** Keys are sorted at every depth, arrays are left in order. *)
Example stringify_nested :
  stableStringify
    (JObject [("b", JNumber 1);
              ("a", JObject [("d", JNull);
                             ("c", JArray [JNumber 3; JNumber 2; JNumber (-1)])])])
  = "{" +:+ quoted "a" +:+ ":{" +:+ quoted "c" +:+ ":[3,2,-1]," +:+ quoted "d"
      +:+ ":null}," +:+ quoted "b" +:+ ":1}".
Proof. reflexivity. Qed.

(** The same value built in two orders. *)
Example stringify_two_orders :
  stableStringify (JObject [("path", JString "/tmp/out.txt"); ("bytes", JNumber 10)])
  = stableStringify (JObject [("bytes", JNumber 10); ("path", JString "/tmp/out.txt")]).
Proof. reflexivity. Qed.

(** The assignment [sorted['__proto__'] = ...] creates no property: the key
    is missing from the canonical text. *)
Example stringify_drops_proto :
  stableStringify (JObject [("__proto__", JNumber 1); ("a", JNumber 2)])
  = "{" +:+ quoted "a" +:+ ":2}".
Proof. reflexivity. Qed.

(** Characters that [JSON.stringify] escapes. *)
Example stringify_escapes :
  stableStringify (JString (String "009"%char (String Js.DQ (String Js.BACKSLASH "a"))))
  = String Js.DQ
      (String Js.BACKSLASH
         ("t" +:+ String Js.BACKSLASH
                    (String Js.DQ
                       (String Js.BACKSLASH (String Js.BACKSLASH ("a" +:+ String Js.DQ "")))))).
Proof. reflexivity. Qed.

(** *** Further properties of the canonical form *)

(** The object without its property [__proto__]. *)
Definition without_proto (props : Js.Obj JsonValue) : Js.Obj JsonValue :=
  List.filter (fun kv => negb (String.eqb (fst kv) "__proto__")) props.

Lemma get_without_proto (props : Js.Obj JsonValue) (k : string) :
  k <> "__proto__" -> Js.get (without_proto props) k = Js.get props k.
Proof.
  intros Hk. induction props as [|[k' v] rest IH]; [reflexivity|].
  unfold without_proto in *. cbn [List.filter fst Js.get].
  destruct (String.eqb_spec k' "__proto__") as [->|Hne]; cbn [negb Js.get].
  - destruct (String.eqb_spec "__proto__" k) as [<-|_]; [done|exact IH].
  - by rewrite IH.
Qed.

Lemma map_fst_without_proto (props : Js.Obj JsonValue) :
  map fst (without_proto props)
  = List.filter (fun k => negb (String.eqb k "__proto__")) (map fst props).
Proof.
  induction props as [|[k v] rest IH]; simpl; [reflexivity|].
  destruct (String.eqb k "__proto__"); simpl; by rewrite IH.
Qed.

Lemma List_filter_Permutation {A} (f : A -> bool) (l1 l2 : list A) :
  l1 ≡ₚ l2 -> List.filter f l1 ≡ₚ List.filter f l2.
Proof.
  induction 1 as [|x l1 l2 _ IH|x y l|l1 l2 l3 _ IH1 _ IH2]; simpl.
  - reflexivity.
  - destruct (f x); [by constructor|exact IH].
  - destruct (f x), (f y); try reflexivity. by constructor.
  - by etrans.
Qed.

Lemma List_filter_NoDup {A} (f : A -> bool) (l : list A) :
  NoDup l -> NoDup (List.filter f l).
Proof.
  induction 1 as [|x l Hx Hl IH]; simpl; [constructor|].
  destruct (f x); [|exact IH]. constructor; [|exact IH].
  intros Hin%list_elem_of_In%filter_In. apply Hx. apply list_elem_of_In. tauto.
Qed.

Lemma sorted_keys_without_proto (props : Js.Obj JsonValue) :
  Js.Array_sort (Js.own_keys (without_proto props))
  = List.filter (fun k => negb (String.eqb k "__proto__"))
      (Js.Array_sort (Js.own_keys props)).
Proof.
  apply (Sorted_unique String.le).
  - unfold Js.Array_sort. apply Sorted_merge_sort; apply _.
  - apply Sorted_List_filter. unfold Js.Array_sort. apply Sorted_merge_sort; apply _.
  - unfold Js.Array_sort at 1. rewrite merge_sort_Permutation, own_keys_Permutation.
    rewrite map_fst_without_proto. apply List_filter_Permutation.
    unfold Js.Array_sort. by rewrite merge_sort_Permutation, own_keys_Permutation.
Qed.

Lemma omap_cons {A B} (f : A -> option B) (x : A) (l : list A) :
  omap f (x :: l) = match f x with Some y => y :: omap f l | None => omap f l end.
Proof. reflexivity. Qed.

Lemma omap_picked_without_proto (o o' : Js.Obj JsonValue) (keys : list string) :
  (forall k, k <> "__proto__" -> Js.get o' k = Js.get o k) ->
  omap (picked o') (List.filter (fun k => negb (String.eqb k "__proto__")) keys)
  = omap (picked o) keys.
Proof.
  intros Hsame. induction keys as [|k keys IH]; [reflexivity|].
  cbn [List.filter]. rewrite (omap_cons (picked o)).
  destruct (String.eqb_spec k "__proto__") as [->|Hne]; cbn [negb].
  - unfold picked at 2. rewrite String.eqb_refl. exact IH.
  - rewrite omap_cons, IH. unfold picked.
    apply String.eqb_neq in Hne as Hneb. rewrite Hneb. by rewrite (Hsame k Hne).
Qed.

Lemma without_proto_NoDup (props : Js.Obj JsonValue) :
  NoDup (map fst props) -> NoDup (map fst (without_proto props)).
Proof. intros Hnd. rewrite map_fst_without_proto. by apply List_filter_NoDup. Qed.

(** A property named [__proto__] never reaches the canonical text: an
    object and the same object without that property serialize alike,
    whatever the value of the property. *)
Theorem stableStringify_ignores_proto (props : Js.Obj JsonValue) :
  NoDup (map fst props) ->
  stableStringify (JObject props) = stableStringify (JObject (without_proto props)).
Proof.
  intros Hnd. unfold stableStringify. f_equal. simpl. f_equal.
  rewrite !sortObject_closed_form by auto using without_proto_NoDup.
  rewrite sorted_keys_without_proto. symmetry.
  apply omap_picked_without_proto. intros k Hk.
  rewrite !get_stabilized. by rewrite get_without_proto.
Qed.

Lemma stableStringify_ignores_proto_witness :
  stableStringify
    (JObject [("role", JString "user"); ("__proto__", JObject [("role", JString "admin")])])
  = stableStringify (JObject [("role", JString "user")]).
Proof.
  apply (stableStringify_ignores_proto
           [("role", JString "user"); ("__proto__", JObject [("role", JString "admin")])]).
  compute_done.
Defined.

Lemma same_value_refl (value : JsonValue) : same_value value value.
Proof.
  induction value as [| | | |items IH|props IH] using JsonValue_nested_ind;
    try constructor.
  - induction IH; by constructor.
  - intros k. destruct (Js.get props k) as [v|] eqn:Hget; constructor.
    apply get_Some_elem, list_elem_of_In in Hget.
    rewrite List.Forall_forall in IH. exact (IH _ Hget).
Qed.

(** Decides the properties of two literal objects key by key. *)
Ltac by_key k :=
  cbn [Js.get];
  repeat match goal with
         | |- context [String.eqb ?a k] =>
             destruct (String.eqb_spec a k) as [<-|?]
         end;
  cbn; constructor; apply same_value_refl.

Lemma stableStringify_deterministic_witness :
  stableStringify
    (JObject [("b", JArray [JNumber 1; JNull]);
              ("a", JObject [("y", JBool true); ("x", JString "s")])])
  = stableStringify
      (JObject [("a", JObject [("y", JBool true); ("x", JString "s")]);
                ("b", JArray [JNumber 1; JNull])]).
Proof.
  apply stableStringify_deterministic.
  - constructor; [compute_done|]. repeat constructor; compute_done.
  - constructor; [compute_done|]. repeat constructor; compute_done.
  - constructor. intros k. by_key k.
Defined.

Lemma stabilize_keys_sorted_witness :
  keys_sorted
    (stabilize (JObject [("b", JNumber 1); ("a", JObject [("d", JNull); ("c", JNull)])])).
Proof.
  apply stabilize_keys_sorted.
  - constructor; [compute_done|]. repeat constructor; compute_done.
  - repeat constructor.
Defined.

Lemma stableStringify_no_whitespace_witness :
  has_whitespace
    (stableStringify (JObject [("b", JArray [JNumber 1; JString "x"]); ("a", JNull)]))
  = false.
Proof.
  apply stableStringify_no_whitespace. repeat constructor.
Defined.

(** *** The canonical form is a fixed point *)

Lemma Array_sort_sorted (l : list string) : Sorted String.le l -> Js.Array_sort l = l.
Proof.
  intros Hsorted. apply (Sorted_unique String.le); [|exact Hsorted|].
  - unfold Js.Array_sort. apply Sorted_merge_sort; apply _.
  - unfold Js.Array_sort. apply merge_sort_Permutation.
Qed.

Lemma sortObject_keys (props : Js.Obj JsonValue) :
  NoDup (map fst props) ->
  map fst (sortObject stabilize props)
  = List.filter (fun k => negb (String.eqb k "__proto__"))
      (Js.Array_sort (map fst props)).
Proof.
  intros Hnd. rewrite sortObject_closed_form, map_fst_omap_picked by done.
  assert (Hkeys : Js.Array_sort (Js.own_keys props) = Js.Array_sort (map fst props)).
  { apply Array_sort_unique, own_keys_Permutation. }
  rewrite Hkeys. apply filter_ext_in. intros k Hk. f_equal.
  apply list_elem_of_In in Hk. unfold Js.Array_sort in Hk.
  rewrite merge_sort_Permutation in Hk.
  rewrite get_stabilized. apply get_is_Some in Hk as [v ->]. simpl.
  rewrite andb_true_r. reflexivity.
Qed.

Lemma sortObject_keys_Sorted (props : Js.Obj JsonValue) :
  NoDup (map fst props) -> Sorted String.le (map fst (sortObject stabilize props)).
Proof.
  intros Hnd. rewrite sortObject_keys by done. apply Sorted_List_filter.
  unfold Js.Array_sort. apply Sorted_merge_sort; apply _.
Qed.

Lemma sortObject_keys_NoDup (props : Js.Obj JsonValue) :
  NoDup (map fst props) -> NoDup (map fst (sortObject stabilize props)).
Proof.
  intros Hnd. rewrite sortObject_keys by done.
  by apply List_filter_NoDup, Array_sort_NoDup.
Qed.

Lemma sortObject_no_proto (props : Js.Obj JsonValue) (k : string) :
  NoDup (map fst props) -> k ∈ map fst (sortObject stabilize props) -> k <> "__proto__".
Proof.
  intros Hnd. rewrite sortObject_keys by done.
  intros [_ Hk]%list_elem_of_In%filter_In ->. discriminate.
Qed.

Lemma get_elem_NoDup {V} (o : Js.Obj V) (k : string) (v : V) :
  NoDup (map fst o) -> (k, v) ∈ o -> Js.get o k = Some v.
Proof.
  induction o as [|[k' v'] rest IH]; intros Hnd Hkv; [inversion Hkv|].
  cbn [map fst] in Hnd. apply NoDup_cons in Hnd as [Hfresh Hnd].
  cbn [Js.get]. apply elem_of_cons in Hkv as [[= -> ->]|Hin].
  - by rewrite String.eqb_refl.
  - destruct (String.eqb_spec k' k) as [->|_]; [|by apply IH].
    exfalso. apply Hfresh. apply list_elem_of_In, in_map_iff.
    exists (k, v). split; [reflexivity|by apply list_elem_of_In].
Qed.

Lemma omap_ext_in {A B} (f g : A -> option B) (l : list A) :
  (forall x, x ∈ l -> f x = g x) -> omap f l = omap g l.
Proof.
  induction l as [|x l IH]; intros Hfg; [reflexivity|].
  rewrite !omap_cons, (Hfg x) by (by left).
  rewrite IH; [reflexivity|]. intros y Hy. apply Hfg. by right.
Qed.

(** Reading the properties of an object back in the order of its own list. *)
Lemma omap_get_self {V} (f : V -> V) (o : Js.Obj V) :
  NoDup (map fst o) ->
  Forall (fun kv => f (snd kv) = snd kv) o ->
  omap (fun k => (fun v => (k, f v)) <$> Js.get o k) (map fst o) = o.
Proof.
  intros Hnd Hfix.
  assert (Hall : forall l, (forall kv, kv ∈ l -> Js.get o (fst kv) = Some (snd kv)
                                        /\ f (snd kv) = snd kv) ->
                 omap (fun k => (fun v => (k, f v)) <$> Js.get o k) (map fst l) = l).
  { induction l as [|[k v] l IH]; intros Hl; [reflexivity|].
    cbn [map fst]. rewrite omap_cons.
    destruct (Hl (k, v)) as [Hget Hv]; [by left|]. cbn [fst snd] in Hget, Hv.
    rewrite Hget. cbn. rewrite Hv. f_equal. apply IH. intros kv Hkv.
    apply Hl. by right. }
  apply Hall. intros [k v] Hkv. split.
  - by apply get_elem_NoDup.
  - rewrite List.Forall_forall in Hfix. apply (Hfix (k, v)). by apply list_elem_of_In.
Qed.

Lemma stabilize_well_formed (value : JsonValue) :
  well_formed value -> well_formed (stabilize value).
Proof.
  induction value as [| | | |items IH|props IH] using JsonValue_nested_ind;
    intros Hwf; try exact Hwf.
  - inversion Hwf as [| | | |? Hall|]; subst. simpl. constructor.
    rewrite List.Forall_forall in *. intros x Hin.
    apply in_map_iff in Hin as (v & <- & Hv). by apply IH; auto.
  - inversion Hwf as [| | | | |? Hnd Hall]; subst. simpl. constructor.
    + by apply sortObject_keys_NoDup.
    + apply sortObject_Forall. intros k v Hkv%list_elem_of_In.
      rewrite List.Forall_forall in *. exact (IH _ Hkv (Hall _ Hkv)).
Qed.

(** Canonicalizing a canonical form changes nothing. *)
Theorem stabilize_idempotent (value : JsonValue) :
  well_formed value -> stabilize (stabilize value) = stabilize value.
Proof.
  induction value as [| | | |items IH|props IH] using JsonValue_nested_ind;
    intros Hwf; try reflexivity.
  - inversion Hwf as [| | | |? Hall|]; subst. simpl. f_equal.
    rewrite map_map. apply map_ext_in. intros v Hv.
    rewrite List.Forall_forall in *. by apply IH; auto.
  - inversion Hwf as [| | | | |? Hnd Hall]; subst.
    change (stabilize (JObject props)) with (JObject (sortObject stabilize props)).
    set (canonical := sortObject stabilize props).
    change (stabilize (JObject canonical)) with (JObject (sortObject stabilize canonical)).
    f_equal.
    assert (Hnd' : NoDup (map fst canonical)) by by apply sortObject_keys_NoDup.
    assert (Hfix : Forall (fun kv => stabilize (snd kv) = snd kv) canonical).
    { apply sortObject_Forall. intros k v Hkv%list_elem_of_In.
      rewrite List.Forall_forall in *. exact (IH _ Hkv (Hall _ Hkv)). }
    rewrite sortObject_closed_form by done.
    assert (Hkeys : Js.Array_sort (Js.own_keys canonical) = map fst canonical).
    { rewrite (Array_sort_unique _ _ (own_keys_Permutation canonical)).
      apply Array_sort_sorted. by apply sortObject_keys_Sorted. }
    rewrite Hkeys. rewrite <- (omap_get_self stabilize canonical Hnd' Hfix) at 3.
    apply omap_ext_in. intros k Hk. unfold picked.
    pose proof (sortObject_no_proto props k Hnd Hk) as Hne.
    apply String.eqb_neq in Hne. rewrite Hne, get_stabilized.
    by destruct (Js.get canonical k).
Qed.

Lemma stabilize_idempotent_witness :
  stabilize (stabilize (JObject [("b", JNumber 1); ("10", JNull); ("9", JArray []);
                                 ("a", JObject [("z", JNull); ("y", JNull)])]))
  = stabilize (JObject [("b", JNumber 1); ("10", JNull); ("9", JArray []);
                        ("a", JObject [("z", JNull); ("y", JNull)])]).
Proof.
  apply stabilize_idempotent.
  constructor; [compute_done|]. repeat constructor; compute_done.
Defined.

(** *** The order of the emitted keys, in general *)

Lemma index_le_total : Total Js.index_le.
Proof. intros x y. unfold Js.index_le. lia. Qed.

Lemma Forall_List_filter {A} (f : A -> bool) (l : list A) :
  Forall (fun x => f x = true) (List.filter f l).
Proof.
  rewrite List.Forall_forall. intros x Hx. by apply filter_In in Hx as [_ ?].
Qed.

(** The keys of an object in its canonical form are emitted in two runs:
    first the keys that are array indices, in ascending numeric order, then
    the other keys in ascending order of code units; they are the keys of
    the object other than [__proto__]. *)
Theorem stabilize_emitted_keys (props : Js.Obj JsonValue) :
  NoDup (map fst props) ->
  exists indices names,
    Js.own_keys (sortObject stabilize props) = indices ++ names
    /\ Forall (fun k => Js.is_array_index k = true) indices
    /\ Sorted Js.index_le indices
    /\ Forall (fun k => Js.is_array_index k = false) names
    /\ Sorted String.le names
    /\ forall k, k ∈ indices ++ names <-> k ∈ map fst props /\ k <> "__proto__".
Proof.
  intros Hnd. set (ks := map fst (sortObject stabilize props)).
  exists (@merge_sort _ Js.index_le Js.index_le_dec (List.filter Js.is_array_index ks)),
         (List.filter (fun k => negb (Js.is_array_index k)) ks).
  split_and!.
  - reflexivity.
  - rewrite merge_sort_Permutation. apply Forall_List_filter.
  - apply Sorted_merge_sort. apply index_le_total.
  - eapply Forall_impl; [apply Forall_List_filter|].
    intros k Hk. by apply negb_true_iff.
  - apply Sorted_List_filter. by apply sortObject_keys_Sorted.
  - intros k. rewrite merge_sort_Permutation, filter_split. subst ks.
    rewrite sortObject_keys by done.
    rewrite list_elem_of_In, filter_In, <- list_elem_of_In.
    unfold Js.Array_sort. rewrite merge_sort_Permutation, negb_true_iff, String.eqb_neq.
    reflexivity.
Qed.

Lemma stabilize_emitted_keys_witness :
  exists indices names,
    Js.own_keys
      (sortObject stabilize
         [("b", JNull); ("10", JNull); ("__proto__", JNull); ("9", JNull); ("a", JNull)])
    = indices ++ names
    /\ Sorted Js.index_le indices /\ Sorted String.le names.
Proof.
  destruct (stabilize_emitted_keys
              [("b", JNull); ("10", JNull); ("__proto__", JNull); ("9", JNull);
               ("a", JNull)])
    as (indices & names & Heq & _ & Hindices & _ & Hnames & _); [compute_done|].
  exists indices, names. by split_and!.
Defined.

End StableJsonFacts.

(** ** The canonical text determines the value *)

Module CanonicalText.
Import StableJson StableJsonFacts.

(** *** Texts *)

Lemma append_cons (c : ascii) (a b : string) : String c a +:+ b = String c (a +:+ b).
Proof. reflexivity. Qed.

Lemma append_nil (b : string) : "" +:+ b = b.
Proof. reflexivity. Qed.

Lemma append_assoc (a b c : string) : (a +:+ b) +:+ c = a +:+ (b +:+ c).
Proof. induction a as [|x a IH]; [done|]. by rewrite !append_cons, IH. Qed.

Lemma append_empty (a : string) : a +:+ "" = a.
Proof. induction a as [|x a IH]; [done|]. by rewrite append_cons, IH. Qed.

(** The class of the first character of a text: the characters that start
    a JSON value, each class of its own, and everything else. *)
Definition is_digit (c : ascii) : bool :=
  ((48 <=? N_of_ascii c) && (N_of_ascii c <=? 57))%N.

Definition start_class (c : ascii) : nat :=
  if is_digit c then 3
  else if (N_of_ascii c =? 45)%N then 3
  else if (N_of_ascii c =? 110)%N then 0
  else if (N_of_ascii c =? 116)%N then 1
  else if (N_of_ascii c =? 102)%N then 2
  else if (N_of_ascii c =? 34)%N then 4
  else if (N_of_ascii c =? 91)%N then 5
  else if (N_of_ascii c =? 123)%N then 6
  else 7.

Definition starts (text : string) : option nat :=
  match text with
  | EmptyString => None
  | String c _ => Some (start_class c)
  end.

Definition class_of (value : JsonValue) : nat :=
  match value with
  | JNull => 0
  | JBool true => 1
  | JBool false => 2
  | JNumber _ => 3
  | JString _ => 4
  | JArray _ => 5
  | JObject _ => 6
  end.

(** What may follow a value inside a text: nothing, a comma or a closing
    bracket. *)
Definition delimited (rest : string) : Prop :=
  match rest with
  | EmptyString => True
  | String c _ => c = ","%char \/ c = "]"%char \/ c = "}"%char
  end.

(** *** Strings *)

Definition hex_value (c : ascii) : N :=
  let n := N_of_ascii c in if (n <? 58)%N then (n - 48)%N else (n - 87)%N.

(** Reads back one code unit of the body of a quoted string. *)
Definition unquote_char (text : string) : option (ascii * string) :=
  match text with
  | EmptyString => None
  | String c rest =>
      if Ascii.eqb c Js.DQ then None
      else if Ascii.eqb c Js.BACKSLASH then
        match rest with
        | EmptyString => None
        | String e rest' =>
            if Ascii.eqb e "u" then
              match rest' with
              | String _ (String _ (String h (String l rest''))) =>
                  Some (ascii_of_N (16 * hex_value h + hex_value l), rest'')
              | _ => None
              end
            else if Ascii.eqb e "b" then Some ("008"%char, rest')
            else if Ascii.eqb e "f" then Some ("012"%char, rest')
            else if Ascii.eqb e "n" then Some ("010"%char, rest')
            else if Ascii.eqb e "r" then Some ("013"%char, rest')
            else if Ascii.eqb e "t" then Some ("009"%char, rest')
            else Some (e, rest')
        end
      else Some (c, rest)
  end.

Lemma unquote_char_quote_char (c : ascii) (rest : string) :
  unquote_char (quote_char c +:+ rest) = Some (c, rest).
Proof. destruct c as [[] [] [] [] [] [] [] []]; reflexivity. Qed.

Lemma quote_body_prefix (s1 : string) :
  forall s2 r1 r2,
    quote_body s1 +:+ String Js.DQ r1 = quote_body s2 +:+ String Js.DQ r2 ->
    s1 = s2 /\ r1 = r2.
Proof.
  induction s1 as [|c1 s1 IH]; intros [|c2 s2] r1 r2; cbn [quote_body].
  - rewrite !append_nil. by intros [= ->].
  - rewrite append_nil, append_assoc. intros Htext%(f_equal unquote_char).
    by rewrite unquote_char_quote_char in Htext.
  - rewrite append_nil, append_assoc. intros Htext%(f_equal unquote_char).
    by rewrite unquote_char_quote_char in Htext.
  - rewrite !append_assoc. intros Htext%(f_equal unquote_char).
    rewrite !unquote_char_quote_char in Htext. injection Htext as -> Hrest.
    by destruct (IH _ _ _ Hrest) as [-> ->].
Qed.

Lemma quote_prefix (s1 s2 r1 r2 : string) :
  quote s1 +:+ r1 = quote s2 +:+ r2 -> s1 = s2 /\ r1 = r2.
Proof.
  unfold quote. rewrite !append_cons, !append_assoc, !append_cons, !append_nil.
  intros [= Hbody]. by apply quote_body_prefix in Hbody.
Qed.

(** *** Numbers *)

Fixpoint all_digits (text : string) : bool :=
  match text with
  | EmptyString => true
  | String c rest => is_digit c && all_digits rest
  end.

Lemma string_of_uint_digits (d : Decimal.uint) :
  all_digits (NilEmpty.string_of_uint d) = true.
Proof. induction d; cbn [NilEmpty.string_of_uint all_digits]; by rewrite ?IHd. Qed.

Definition no_digit_first (rest : string) : Prop :=
  match rest with
  | EmptyString => True
  | String c _ => is_digit c = false
  end.

Lemma delimited_no_digit (rest : string) : delimited rest -> no_digit_first rest.
Proof. destruct rest as [|c rest]; [done|]. by intros [->|[->| ->]]. Qed.

Lemma digits_prefix (a : string) :
  forall b r1 r2,
    all_digits a = true -> all_digits b = true ->
    no_digit_first r1 -> no_digit_first r2 ->
    a +:+ r1 = b +:+ r2 -> a = b /\ r1 = r2.
Proof.
  induction a as [|x a IH]; intros [|y b] r1 r2 Ha Hb Hr1 Hr2;
    rewrite ?append_cons, ?append_nil.
  - done.
  - intros ->. cbn [all_digits] in Hb. apply andb_true_iff in Hb as [Hy _].
    cbn [no_digit_first] in Hr1. congruence.
  - intros <-. cbn [all_digits] in Ha. apply andb_true_iff in Ha as [Hx _].
    cbn [no_digit_first] in Hr2. congruence.
  - intros [= -> Hrest]. cbn [all_digits] in Ha, Hb.
    apply andb_true_iff in Ha as [_ Ha]. apply andb_true_iff in Hb as [_ Hb].
    by destruct (IH b r1 r2) as [-> ->].
Qed.

(** [Number_toString]: an optional minus sign and a run of digits that is
    not empty. *)
Lemma Number_toString_shape (n : Z) :
  exists digits,
    digits <> "" /\ all_digits digits = true
    /\ Number_toString n = (if (n <? 0)%Z then "-" else "") +:+ digits.
Proof.
  unfold Number_toString. destruct n as [|p|p]; cbn [Z.to_int Z.ltb Z.compare].
  - by exists "0".
  - exists (NilEmpty.string_of_uint (Pos.to_uint p)).
    pose proof (DecimalPos.Unsigned.to_uint_nonnil p) as Hnonnil.
    split_and!; [|apply string_of_uint_digits|].
    + by destruct (Pos.to_uint p).
    + cbn [NilZero.string_of_int]. unfold NilZero.string_of_uint.
      by destruct (Pos.to_uint p).
  - exists (NilEmpty.string_of_uint (Pos.to_uint p)).
    pose proof (DecimalPos.Unsigned.to_uint_nonnil p) as Hnonnil.
    split_and!; [|apply string_of_uint_digits|].
    + by destruct (Pos.to_uint p).
    + cbn [NilZero.string_of_int]. unfold NilZero.string_of_uint.
      by destruct (Pos.to_uint p).
Qed.

Lemma Number_toString_inj (n m : Z) : Number_toString n = Number_toString m -> n = m.
Proof.
  unfold Number_toString. intros Htext%(f_equal NilZero.int_of_string).
  assert (forall k, NilZero.int_of_string (NilZero.string_of_int (Z.to_int k))
                    = Some (Z.to_int k)) as Hread.
  { intros k. apply NilZero.isi; destruct k as [|p|p]; cbn [Z.to_int]; try done;
      intros [= Hnil]; by apply (DecimalPos.Unsigned.to_uint_nonnil p). }
  rewrite !Hread in Htext. injection Htext as Hint.
  by rewrite <- (DecimalZ.of_to n), <- (DecimalZ.of_to m), Hint.
Qed.

Lemma Number_toString_prefix (n m : Z) (r1 r2 : string) :
  delimited r1 -> delimited r2 ->
  Number_toString n +:+ r1 = Number_toString m +:+ r2 -> n = m /\ r1 = r2.
Proof.
  intros Hr1%delimited_no_digit Hr2%delimited_no_digit.
  destruct (Number_toString_shape n) as (d1 & Hd1 & Hall1 & Hn).
  destruct (Number_toString_shape m) as (d2 & Hd2 & Hall2 & Hm).
  intros Htext. rewrite Hn, Hm, !append_assoc in Htext.
  assert (d1 = d2 /\ r1 = r2 /\ (n <? 0)%Z = (m <? 0)%Z) as (-> & -> & Hsign).
  { destruct (n <? 0)%Z, (m <? 0)%Z; rewrite ?append_cons, ?append_nil in Htext.
    - injection Htext as Htext. by destruct (digits_prefix _ _ _ _ Hall1 Hall2 Hr1 Hr2 Htext).
    - destruct d2 as [|c d2]; [done|]. rewrite append_cons in Htext.
      injection Htext as <- _. cbn [all_digits] in Hall2. done.
    - destruct d1 as [|c d1]; [done|]. rewrite append_cons in Htext.
      injection Htext as -> _. cbn [all_digits] in Hall1. done.
    - by destruct (digits_prefix _ _ _ _ Hall1 Hall2 Hr1 Hr2 Htext). }
  split; [|done]. apply Number_toString_inj. by rewrite Hn, Hm, Hsign.
Qed.

(** *** The first character of a value's text *)

Lemma starts_JSON_stringify (value : JsonValue) (rest : string) :
  starts (JSON_stringify value +:+ rest) = Some (class_of value).
Proof.
  destruct value as [|[]|n|s|items|props]; try reflexivity.
  cbn [JSON_stringify class_of].
  destruct (Number_toString_shape n) as (digits & Hne & Hall & ->).
  destruct digits as [|c digits]; [done|]. cbn [all_digits] in Hall.
  apply andb_true_iff in Hall as [Hc _].
  destruct (n <? 0)%Z; [reflexivity|].
  rewrite append_nil, append_cons. cbn [starts]. unfold start_class. by rewrite Hc.
Qed.

(** *** Lists of elements *)

(** What follows the first element of a list: the closing bracket, or a
    comma and the other elements. *)
Definition after_first (close : ascii) (others : list string) (rest : string) : string :=
  match others with
  | [] => String close rest
  | _ => String ","%char (Js.join "," others +:+ String close rest)
  end.

Lemma join_cons_after (close : ascii) (x : string) (others : list string) (rest : string) :
  Js.join "," (x :: others) +:+ String close rest = x +:+ after_first close others rest.
Proof.
  destruct others as [|y others]; [reflexivity|].
  cbn [Js.join after_first]. by rewrite !append_assoc.
Qed.

Lemma after_first_delimited (close : ascii) (others : list string) (rest : string) :
  close = "]"%char \/ close = "}"%char -> delimited (after_first close others rest).
Proof. intros Hclose. destruct others; cbn; tauto. Qed.

Section Elements.
Context {A : Type}.
Variable print : A -> string.
Variable related : A -> A -> Prop.
Variable close : ascii.
Hypothesis close_bracket : close = "]"%char \/ close = "}"%char.
Hypothesis print_starts : forall y rest, starts (print y +:+ rest) <> Some 7.

Lemma close_class : start_class close = 7.
Proof. by destruct close_bracket as [-> | ->]. Qed.

Lemma elements_prefix (xs : list A) :
  forall ys r1 r2,
    (forall x, x ∈ xs ->
       forall y t1 t2, delimited t1 -> delimited t2 ->
                       print x +:+ t1 = print y +:+ t2 -> related x y /\ t1 = t2) ->
    Js.join "," (map print xs) +:+ String close r1
    = Js.join "," (map print ys) +:+ String close r2 ->
    Forall2 related xs ys /\ r1 = r2.
Proof.
  induction xs as [|x xs IH]; intros [|y ys] r1 r2 Hunique.
  - cbn [map Js.join]. rewrite !append_nil. by intros [= ->].
  - cbn [map]. rewrite join_cons_after. cbn [Js.join]. rewrite append_nil.
    intros Htext%(f_equal starts).
    exfalso. apply (print_starts y (after_first close (map print ys) r2)).
    rewrite <- Htext. cbn [starts]. by rewrite close_class.
  - cbn [map]. rewrite join_cons_after. cbn [Js.join]. rewrite append_nil.
    intros Htext%(f_equal starts).
    exfalso. apply (print_starts x (after_first close (map print xs) r1)).
    rewrite Htext. cbn [starts]. by rewrite close_class.
  - cbn [map]. rewrite !join_cons_after. intros Htext.
    destruct (Hunique x (list_elem_of_here _ _) y _ _
                (after_first_delimited _ _ _ close_bracket)
                (after_first_delimited _ _ _ close_bracket) Htext) as [Hxy Hafter].
    assert (Forall2 related xs ys /\ r1 = r2) as [Hrest ->]; [|by split; [constructor|]].
    assert (forall x', x' ∈ xs ->
              forall y' t1 t2, delimited t1 -> delimited t2 ->
                print x' +:+ t1 = print y' +:+ t2 -> related x' y' /\ t1 = t2) as Hunique'.
    { intros x' Hin. apply Hunique. by right. }
    destruct xs as [|x' xs], ys as [|y' ys]; cbn [map after_first] in Hafter.
    + injection Hafter as ->. by split; [constructor|].
    + injection Hafter as Habs _. destruct close_bracket; congruence.
    + injection Hafter as Habs _. destruct close_bracket; congruence.
    + injection Hafter as Hafter. by apply (IH (y' :: ys)).
Qed.

End Elements.

(** *** The text determines what is emitted *)

(** Two values emit the same: their scalars are equal, their arrays agree
    element by element, and their objects enumerate the same keys in the
    same order, with values that emit the same. *)
Inductive same_text : JsonValue -> JsonValue -> Prop :=
| text_null : same_text JNull JNull
| text_bool b : same_text (JBool b) (JBool b)
| text_number n : same_text (JNumber n) (JNumber n)
| text_string s : same_text (JString s) (JString s)
| text_array xs ys : Forall2 same_text xs ys -> same_text (JArray xs) (JArray ys)
| text_object ps qs :
    Forall2 (fun p q => fst p = fst q /\ same_text (snd p) (snd q))
      (Js.entries ps) (Js.entries qs) ->
    same_text (JObject ps) (JObject qs).

Lemma omap_map_entry {V W} (f : V -> W) (o : Js.Obj V) (keys : list string) :
  omap (fun k => match Js.get (map (fun kv => (fst kv, f (snd kv))) o) k with
                 | Some v => Some (k, v)
                 | None => None
                 end) keys
  = map (fun kv => (fst kv, f (snd kv)))
      (omap (fun k => match Js.get o k with Some v => Some (k, v) | None => None end) keys).
Proof.
  induction keys as [|k keys IH]; [done|].
  rewrite !omap_cons, get_map. destruct (Js.get o k) as [v|]; cbn [fmap option_fmap option_map].
  - cbn [map fst snd]. by rewrite IH.
  - exact IH.
Qed.

Lemma entries_map {V W} (f : V -> W) (o : Js.Obj V) :
  Js.entries (map (fun kv => (fst kv, f (snd kv))) o)
  = map (fun kv => (fst kv, f (snd kv))) (Js.entries o).
Proof.
  unfold Js.entries, Js.own_keys. rewrite map_map. cbn [fst]. apply omap_map_entry.
Qed.

(** The text of a member of an object. *)
Definition member_text (kv : string * JsonValue) : string :=
  quote (fst kv) +:+ ":" +:+ JSON_stringify (snd kv).

Lemma JSON_stringify_object (props : Js.Obj JsonValue) :
  JSON_stringify (JObject props)
  = "{" +:+ Js.join "," (map member_text (Js.entries props)) +:+ "}".
Proof.
  cbn [JSON_stringify]. rewrite entries_map, map_map. reflexivity.
Qed.

Lemma JSON_stringify_prefix (v1 : JsonValue) :
  forall v2 r1 r2,
    delimited r1 -> delimited r2 ->
    JSON_stringify v1 +:+ r1 = JSON_stringify v2 +:+ r2 ->
    same_text v1 v2 /\ r1 = r2.
Proof.
  induction v1 as [|b1|n1|s1|items1 IH|props1 IH] using JsonValue_nested_ind;
    intros v2 r1 r2 Hr1 Hr2 Htext;
    pose proof (f_equal starts Htext) as Hstart;
    rewrite !starts_JSON_stringify in Hstart;
    destruct v2 as [|b2|n2|s2|items2|props2];
    try (by destruct b1); try (by destruct b2); try done.
  - cbn [JSON_stringify] in Htext. rewrite !append_cons, !append_nil in Htext.
    injection Htext as ->. by split; [constructor|].
  - destruct b1, b2; try done; cbn [JSON_stringify] in Htext;
      rewrite !append_cons, !append_nil in Htext; injection Htext as ->;
      by split; [constructor|].
  - cbn [JSON_stringify] in Htext.
    destruct (Number_toString_prefix _ _ _ _ Hr1 Hr2 Htext) as [-> ->].
    by split; [constructor|].
  - cbn [JSON_stringify] in Htext. destruct (quote_prefix _ _ _ _ Htext) as [-> ->].
    by split; [constructor|].
  - rewrite !JSON_stringify_array, !append_cons, !append_nil, !append_assoc,
      !append_cons, !append_nil in Htext.
    injection Htext as Htext.
    apply (elements_prefix JSON_stringify same_text "]"%char) in Htext
      as [Hitems ->]; [by split; [constructor|]|by left| |].
    + intros y rest. rewrite starts_JSON_stringify. by destruct y as [|[]| | | |].
    + intros x Hin. rewrite Forall_forall in IH. by apply IH.
  - rewrite !JSON_stringify_object, !append_cons, !append_nil, !append_assoc,
      !append_cons, !append_nil in Htext.
    injection Htext as Htext.
    apply (elements_prefix member_text
             (fun p q => fst p = fst q /\ same_text (snd p) (snd q)) "}"%char)
      in Htext as [Hmembers ->]; [by split; [constructor|]|by right| |].
    + intros y rest. unfold member_text, quote. by rewrite !append_cons.
    + intros [k1 x1] Hin [k2 x2] t1 t2 Ht1 Ht2. unfold member_text. cbn [fst snd].
      rewrite !append_assoc. intros [-> Hvalue]%quote_prefix.
      rewrite !append_cons, !append_nil in Hvalue. injection Hvalue as Hvalue.
      apply elem_of_entries in Hin. rewrite Forall_forall in IH.
      by destruct (IH _ Hin x2 t1 t2 Ht1 Ht2 Hvalue) as [Hsame ->].
Qed.

(** *** From what is emitted back to the value *)

(** No object of the value, at any depth, has a property named
    [__proto__]. *)
Inductive proto_free : JsonValue -> Prop :=
| pf_null : proto_free JNull
| pf_bool b : proto_free (JBool b)
| pf_number n : proto_free (JNumber n)
| pf_string s : proto_free (JString s)
| pf_array xs : Forall proto_free xs -> proto_free (JArray xs)
| pf_object ps :
    Forall (fun kv => fst kv <> "__proto__" /\ proto_free (snd kv)) ps ->
    proto_free (JObject ps).

Lemma elem_of_entries_get {V} (o : Js.Obj V) (k : string) (v : V) :
  (k, v) ∈ Js.entries o <-> Js.get o k = Some v.
Proof.
  unfold Js.entries. rewrite list_elem_of_omap. split.
  - intros (k' & _ & Hpicked). destruct (Js.get o k') as [v'|] eqn:Hget; [|done].
    by injection Hpicked as -> ->.
  - intros Hget. exists k. rewrite Hget. split; [|done].
    rewrite own_keys_Permutation. apply get_is_Some. by rewrite Hget.
Qed.

Lemma entries_agree_get {V} (related : V -> V -> Prop) (o1 o2 : Js.Obj V) :
  Forall2 (fun p q => fst p = fst q /\ related (snd p) (snd q))
    (Js.entries o1) (Js.entries o2) ->
  forall k, option_Forall2 related (Js.get o1 k) (Js.get o2 k).
Proof.
  intros Hall k.
  destruct (Js.get o1 k) as [v|] eqn:Hget1, (Js.get o2 k) as [w|] eqn:Hget2.
  - apply elem_of_entries_get, list_elem_of_lookup in Hget1 as [i Hi].
    destruct (Forall2_lookup_l _ _ _ _ _ Hall Hi) as ([k' w'] & Hi' & Hkey & Hvalue).
    cbn [fst snd] in Hkey, Hvalue. subst k'.
    apply list_elem_of_lookup_2, elem_of_entries_get in Hi'.
    rewrite Hget2 in Hi'. injection Hi' as <-. by constructor.
  - apply elem_of_entries_get, list_elem_of_lookup in Hget1 as [i Hi].
    destruct (Forall2_lookup_l _ _ _ _ _ Hall Hi) as ([k' w'] & Hi' & Hkey & _).
    cbn [fst snd] in Hkey. subst k'.
    apply list_elem_of_lookup_2, elem_of_entries_get in Hi'. congruence.
  - apply elem_of_entries_get, list_elem_of_lookup in Hget2 as [i Hi].
    destruct (Forall2_lookup_r _ _ _ _ _ Hall Hi) as ([k' v'] & Hi' & Hkey & _).
    cbn [fst snd] in Hkey. subst k'.
    apply list_elem_of_lookup_2, elem_of_entries_get in Hi'. congruence.
  - constructor.
Qed.

Lemma get_omap_picked (o : Js.Obj JsonValue) (keys : list string) (k : string) :
  Js.get (omap (picked o) keys) k
  = if bool_decide (k ∈ keys) && negb (String.eqb k "__proto__") then Js.get o k
    else None.
Proof.
  induction keys as [|x keys IH].
  - cbn. by rewrite bool_decide_eq_false_2 by apply not_elem_of_nil.
  - rewrite omap_cons. unfold picked at 1.
    destruct (decide (k = x)) as [->|Hne].
    + rewrite (bool_decide_eq_true_2 (x ∈ x :: keys)) by by left.
      destruct (String.eqb x "__proto__") eqn:Hproto; cbn [negb andb].
      * rewrite IH. cbn [negb]. by rewrite andb_false_r.
      * destruct (Js.get o x) as [v|] eqn:Hget; cbn [fmap option_fmap option_map].
        -- cbn [Js.get]. by rewrite String.eqb_refl.
        -- rewrite IH. by destruct (bool_decide (x ∈ keys)); cbn; rewrite ?Hget.
    + assert (bool_decide (k ∈ x :: keys) = bool_decide (k ∈ keys)) as ->.
      { apply bool_decide_ext. rewrite elem_of_cons. tauto. }
      destruct (String.eqb x "__proto__"); [exact IH|].
      destruct (Js.get o x) as [v|]; cbn [fmap option_fmap option_map]; [|exact IH].
      cbn [Js.get]. destruct (String.eqb_spec x k) as [->|_]; [done|exact IH].
Qed.

(** What [sortObject] leaves under a key: the stabilized value of the
    object under that key, and nothing under [__proto__]. *)
Lemma get_sortObject (props : Js.Obj JsonValue) (k : string) :
  NoDup (map fst props) ->
  Js.get (sortObject stabilize props) k
  = if String.eqb k "__proto__" then None else stabilize <$> Js.get props k.
Proof.
  intros Hnodup. rewrite sortObject_closed_form, get_omap_picked, get_stabilized by done.
  destruct (String.eqb k "__proto__"); [by rewrite andb_false_r|].
  rewrite andb_true_r.
  destruct (decide (k ∈ Js.Array_sort (Js.own_keys props))) as [Hin|Hnot].
  - by rewrite bool_decide_eq_true_2.
  - rewrite bool_decide_eq_false_2 by done.
    destruct (Js.get props k) as [v|] eqn:Hget; [|done].
    exfalso. apply Hnot. unfold Js.Array_sort.
    rewrite merge_sort_Permutation, own_keys_Permutation.
    apply get_is_Some. by rewrite Hget.
Qed.

Lemma proto_free_get (props : Js.Obj JsonValue) :
  Forall (fun kv => fst kv <> "__proto__" /\ proto_free (snd kv)) props ->
  Js.get props "__proto__" = None.
Proof.
  intros Hfree. destruct (Js.get props "__proto__") as [v|] eqn:Hget; [|done].
  apply get_Some_elem in Hget. rewrite Forall_forall in Hfree.
  by destruct (Hfree _ Hget).
Qed.

Lemma same_text_stabilized (v1 : JsonValue) :
  forall v2,
    well_formed v1 -> well_formed v2 -> proto_free v1 -> proto_free v2 ->
    same_text (stabilize v1) (stabilize v2) -> same_value v1 v2.
Proof.
  induction v1 as [| | | |items1 IH|props1 IH] using JsonValue_nested_ind;
    intros [| | | |items2|props2] Hwf1 Hwf2 Hfree1 Hfree2 Hsame;
    cbn [stabilize] in Hsame; inversion Hsame; subst; try constructor.
  - inversion Hwf1 as [| | | |? Hwfs1|]; subst.
    inversion Hwf2 as [| | | |? Hwfs2|]; subst.
    inversion Hfree1 as [| | | |? Hfrees1|]; subst.
    inversion Hfree2 as [| | | |? Hfrees2|]; subst.
    match goal with H : Forall2 same_text _ _ |- _ => rename H into Hall end.
    clear Hsame Hwf1 Hwf2 Hfree1 Hfree2.
    revert items2 Hall Hwfs2 Hfrees2.
    induction items1 as [|x xs IHxs]; intros [|y ys] Hall Hwfs2 Hfrees2;
      inversion Hall; subst; constructor.
    + inversion IH; inversion Hwfs1; inversion Hwfs2; inversion Hfrees1;
        inversion Hfrees2; subst. auto.
    + inversion IH; inversion Hwfs1; inversion Hwfs2; inversion Hfrees1;
        inversion Hfrees2; subst. auto.
  - inversion Hwf1 as [| | | | |? Hnodup1 Hwfs1]; subst.
    inversion Hwf2 as [| | | | |? Hnodup2 Hwfs2]; subst.
    inversion Hfree1 as [| | | | |? Hfrees1]; subst.
    inversion Hfree2 as [| | | | |? Hfrees2]; subst.
    match goal with H : Forall2 _ (Js.entries _) _ |- _ => rename H into Hall end.
    intros k. pose proof (entries_agree_get same_text _ _ Hall k) as Hk.
    rewrite !get_sortObject in Hk by done.
    destruct (String.eqb_spec k "__proto__") as [Hproto|Hkey].
    { rewrite Hproto, !proto_free_get by done. constructor. }
    destruct (Js.get props1 k) as [x|] eqn:Hget1, (Js.get props2 k) as [y|] eqn:Hget2;
      inversion Hk; subst; constructor.
    apply get_Some_elem in Hget1, Hget2.
    rewrite Forall_forall in IH, Hwfs1, Hwfs2, Hfrees1, Hfrees2.
    apply (IH _ Hget1 y); try done.
    + by apply (Hwfs1 _ Hget1).
    + by apply (Hwfs2 _ Hget2).
    + by apply (Hfrees1 _ Hget1).
    + by apply (Hfrees2 _ Hget2).
Qed.

(** On values without a [__proto__] property, the canonical text is the
    text of one value only, up to the order in which the properties of its
    objects were created. *)
Theorem stableStringify_injective (v1 v2 : JsonValue) :
  well_formed v1 -> well_formed v2 -> proto_free v1 -> proto_free v2 ->
  stableStringify v1 = stableStringify v2 -> same_value v1 v2.
Proof.
  intros Hwf1 Hwf2 Hfree1 Hfree2 Htext. apply same_text_stabilized; try done.
  unfold stableStringify in Htext.
  rewrite <- (append_empty (JSON_stringify (stabilize v1))) in Htext.
  rewrite <- (append_empty (JSON_stringify (stabilize v2))) in Htext.
  by destruct (JSON_stringify_prefix _ _ "" "" I I Htext).
Qed.

End CanonicalText.

(** ** Signed telemetry envelopes, continued *)
Module SignedEnvelopeAcceptance.
Import StableJson SignedEnvelope SignedEnvelopeFacts.

(** [verifySignedEnvelope] returns normally exactly when a key is given and
    not revoked, [payload_hash] is the hash of the payload, [issued_at]
    parses to an instant within [maxSkewSeconds] of now (on either side, the
    bound included), the key's algorithm is [ed25519] or [ES256], its JWK
    imports, and the decoded signature verifies over the signing input. *)
Theorem verifySignedEnvelope_accepts_iff (sha256Hex : string -> string)
    {Jwk KeyObject Buffer : Type}
    (Buffer_from_base64 Buffer_from_utf8 : string -> Buffer)
    (Date_getTime : string -> option Z)
    (createPublicKey : Jwk -> option KeyObject)
    (cryptoVerify : option string -> Buffer -> KeyObject -> Buffer -> option bool)
    (now : Z) (e : SignedTelemetryEnvelope) (key : option (TelemetryKey Jwk))
    (maxSkew : Z) :
  verifySignedEnvelope sha256Hex Buffer_from_base64 Buffer_from_utf8 Date_getTime
    createPublicKey cryptoVerify now e key maxSkew = Return tt
  <-> exists k issuedAt publicKey,
        key = Some k
        /\ PolicyEngine.truthy (revokedAt k) = false
        /\ payload_hash e = Sha256.formatSha256 (Sha256.sha256Json sha256Hex (payload e))
        /\ Date_getTime (issued_at e) = Some issuedAt
        /\ (Z.abs (now - issuedAt) <= maxSkew * 1000)%Z
        /\ (alg k = "ed25519" \/ alg k = "ES256")
        /\ createPublicKey (publicJwk k) = Some publicKey
        /\ cryptoVerify (digest_for (alg k)) (Buffer_from_utf8 (buildSigningInput e))
             publicKey (parseSignature Buffer_from_base64 (signature e)) = Some true.
Proof.
  unfold verifySignedEnvelope, check_signature, digest_for. split.
  - destruct key as [k|]; [|discriminate].
    destruct (PolicyEngine.truthy (revokedAt k)) eqn:Hlive; [discriminate|].
    destruct (String.eqb_spec
                (Sha256.formatSha256 (Sha256.sha256Json sha256Hex (payload e)))
                (payload_hash e)) as [Hhash|]; [|discriminate].
    cbn [negb].
    destruct (Date_getTime (issued_at e)) as [issuedAt|] eqn:Htime; [|discriminate].
    destruct (maxSkew * 1000 <? Z.abs (now - issuedAt))%Z eqn:Hskew; [discriminate|].
    apply Z.ltb_ge in Hskew.
    destruct (String.eqb_spec (alg k) "ed25519") as [Halg|Hne].
    + destruct (createPublicKey (publicJwk k)) as [publicKey|] eqn:Hkey; [|discriminate].
      destruct (cryptoVerify None _ publicKey _) as [[]|] eqn:Hok; [|discriminate..].
      intros _. exists k, issuedAt, publicKey. split_and!; auto.
      by rewrite Halg.
    + destruct (String.eqb_spec (alg k) "ES256") as [Halg|]; [|discriminate].
      destruct (createPublicKey (publicJwk k)) as [publicKey|] eqn:Hkey; [|discriminate].
      destruct (cryptoVerify (Some "sha256") _ publicKey _) as [[]|] eqn:Hok;
        [|discriminate..].
      intros _. exists k, issuedAt, publicKey. split_and!; auto.
      by rewrite Halg.
  - intros (k & issuedAt & publicKey & -> & Hlive & Hhash & Htime & Hskew & Halg
            & Hkey & Hok).
    rewrite Hlive, <- Hhash, String.eqb_refl, Htime. cbn [negb].
    apply Z.ltb_ge in Hskew. rewrite Hskew, Hkey.
    destruct Halg as [Halg|Halg]; rewrite Halg in *; cbn in *; by rewrite Hok.
Qed.

(** An error of [crypto.verify] itself leaves the function as it is, not as
    a [SignedEnvelopeError]. *)
Lemma verify_error_propagates (sha256Hex : string -> string)
    {Jwk KeyObject Buffer : Type}
    (Buffer_from_base64 Buffer_from_utf8 : string -> Buffer)
    (Date_getTime : string -> option Z)
    (createPublicKey : Jwk -> option KeyObject)
    (cryptoVerify : option string -> Buffer -> KeyObject -> Buffer -> option bool)
    (now : Z) (e : SignedTelemetryEnvelope) (k : TelemetryKey Jwk) (maxSkew : Z)
    (issuedAt : Z) (publicKey : KeyObject) :
  PolicyEngine.truthy (revokedAt k) = false ->
  payload_hash e = Sha256.formatSha256 (Sha256.sha256Json sha256Hex (payload e)) ->
  Date_getTime (issued_at e) = Some issuedAt ->
  (Z.abs (now - issuedAt) <= maxSkew * 1000)%Z ->
  alg k = "ed25519" \/ alg k = "ES256" ->
  createPublicKey (publicJwk k) = Some publicKey ->
  cryptoVerify (digest_for (alg k)) (Buffer_from_utf8 (buildSigningInput e))
    publicKey (parseSignature Buffer_from_base64 (signature e)) = None ->
  verifySignedEnvelope sha256Hex Buffer_from_base64 Buffer_from_utf8 Date_getTime
    createPublicKey cryptoVerify now e (Some k) maxSkew = Throw CryptoVerifyError.
Proof.
  intros Hlive Hhash Htime Hskew Halg Hkey Hthrows.
  unfold verifySignedEnvelope, check_signature, digest_for in *.
  rewrite Hlive, <- Hhash, String.eqb_refl, Htime. cbn [negb].
  apply Z.ltb_ge in Hskew. rewrite Hskew, Hkey.
  destruct Halg as [Halg|Halg]; rewrite Halg in *; cbn in *; by rewrite Hthrows.
Qed.

(** The verdict depends on the payload only through its canonical text:
    an adapter may create the properties of the payload in any order. *)
Theorem verifySignedEnvelope_payload_order (sha256Hex : string -> string)
    {Jwk KeyObject Buffer : Type}
    (Buffer_from_base64 Buffer_from_utf8 : string -> Buffer)
    (Date_getTime : string -> option Z)
    (createPublicKey : Jwk -> option KeyObject)
    (cryptoVerify : option string -> Buffer -> KeyObject -> Buffer -> option bool)
    (now : Z) (e : SignedTelemetryEnvelope) (key : option (TelemetryKey Jwk))
    (maxSkew : Z) (p : JsonValue) :
  well_formed (payload e) -> well_formed p -> same_value (payload e) p ->
  verifySignedEnvelope sha256Hex Buffer_from_base64 Buffer_from_utf8 Date_getTime
    createPublicKey cryptoVerify now (with_payload e p) key maxSkew
  = verifySignedEnvelope sha256Hex Buffer_from_base64 Buffer_from_utf8 Date_getTime
      createPublicKey cryptoVerify now e key maxSkew.
Proof.
  intros Hwf Hwfp Hsame. unfold verifySignedEnvelope, Sha256.sha256Json, stableStringify.
  cbn [payload with_payload].
  rewrite <- (StableJsonFacts.stabilize_same_value _ _ Hwf Hwfp Hsame).
  reflexivity.
Qed.

Lemma verifySignedEnvelope_payload_order_witness :
  toy_verify 0
    (with_payload
       (with_payload good_envelope (JObject [("a", JNumber 1); ("b", JNumber 2)]))
       (JObject [("b", JNumber 2); ("a", JNumber 1)]))
    (Some toy_key) 300
  = toy_verify 0
      (with_payload good_envelope (JObject [("a", JNumber 1); ("b", JNumber 2)]))
      (Some toy_key) 300.
Proof.
  apply (verifySignedEnvelope_payload_order toy_sha256Hex toy_decode toy_decode
           toy_getTime toy_createPublicKey toy_cryptoVerify 0
           (with_payload good_envelope (JObject [("a", JNumber 1); ("b", JNumber 2)]))
           (Some toy_key) 300 (JObject [("b", JNumber 2); ("a", JNumber 1)])).
  - constructor; [compute_done|]. repeat constructor.
  - constructor; [compute_done|]. repeat constructor.
  - constructor. intros k. StableJsonFacts.by_key k.
Defined.

End SignedEnvelopeAcceptance.

(** ** Tampering with a signed envelope *)

Module SignedEnvelopeTamper.
Import StableJson StableJsonFacts CanonicalText SignedEnvelope SignedEnvelopeFacts.

(** An envelope whose payload has two properties, signed. *)
Definition reading_envelope : SignedTelemetryEnvelope :=
  let unsigned :=
    {| envelope_version := "v1"; adapter_id := "adapter-1"; adapter_version := "0.4.1";
       issued_at := "1970-01-01T00:00:00.000Z"; execution_id := "exec-1";
       trace_id := "trace-1"; payload_type := metrics;
       payload := JObject [("sensor", JString "a"); ("value", JNumber 7)];
       payload_hash :=
         Sha256.formatSha256
           (Sha256.sha256Json toy_sha256Hex
              (JObject [("sensor", JString "a"); ("value", JNumber 7)]));
       signature := "" |} in
  with_signature unsigned (toy_sign (buildSigningInput unsigned)).


(** A payload that gains a property named [__proto__] has the canonical
    text it had ([stableStringify_ignores_proto]), so the envelope is
    accepted under the hash it had. *)
Example payload_with_proto_member :
  toy_verify 0
    (with_payload good_envelope
       (JObject [("hello", JString "world");
                 ("__proto__", JObject [("role", JString "admin")])]))
    (Some toy_key) 300
  = Return tt.
Proof. vm_compute. reflexivity. Qed.



End SignedEnvelopeTamper.

(** ** Tool tokens, continued *)
Module ToolTokensLifecycle.
Import StableJson ToolTokens ToolTokensFacts.

#[local] Arguments consumeToolToken : simpl never.
#[local] Arguments issueToolToken : simpl never.

(** The store after a history of calls. *)
Fixpoint run_calls (sha256Hex : string -> string)
    (hmac : string -> string -> string -> string)
    (calls : list Call) (w : World) : World :=
  match calls with
  | [] => w
  | CallIssue uuid now_ms claims ttl :: rest =>
      run_calls sha256Hex hmac rest
        (snd (issueToolToken sha256Hex hmac uuid now_ms claims ttl w))
  | CallConsume now id :: rest =>
      run_calls sha256Hex hmac rest (snd (consumeToolToken now id w))
  end.

(** Two rows that differ at most in [used_at]. *)
Definition same_token (row row' : ToolTokenRow) : Prop :=
  row_tenant_id row' = row_tenant_id row
  /\ row_adapter_id row' = row_adapter_id row
  /\ row_execution_id row' = row_execution_id row
  /\ row_tool row' = row_tool row
  /\ row_scope_hash row' = row_scope_hash row
  /\ row_issued_at row' = row_issued_at row
  /\ row_expires_at row' = row_expires_at row.

(** [issueToolToken] is all or nothing.  When it throws, the store is as it
    was, and it throws exactly when no secret is configured
    ([config_error]) or a row of the new [jti] exists already (the driver's
    constraint error): an existing row, consumed or not, is never replaced.
    When it returns, the [jti] is the fresh one, the row of no other [jti]
    has changed, and the new row is unused and carries the scope hash and
    the expiry the caller is told. *)
Theorem issueToolToken_all_or_nothing (sha256Hex : string -> string)
    (hmac : string -> string -> string -> string) (uuid : string) (now_ms : Z)
    (claims : ToolTokenClaims) (ttl : option Z) (w : World) :
  match issueToolToken sha256Hex hmac uuid now_ms claims ttl w with
  | (Throw e, w') =>
      w' = w
      /\ (e = ToolTokenError config_error <-> toolTokenSecret (config w) = "")
      /\ (e = SqliteError
          <-> toolTokenSecret (config w) <> "" /\ is_Some (tool_tokens w !! uuid))
  | (Return issued, w') =>
      toolTokenSecret (config w) <> ""
      /\ tool_tokens w !! uuid = None
      /\ jti issued = uuid
      /\ config w' = config w
      /\ (forall id, id <> uuid -> tool_tokens w' !! id = tool_tokens w !! id)
      /\ exists row,
           tool_tokens w' !! uuid = Some row
           /\ row_used_at row = None
           /\ row_scope_hash row = scope_hash issued
           /\ row_expires_at row = expires_at issued
           /\ row_tool row = claim_tool claims
  end.
Proof.
  unfold issueToolToken, sql_insert.
  destruct (String.eqb_spec (toolTokenSecret (config w)) "") as [Hempty|Hsecret].
  { split_and!; [done| |]; split; try done; by intros [? _]. }
  destruct (tool_tokens w !! uuid) as [old|] eqn:Hold.
  { split_and!; [done| |]; split; try done; by eauto. }
  cbn. split_and!; try done.
  - intros id Hid. by rewrite lookup_insert_ne.
  - eexists. rewrite lookup_insert_eq. by split_and!.
Qed.

(** [consumeToolToken(jti)] returns true exactly when the store holds a row
    of that [jti] whose [used_at] is null.  It then sets [used_at] of that
    row and nothing else; when it returns false the store is as it was; in
    both cases every other row is left alone.  The expiry of the token plays
    no part. *)
Theorem consumeToolToken_iff_unused (now : Z) (id : string) (w : World) :
  (fst (consumeToolToken now id w) = true <-> unused id w)
  /\ (fst (consumeToolToken now id w) = false -> snd (consumeToolToken now id w) = w)
  /\ (forall row,
        tool_tokens w !! id = Some row -> row_used_at row = None ->
        tool_tokens (snd (consumeToolToken now id w)) !! id = Some (mark_used now row))
  /\ (forall other,
        other <> id ->
        tool_tokens (snd (consumeToolToken now id w)) !! other = tool_tokens w !! other).
Proof.
  split_and!.
  - split.
    + intros Htrue. destruct (tool_tokens w !! id) as [row|] eqn:Hrow.
      * destruct (row_used_at row) as [t|] eqn:Hused.
        -- rewrite consume_consumed in Htrue; [discriminate|]. exists row. eauto.
        -- by exists row.
      * by rewrite consume_absent in Htrue.
    + intros (row & Hrow & Hused). by rewrite (consume_unused now id w row).
  - destruct (tool_tokens w !! id) as [row|] eqn:Hrow.
    + destruct (row_used_at row) as [t|] eqn:Hused.
      * rewrite consume_consumed; [done|]. exists row. eauto.
      * by rewrite (consume_unused now id w row).
    + by rewrite consume_absent.
  - intros row Hrow Hused. rewrite (consume_unused now id w row Hrow Hused).
    apply lookup_insert_eq.
  - intros other Hother. by apply consume_other_lookup.
Qed.

Lemma same_token_refl row : same_token row row.
Proof. by repeat split. Qed.

(** Through any history of issues and consumes, a row of the store is never
    deleted, its columns other than [used_at] never change, and [used_at],
    once set, keeps the timestamp of the consume that set it. *)
Theorem tool_token_rows_are_stable (sha256Hex : string -> string)
    (hmac : string -> string -> string -> string) (calls : list Call) (w : World)
    (id : string) (row : ToolTokenRow) :
  tool_tokens w !! id = Some row ->
  exists row',
    tool_tokens (run_calls sha256Hex hmac calls w) !! id = Some row'
    /\ same_token row row'
    /\ (forall t, row_used_at row = Some t -> row_used_at row' = Some t).
Proof.
  revert w row. induction calls as [|c rest IH]; intros w row Hrow.
  - exists row. split_and!; [done|apply same_token_refl|done].
  - destruct c as [uuid now_ms claims ttl|now id']; cbn [run_calls].
    + apply IH. by apply issue_keeps_row.
    + destruct (decide (id' = id)) as [->|Hne].
      * destruct (row_used_at row) as [t|] eqn:Hused.
        -- rewrite consume_consumed by (exists row; eauto).
           destruct (IH w row Hrow) as (row' & H1 & H2 & H3).
           exists row'. split_and!; try done. by rewrite Hused in H3.
        -- rewrite (consume_unused now id w row Hrow Hused). cbn [snd].
           destruct (IH (with_table w (<[id:=mark_used now row]> (tool_tokens w)))
                       (mark_used now row)) as (row' & H1 & H2 & H3).
           { apply lookup_insert_eq. }
           exists row'. split_and!; [done|exact H2|done].
      * apply IH. by rewrite consume_other_lookup.
Qed.

Lemma tool_token_rows_are_stable_witness :
  exists row',
    tool_tokens
      (run_calls toy_sha256Hex toy_hmac
         [CallConsume 1000700 "jti-1";
          CallIssue "jti-1" 2000000 test_claims (Some 60%Z);
          CallConsume 1000800 "jti-1"]
         (snd (consumeToolToken 1000500 "jti-1" (snd test_issue)))) !! "jti-1"
    = Some row'
    /\ row_used_at row' = Some 1000500%Z.
Proof.
  destruct (tool_token_rows_are_stable toy_sha256Hex toy_hmac
              [CallConsume 1000700 "jti-1";
               CallIssue "jti-1" 2000000 test_claims (Some 60%Z);
               CallConsume 1000800 "jti-1"]
              (snd (consumeToolToken 1000500 "jti-1" (snd test_issue)))
              "jti-1" _ eq_refl) as (row' & Hrow & _ & Hused).
  exists row'. split; [exact Hrow|]. apply Hused. reflexivity.
Defined.

(** The payload [issueToolToken] signs. *)
Definition issued_payload (sha256Hex : string -> string) (uuid : string) (now_ms : Z)
    (claims : ToolTokenClaims) (ttl : option Z) : Js.Obj JsonValue :=
  [("typ", JString "tool_auth");
   ("tenant_id", JString (claim_tenant_id claims));
   ("workspace_id", JString (claim_workspace_id claims));
   ("adapter_id", JString (claim_adapter_id claims));
   ("execution_id", JString (claim_execution_id claims));
   ("tool", JString (claim_tool claims));
   ("scope", claim_scope claims);
   ("scope_hash",
    JString (Sha256.formatSha256 (Sha256.sha256Json sha256Hex (claim_scope claims))));
   ("iat", JNumber (now_ms / 1000));
   ("exp", JNumber (now_ms / 1000 + default 30%Z ttl));
   ("jti", JString uuid)].

Lemma verify_issued_payload sha256Hex hmac uuid now_ms claims ttl (w : World) now :
  toolTokenSecret (config w) <> "" ->
  verifyToolToken hmac now
    (SignJWT hmac (toolTokenAlgorithm (config w)) (toolTokenSecret (config w))
       (issued_payload sha256Hex uuid now_ms claims ttl)) w
  = if (now_ms / 1000 + default 30%Z ttl <=? now)%Z
    then Throw (ToolTokenError invalid_token)
    else Return (issued_payload sha256Hex uuid now_ms claims ttl).
Proof.
  intros Hsecret%String.eqb_neq. unfold verifyToolToken, jwtVerify, SignJWT.
  rewrite Hsecret. cbn [jwt_alg jwt_payload jwt_signature].
  rewrite bool_decide_eq_true_2 by (by apply list_elem_of_singleton).
  rewrite String.eqb_refl. cbn [negb].
  change (numeric_claim (issued_payload sha256Hex uuid now_ms claims ttl) "iat")
    with (Return (E:=unit) (Some (now_ms / 1000)%Z)).
  change (numeric_claim (issued_payload sha256Hex uuid now_ms claims ttl) "nbf")
    with (Return (E:=unit) (@None Z)).
  change (numeric_claim (issued_payload sha256Hex uuid now_ms claims ttl) "exp")
    with (Return (E:=unit) (Some (now_ms / 1000 + default 30%Z ttl)%Z)).
  cbn beta iota.
  destruct (now_ms / 1000 + default 30%Z ttl <=? now)%Z; reflexivity.
Qed.

Lemma verify_config_only hmac now t (w' w : World) :
  config w' = config w -> verifyToolToken hmac now t w' = verifyToolToken hmac now t w.
Proof. intros Hconfig. unfold verifyToolToken. by rewrite Hconfig. Qed.

(** A token that [issueToolToken] returned verifies exactly at the times
    before its expiry (the second of issue plus the time to live, thirty
    seconds by default), whatever has happened in the store since; while it
    verifies, the caller gets back the claims it was issued with, and the
    [jti], the scope hash and the expiry in them are the ones the issuer
    was told. *)
Theorem issued_token_valid_window (sha256Hex : string -> string)
    (hmac : string -> string -> string -> string) (uuid : string) (now_ms : Z)
    (claims : ToolTokenClaims) (ttl : option Z) (w : World)
    (issued : IssuedToolToken) (w1 : World) :
  issueToolToken sha256Hex hmac uuid now_ms claims ttl w = (Return issued, w1) ->
  expires_at issued = ((now_ms / 1000 + default 30%Z ttl) * 1000)%Z
  /\ forall now table,
       (Outcome.returned
          (verifyToolToken hmac now (token issued) (with_table w1 table)) = true
        <-> (now * 1000 < expires_at issued)%Z)
       /\ (forall payload,
             verifyToolToken hmac now (token issued) (with_table w1 table)
             = Return payload ->
             Js.get payload "jti" = Some (JString (jti issued))
             /\ Js.get payload "scope_hash" = Some (JString (scope_hash issued))
             /\ Js.get payload "scope" = Some (claim_scope claims)
             /\ Js.get payload "tool" = Some (JString (claim_tool claims))
             /\ Js.get payload "tenant_id" = Some (JString (claim_tenant_id claims))
             /\ Js.get payload "adapter_id" = Some (JString (claim_adapter_id claims))
             /\ Js.get payload "execution_id"
                = Some (JString (claim_execution_id claims))).
Proof.
  unfold issueToolToken, sql_insert.
  destruct (String.eqb_spec (toolTokenSecret (config w)) "") as [|Hsecret];
    [discriminate|].
  destruct (tool_tokens w !! uuid); [discriminate|].
  intros [= <- <-]. cbn [expires_at token jti scope_hash]. split; [reflexivity|].
  intros now table.
  rewrite (verify_config_only hmac now _ _ w) by reflexivity.
  change (SignJWT hmac _ _ _)
    with (SignJWT hmac (toolTokenAlgorithm (config w)) (toolTokenSecret (config w))
            (issued_payload sha256Hex uuid now_ms claims ttl)).
  rewrite (verify_issued_payload sha256Hex hmac uuid now_ms claims ttl w now Hsecret).
  destruct (now_ms / 1000 + default 30%Z ttl <=? now)%Z eqn:Hexp.
  - apply Z.leb_le in Hexp. split; [|discriminate].
    cbn. split; [discriminate|lia].
  - apply Z.leb_gt in Hexp. split.
    + cbn. split; [lia|reflexivity].
    + intros payload [= <-]. by split_and!.
Qed.

Lemma issued_token_valid_window_witness :
  Outcome.returned (verifyToolToken toy_hmac 1029 test_token (snd test_issue)) = true
  /\ Outcome.returned (verifyToolToken toy_hmac 1030 test_token (snd test_issue)) = false.
Proof.
  destruct (issued_token_valid_window toy_sha256Hex toy_hmac "jti-1" 1000000
              test_claims None empty_world _ _ eq_refl) as [_ Hwindow].
  split.
  - apply (Hwindow 1029%Z (tool_tokens (snd test_issue))). reflexivity.
  - destruct (Hwindow 1030%Z (tool_tokens (snd test_issue))) as [[Hreturned _] _].
    destruct (Outcome.returned _) eqn:Hresult; [|reflexivity].
    specialize (Hreturned eq_refl). vm_compute in Hreturned. discriminate.
Defined.

End ToolTokensLifecycle.

(** ** The policy engine, continued *)
Module PolicyEngineDecisions.
Import PolicyEngine PolicyEngineFacts.

Lemma strict_ne_false (a b : option string) : strict_ne a b = false <-> a = b.
Proof.
  unfold strict_ne. rewrite negb_false_iff. apply bool_decide_eq_true.
Qed.

(** One condition of a rule holds in a context: it is not given (or given
    as the empty string), or the context has that very value. *)
Definition condition_holds (f : Field) (conditions : Conditions) (ctx : PolicyContext)
    : Prop :=
  truthy (condition_on f conditions) = true ->
  context_field f ctx = condition_on f conditions.

Lemma condition_check (cond value : option string) :
  truthy cond && strict_ne cond value = false
  <-> (truthy cond = true -> value = cond).
Proof.
  rewrite andb_false_iff, strict_ne_false. destruct (truthy cond); split.
  - intros [H|H]; [discriminate|]. by intros _.
  - intros H. right. symmetry. by apply H.
  - intros _ H. discriminate.
  - intros _. by left.
Qed.

(** A rule matches a context exactly when it has no [if] block or each of
    its five conditions holds: a condition can only be met by equality with
    the value the context gives, never by a value the context lacks. *)
Theorem matches_iff (rule : PolicyRule) (ctx : PolicyContext) :
  matches rule ctx = true
  <-> match rule_if rule with
      | None => True
      | Some conditions => forall f, condition_holds f conditions ctx
      end.
Proof.
  unfold matches. destruct (rule_if rule) as [c|]; [|done].
  pose proof (condition_check (if_environment c) (environment ctx)) as He.
  pose proof (condition_check (if_tool c) (tool ctx)) as Ht.
  pose proof (condition_check (if_adapter_risk_class c) (adapter_risk_class ctx)) as Ha.
  pose proof (condition_check (if_skill_state c) (skill_state ctx)) as Hs.
  pose proof (condition_check (if_tenant_id c) (tenant_id ctx)) as Hi.
  split.
  - intros Hmatch f.
    destruct (truthy (if_environment c) && _) eqn:E1; [discriminate|].
    destruct (truthy (if_tool c) && _) eqn:E2; [discriminate|].
    destruct (truthy (if_adapter_risk_class c) && _) eqn:E3; [discriminate|].
    destruct (truthy (if_skill_state c) && _) eqn:E4; [discriminate|].
    destruct (truthy (if_tenant_id c) && _) eqn:E5; [discriminate|].
    unfold condition_holds. destruct f; cbn [condition_on context_field]; tauto.
  - intros Hall.
    pose proof (Hall Environment) as H1. pose proof (Hall Tool) as H2.
    pose proof (Hall AdapterRiskClass) as H3. pose proof (Hall SkillState) as H4.
    pose proof (Hall TenantId) as H5.
    unfold condition_holds in *. cbn [condition_on context_field] in *.
    apply He in H1. apply Ht in H2. apply Ha in H3. apply Hs in H4. apply Hi in H5.
    by rewrite H1, H2, H3, H4, H5.
Qed.

(** Either no rule of a list matches, or the list splits at its first
    matching rule. *)
Lemma first_match_split (policies : list PolicyRule) (ctx : PolicyContext) :
  Forall (fun r => matches r ctx = false) policies
  \/ exists before rule after,
       policies = before ++ rule :: after
       /\ Forall (fun r => matches r ctx = false) before
       /\ matches rule ctx = true.
Proof.
  induction policies as [|r rest IH]; [by left|].
  destruct (matches r ctx) eqn:Hr.
  - right. exists [], r, rest. by split_and!.
  - destruct IH as [Hnone|(before & rule & after & -> & Hbefore & Hrule)].
    + left. by constructor.
    + right. exists (r :: before), rule, after. split_and!; [done| |done].
      by constructor.
Qed.

Lemma keep_rule_policy_id (entry : option YamlRule) (rule : PolicyRule) :
  keep_rule entry = Some rule -> policy_id rule <> "".
Proof.
  unfold keep_rule. destruct entry as [[[id|] c [t|]]|]; try discriminate.
  destruct (String.eqb_spec id "") as [|Hne]; [discriminate|].
  by intros [= <-].
Qed.

Lemma loadPolicies_policy_id (file : PolicyFile) (rule : PolicyRule) :
  rule ∈ loadPolicies file -> policy_id rule <> "".
Proof.
  destruct file as [|[entries|]]; cbn; intros Hin; try by inversion Hin.
  apply list_elem_of_omap in Hin as (entry & _ & Hkeep).
  by apply keep_rule_policy_id in Hkeep.
Qed.

(** What [evaluatePolicy] returns, for every policy file and context:
    [matched] holds at most one rule; a rule in it was loaded from the file,
    has a non-empty id, matches the context, gives [policy_id] and decides;
    and when [matched] is empty the decision is [deny] without a
    [policy_id]. *)
Theorem evaluatePolicy_result (file : PolicyFile) (ctx : PolicyContext) :
  let result := evaluatePolicy file ctx in
  (length (matched result) <= 1)%nat
  /\ (forall rule,
        rule ∈ matched result ->
        rule ∈ loadPolicies file
        /\ policy_id rule <> ""
        /\ matches rule ctx = true
        /\ eval_policy_id result = Some (policy_id rule)
        /\ decision result = decisionFromRule rule)
  /\ (matched result = [] -> decision result = deny /\ eval_policy_id result = None).
Proof.
  intros result. subst result. unfold evaluatePolicy.
  destruct (first_match_split (loadPolicies file) ctx)
    as [Hnone|(before & rule & after & Hload & Hbefore & Hrule)].
  - rewrite (evaluate_loop_no_match _ [] ctx Hnone). cbn.
    split_and!; [lia| |done]. intros rule Hin. inversion Hin.
  - rewrite Hload, (evaluate_loop_first_match before rule after [] ctx Hbefore Hrule).
    cbn. split_and!; [lia| |discriminate].
    intros r ->%list_elem_of_singleton.
    assert (Hin : rule ∈ loadPolicies file).
    { rewrite Hload. apply elem_of_app. right. by left. }
    pose proof (loadPolicies_policy_id file rule Hin).
    split_and!; try done. by rewrite <- Hload.
Qed.

(** The engine answers [allow] exactly when the first rule that matches
    the context sets [allow: true] and sets neither [deny: true] nor
    [require_approval: true]; it never allows when no rule matches or by
    the silence of a rule. *)
Theorem evaluatePolicy_allows_iff (file : PolicyFile) (ctx : PolicyContext) :
  decision (evaluatePolicy file ctx) = allow
  <-> exists before rule after,
        loadPolicies file = before ++ rule :: after
        /\ Forall (fun r => matches r ctx = false) before
        /\ matches rule ctx = true
        /\ then_allow (rule_then rule) = Some true
        /\ then_deny (rule_then rule) <> Some true
        /\ then_require_approval (rule_then rule) <> Some true.
Proof.
  unfold evaluatePolicy. split.
  - destruct (first_match_split (loadPolicies file) ctx)
      as [Hnone|(before & rule & after & Hload & Hbefore & Hrule)].
    + by rewrite (evaluate_loop_no_match _ [] ctx Hnone).
    + rewrite Hload, (evaluate_loop_first_match before rule after [] ctx Hbefore Hrule).
      cbn. unfold decisionFromRule, is_true. intros Hallow.
      exists before, rule, after. split_and!; try done.
      * by destruct (then_deny (rule_then rule)) as [[]|],
          (then_require_approval (rule_then rule)) as [[]|],
          (then_allow (rule_then rule)) as [[]|].
      * by destruct (then_deny (rule_then rule)) as [[]|].
      * by destruct (then_deny (rule_then rule)) as [[]|],
          (then_require_approval (rule_then rule)) as [[]|].
  - intros (before & rule & after & Hload & Hbefore & Hrule & Hallow & Hdeny & Happroval).
    rewrite Hload, (evaluate_loop_first_match before rule after [] ctx Hbefore Hrule).
    cbn. unfold decisionFromRule, is_true. rewrite Hallow.
    by destruct (then_deny (rule_then rule)) as [[]|],
      (then_require_approval (rule_then rule)) as [[]|].
Qed.

End PolicyEngineDecisions.

(** ** Trace integrity, continued *)
Module TraceChains.
Import StableJson StableJsonFacts CanonicalText TraceIntegrity TraceIntegrityFacts.

(** The content of a step that its hash covers is changed: the type, the
    timestamp or the duration is another, or the data are another JSON
    value (more than the creation order of properties differs). *)
Definition content_changed (step step' : TraceStep) : Prop :=
  step_type step' <> step_type step
  \/ timestamp step' <> timestamp step
  \/ durationMs step' <> durationMs step
  \/ ~ same_value (data step') (data step).

Definition trace_of (all : list TraceStep) : AgentTrace :=
  {| trace_id := "trace"; steps := Some all |}.

(** The step with its chain fields set: [prev_step_hash] as given and
    [step_hash] recomputed, the way an adapter signs a step. *)
Definition sign_step (sha256Hex : string -> string) (prev : Nullable) (step : TraceStep)
    : TraceStep :=
  let linked :=
    {| step_type := step_type step; timestamp := timestamp step;
       durationMs := durationMs step; data := data step; step_id := step_id step;
       prev_step_hash := prev; step_hash := None |} in
  {| step_type := step_type step; timestamp := timestamp step;
     durationMs := durationMs step; data := data step; step_id := step_id step;
     prev_step_hash := prev;
     step_hash := Some (computeStepHash sha256Hex linked) |}.

(** Signs the steps in order, each naming the hash of the one before it. *)
Fixpoint sign_chain (sha256Hex : string -> string) (prev : Nullable)
    (contents : list TraceStep) : list TraceStep :=
  match contents with
  | [] => []
  | step :: rest =>
      let signed := sign_step sha256Hex prev step in
      signed :: sign_chain sha256Hex (string_or_null (step_hash signed)) rest
  end.

Section WithDigest.
Variable sha256Hex : string -> string.

Abbreviation verdict := (fun all => status (verifyTraceIntegrity sha256Hex (trace_of all))).

Lemma verdict_cases (all : list TraceStep) :
  all <> [] ->
  verdict all
  = if negb (existsb has_hash all) then unsigned
    else if (0 <? length (verify_loop sha256Hex 0 None [] all))%nat then compromised
         else verified.
Proof.
  intros Hne. unfold verifyTraceIntegrity. cbn [steps trace_of default from_option id].
  replace (Nat.eqb (length all) 0) with false by (by destruct all).
  destruct (negb (existsb has_hash all)); [reflexivity|].
  by destruct (0 <? length (verify_loop sha256Hex 0 None [] all))%nat.
Qed.

Lemma reconciles_has_hash (all : list TraceStep) :
  all <> [] -> chain_reconciles sha256Hex all -> existsb has_hash all = true.
Proof.
  intros Hne Hok. destruct all as [|first rest]; [done|].
  destruct (Hok 0 first eq_refl) as [Hhash _]. cbn. by rewrite Hhash.
Qed.

Lemma verdict_verified_iff (all : list TraceStep) :
  verdict all = verified <-> all <> [] /\ chain_reconciles sha256Hex all.
Proof.
  destruct (decide (all = [])) as [->|Hne].
  { cbn. split; [discriminate|]. by intros [? _]. }
  rewrite (verdict_cases all Hne), <- loop_clean_iff_reconciles.
  destruct (existsb has_hash all) eqn:Hany; cbn [negb].
  - destruct (verify_loop sha256Hex 0 None [] all) as [|f fs]; cbn.
    + by split.
    + split; [discriminate|]. by intros [_ ?].
  - split; [discriminate|]. intros [_ Hok%loop_clean_iff_reconciles].
    apply (reconciles_has_hash all Hne) in Hok. congruence.
Qed.

Lemma verdict_compromised_iff (all : list TraceStep) :
  verdict all = compromised
  <-> existsb has_hash all = true /\ ~ chain_reconciles sha256Hex all.
Proof.
  destruct (decide (all = [])) as [->|Hne].
  { cbn. split; [discriminate|]. by intros [? _]. }
  rewrite (verdict_cases all Hne), <- loop_clean_iff_reconciles.
  destruct (existsb has_hash all) eqn:Hany; cbn [negb].
  - destruct (verify_loop sha256Hex 0 None [] all) as [|f fs]; cbn.
    + split; [discriminate|]. by intros [_ ?].
    + by split.
  - split; [discriminate|]. by intros [? _].
Qed.

Lemma has_hash_text (step : TraceStep) :
  has_hash step = true -> exists h, step_hash step = Some h /\ h <> "".
Proof.
  unfold has_hash, PolicyEngine.truthy. destruct (step_hash step) as [h|]; [|discriminate].
  intros Hh%negb_true_iff%String.eqb_neq. eauto.
Qed.

(** Cutting the tail off a verified trace leaves a verified trace: the
    chain does not show that later steps are missing. *)
Theorem verified_prefix (all : list TraceStep) (n : nat) :
  verdict all = verified -> (0 < n)%nat -> verdict (take n all) = verified.
Proof.
  rewrite !verdict_verified_iff. intros [Hne Hok] Hn. split.
  - destruct all, n; try done; lia.
  - intros i step Hi. apply lookup_take_Some in Hi as [Hi Hlt].
    destruct (Hok i step Hi) as (H1 & H2 & H3). split_and!; try done.
    rewrite H3. destruct i as [|j]; [reflexivity|]. cbn [expected_prev].
    by rewrite lookup_take_lt by lia.
Qed.

(** Cutting steps off the front of a verified trace is detected: what is
    left is compromised. *)
Theorem verified_without_front (all : list TraceStep) (k : nat) :
  verdict all = verified -> (0 < k < length all)%nat ->
  verdict (drop k all) = compromised.
Proof.
  rewrite verdict_verified_iff, verdict_compromised_iff. intros [_ Hok] [Hk Hlen].
  destruct (lookup_lt_is_Some_2 all k Hlen) as [step Hstep].
  destruct (Hok k step Hstep) as (Hhash & _ & Hprev).
  assert (Hfirst : drop k all !! 0 = Some step) by (by rewrite lookup_drop, Nat.add_0_r).
  destruct (drop k all) as [|first rest] eqn:Hdrop; [discriminate|].
  injection Hfirst as ->. split.
  - cbn. by rewrite Hhash.
  - intros Hok'. destruct (Hok' 0 step eq_refl) as (_ & _ & Hnull).
    cbn [expected_prev] in Hnull. rewrite Hnull in Hprev.
    destruct k as [|j]; [lia|]. cbn [expected_prev] in Hprev.
    destruct (lookup_lt_is_Some_2 all j) as [before Hbefore]; [lia|].
    rewrite Hbefore in Hprev.
    destruct (Hok j before Hbefore) as (Hbh & _ & _). rewrite Hbh in Hprev.
    apply has_hash_text in Hbh as (h & Hh & _). rewrite Hh in Hprev. discriminate.
Qed.

Lemma changed_hash_detected (all : list TraceStep) (i : nat)
    (step step' : TraceStep) :
  verdict all = verified ->
  all !! i = Some step ->
  step_hash step' = step_hash step ->
  computeStepHash sha256Hex step' <> computeStepHash sha256Hex step ->
  verdict (<[i := step']> all) = compromised.
Proof.
  rewrite verdict_verified_iff, verdict_compromised_iff.
  intros [_ Hok] Hstep Hkeep Hchanged.
  destruct (Hok i step Hstep) as (Hhash & Hsum & _).
  assert (Hi : <[i := step']> all !! i = Some step').
  { apply list_lookup_insert_eq. by apply lookup_lt_Some in Hstep. }
  split.
  - apply existsb_exists. exists step'. split.
    + apply list_elem_of_In. by apply list_elem_of_lookup_2 in Hi.
    + unfold has_hash in *. by rewrite Hkeep.
  - intros Hok'. destruct (Hok' i step' Hi) as (_ & Hsum' & _). congruence.
Qed.

Lemma buildStepPayload_well_formed (step : TraceStep) :
  well_formed (data step) -> well_formed (buildStepPayload step).
Proof.
  intros Hdata. constructor.
  - cbn [buildStepPayload map fst]. compute_done.
  - unfold buildStepPayload. repeat (constructor; cbn [snd]); try done.
    + destruct (PolicyEngine.truthy _); constructor.
    + destruct (prev_step_hash step); constructor.
Qed.

Lemma buildStepPayload_proto_free (step : TraceStep) :
  proto_free (data step) -> proto_free (buildStepPayload step).
Proof.
  intros Hdata. constructor. unfold buildStepPayload.
  repeat (constructor; cbn [fst snd]); try done.
  - destruct (PolicyEngine.truthy _); constructor.
  - destruct (prev_step_hash step); constructor.
Qed.

Lemma content_changed_payload (step step' : TraceStep) :
  content_changed step step' ->
  ~ same_value (buildStepPayload step') (buildStepPayload step).
Proof.
  intros Hchanged Hsame. inversion Hsame as [| | | | |ps qs Hprops]; subst.
  destruct Hchanged as [Htype|[Htime|[Hduration|Hdata]]].
  - specialize (Hprops "type"). cbn in Hprops.
    inversion Hprops as [x y Hxy|]; subst. by inversion Hxy.
  - specialize (Hprops "timestamp"). cbn in Hprops.
    inversion Hprops as [x y Hxy|]; subst. by inversion Hxy.
  - specialize (Hprops "durationMs"). cbn in Hprops.
    inversion Hprops as [x y Hxy|]; subst. by inversion Hxy.
  - specialize (Hprops "data"). cbn in Hprops.
    by inversion Hprops as [x y Hxy|]; subst.
Qed.


Lemma sign_step_reconciles prev step :
  has_hash (sign_step sha256Hex prev step) = true
  /\ step_hash (sign_step sha256Hex prev step)
     = Some (computeStepHash sha256Hex (sign_step sha256Hex prev step))
  /\ prev_step_hash (sign_step sha256Hex prev step) = prev.
Proof. by split_and!. Qed.

Lemma sign_chain_clean (contents : list TraceStep) :
  forall i prevHash,
    verify_loop sha256Hex i prevHash []
      (sign_chain sha256Hex (string_or_null (if Nat.eqb i 0 then None else prevHash))
         contents) = [].
Proof.
  induction contents as [|step rest IH]; intros i prevHash; [reflexivity|].
  cbn [sign_chain verify_loop].
  destruct (sign_step_reconciles (string_or_null (if Nat.eqb i 0 then None else prevHash))
              step) as (Hhash & Hsum & Hprev).
  rewrite Hhash. cbn [negb].
  rewrite (bool_decide_eq_true_2 (prev_step_hash _ = _) Hprev).
  rewrite (bool_decide_eq_true_2 (Some _ = step_hash _) (eq_sym Hsum)).
  cbn [negb]. apply (IH (S i)).
Qed.

(** A chain signed step by step verifies, whatever the steps hold: every
    non-empty sequence of steps has hashes under which it is [verified]. *)
Theorem signed_chain_verifies (first : TraceStep) (rest : list TraceStep) :
  verifyTraceIntegrity sha256Hex (trace_of (sign_chain sha256Hex Null (first :: rest)))
  = {| status := verified; failures := [] |}.
Proof.
  unfold verifyTraceIntegrity. cbn [steps trace_of default from_option id].
  pose proof (sign_chain_clean (first :: rest) 0 None) as Hclean.
  cbn [Nat.eqb string_or_null] in Hclean. rewrite Hclean.
  cbn [sign_chain length Nat.eqb existsb].
  destruct (sign_step_reconciles Null first) as (Hhash & _ & _).
  by rewrite Hhash.
Qed.

End WithDigest.

Lemma verified_prefix_witness :
  status (verifyTraceIntegrity toy_sha256Hex (trace_of (take 1 [step1; step2]))) = verified.
Proof.
  apply (verified_prefix toy_sha256Hex [step1; step2] 1).
  - vm_compute. reflexivity.
  - lia.
Defined.

Lemma verified_without_front_witness :
  status (verifyTraceIntegrity toy_sha256Hex (trace_of (drop 1 [step1; step2])))
  = compromised.
Proof.
  apply (verified_without_front toy_sha256Hex [step1; step2] 1).
  - vm_compute. reflexivity.
  - simpl. lia.
Defined.


End TraceChains.

(** ** Tenant contexts built by the module *)

Module TenantExtraction.
Import StableJson Outcome TenantContext.

(** The system context is refused by none of the five authorization
    helpers, whatever the tool, model, skill, cost or token count, and its
    workspace is the tenant itself unless a non-empty workspace is given. *)
Theorem createSystemTenantContext_unrestricted
    (tenant : string) (workspace : option string)
    (tool model skill : string) (cost : option Q) (tokenCount : Q) :
  let context := createSystemTenantContext tenant workspace in
  canUseTool context tool = true
  /\ canUseModel context model = true
  /\ canUseSkill context skill = true
  /\ hasBudget context cost = true
  /\ withinTokenLimit context tokenCount = true
  /\ tenantId context = tenant
  /\ workspaceId context
     = match workspace with
       | Some w => if String.eqb w "" then tenant else w
       | None => tenant
       end.
Proof.
  cbn zeta. split_and!; try reflexivity.
  destruct workspace as [w|]; [|reflexivity].
  unfold createSystemTenantContext, PolicyEngine.truthy. cbn [workspaceId].
  by destruct (String.eqb w "").
Qed.

Section WithSchema.
Variable safeParse : Js.Obj JsonValue -> option TenantJWTPayload.

(** The three ways [extractTenantFromPayload] ends.  It throws, always
    with [missing_tenant], exactly when the payload fails the schema and
    neither [tenant_id] nor [tid] is truthy; a payload that passes the schema
    gives a context whose tenant is the validated [tenant_id]; a payload that
    fails the schema but has a truthy [tenant_id] or [tid] is still accepted,
    with that (unvalidated) value as the tenant. *)
Theorem extractTenantFromPayload_cases (payload : Js.Obj JsonValue) :
  match extractTenantFromPayload safeParse payload with
  | Throw code =>
      code = missing_tenant
      /\ safeParse payload = None
      /\ js_truthy (Js.get payload "tenant_id") = false
      /\ js_truthy (Js.get payload "tid") = false
  | Return (Validated context) =>
      exists data, safeParse payload = Some data
                   /\ tenantId context = claim_tenant_id data
                   /\ raw context = payload
  | Return (Unchecked context) =>
      safeParse payload = None
      /\ js_truthy (unchecked_tenantId context) = true
      /\ unchecked_tenantId context
         = (if js_truthy (Js.get payload "tenant_id")
            then Js.get payload "tenant_id" else Js.get payload "tid")
      /\ unchecked_raw context = payload
  end.
Proof.
  unfold extractTenantFromPayload.
  destruct (safeParse payload) as [data|] eqn:Hparse.
  - by exists data.
  - unfold js_or.
    destruct (js_truthy (Js.get payload "tenant_id")) eqn:Htenant.
    + rewrite Htenant. cbn [negb unchecked_tenantId unchecked_raw]. by rewrite Htenant.
    + destruct (js_truthy (Js.get payload "tid")) eqn:Htid;
        cbn [negb unchecked_tenantId unchecked_raw]; by rewrite ?Htid.
Qed.

(** What a validated payload is allowed.  The tools are those of
    [allowed_tools], so a token without that claim may use no tool at all,
    whereas a token without [allowed_models], [allowed_skills],
    [budget_remaining] or [max_tokens] is not limited in that respect. *)
Theorem extractTenantFromPayload_validated_permissions
    (payload : Js.Obj JsonValue) (data : TenantJWTPayload)
    (Hparse : safeParse payload = Some data) :
  exists context,
    extractTenantFromPayload safeParse payload = Return (Validated context)
    /\ (forall tool,
          canUseTool context tool = true
          <-> exists allowed, claim_allowed_tools data = Some allowed
                              /\ ("*" ∈ allowed \/ tool ∈ allowed))
    /\ (claim_allowed_models data = None -> forall model, canUseModel context model = true)
    /\ (claim_allowed_skills data = None -> forall skill, canUseSkill context skill = true)
    /\ (claim_budget_remaining data = None -> forall cost, hasBudget context cost = true)
    /\ (claim_max_tokens data = None ->
        forall tokenCount, withinTokenLimit context tokenCount = true).
Proof.
  unfold extractTenantFromPayload. rewrite Hparse. eexists. split; [reflexivity|].
  split_and!.
  - intros tool. unfold canUseTool. cbn [permissions tools].
    destruct (claim_allowed_tools data) as [allowed|]; cbn [default from_option id].
    + destruct (includes allowed "*") eqn:Hstar.
      * split; [|done]. intros _. exists allowed. split; [done|].
        left. by apply TenantContextFacts.includes_elem_of.
      * rewrite TenantContextFacts.includes_elem_of. split.
        -- intros Hin. exists allowed. by split; [|right].
        -- intros (allowed' & [= <-] & [Hin | Hin]); [|done].
           apply TenantContextFacts.includes_elem_of in Hin. congruence.
    + split; [done|]. by intros (allowed & Hsome & _).
  - intros Hnone model. unfold canUseModel. cbn [permissions allowedModels].
    by rewrite Hnone.
  - intros Hnone skill. unfold canUseSkill. cbn [permissions allowedSkills].
    by rewrite Hnone.
  - intros Hnone cost. unfold hasBudget. cbn [permissions budgetRemaining].
    by rewrite Hnone.
  - intros Hnone tokenCount. unfold withinTokenLimit. cbn [permissions maxTokens].
    by rewrite Hnone.
Qed.

End WithSchema.

(** A schema that accepts every payload as the one of a token for tenant
    [acme] allowed the tool [read_ticket]. *)
Definition acme_claims : TenantJWTPayload :=
  {| claim_sub := None; claim_iss := None; claim_aud := None; claim_exp := None;
     claim_iat := None; claim_tenant_id := "acme"; claim_workspace_id := None;
     claim_user_id := None; claim_agent_role := None; claim_type := None;
     claim_allowed_tools := Some ["read_ticket"]; claim_max_tokens := None;
     claim_budget_remaining := None; claim_allowed_models := None;
     claim_allowed_skills := None |}.

Definition acme_payload : Js.Obj JsonValue :=
  [("tenant_id", JString "acme"); ("allowed_tools", JArray [JString "read_ticket"])].

Definition acme_safeParse (payload : Js.Obj JsonValue) : option TenantJWTPayload :=
  match Js.get payload "tenant_id" with
  | Some (JString "acme") => Some acme_claims
  | _ => None
  end.

Lemma extractTenantFromPayload_validated_permissions_witness :
  exists context,
    extractTenantFromPayload acme_safeParse acme_payload = Return (Validated context)
    /\ (forall tool,
          canUseTool context tool = true
          <-> exists allowed, claim_allowed_tools acme_claims = Some allowed
                              /\ ("*" ∈ allowed \/ tool ∈ allowed))
    /\ (claim_allowed_models acme_claims = None ->
        forall model, canUseModel context model = true)
    /\ (claim_allowed_skills acme_claims = None ->
        forall skill, canUseSkill context skill = true)
    /\ (claim_budget_remaining acme_claims = None ->
        forall cost, hasBudget context cost = true)
    /\ (claim_max_tokens acme_claims = None ->
        forall tokenCount, withinTokenLimit context tokenCount = true).
Proof.
  apply (extractTenantFromPayload_validated_permissions acme_safeParse acme_payload).
  reflexivity.
Defined.

End TenantExtraction.

(** ** The adapter registry *)

Module AdapterRegistryFacts.
Import StableJson Outcome AdapterRegistry.

(** The columns of the unique index. *)
Definition key (row : AdapterRow.t) : string * string * string :=
  (AdapterRow.tenant_id row, AdapterRow.adapter_id row, AdapterRow.version row).

(** The columns a telemetry key is read from. *)
Definition telemetry (row : AdapterRow.t)
    : option string * option string * option string * option string * option string :=
  (AdapterRow.telemetry_key_alg row, AdapterRow.telemetry_public_jwk row,
   AdapterRow.telemetry_key_id row, AdapterRow.telemetry_key_created_at row,
   AdapterRow.telemetry_key_revoked_at row).

(** The table after an [UPDATE]. *)
Definition updated (selected : AdapterRow.t -> bool) (set : AdapterRow.t -> AdapterRow.t)
    (table : Table) : Table :=
  map (fun row => if selected row then set row else row) table.

Lemma where_adapter_key (t a : string) (row row' : AdapterRow.t) :
  key row' = key row -> where_adapter t a row' = where_adapter t a row.
Proof. unfold key, where_adapter. by intros [= -> -> _]. Qed.

Lemma where_version_key (t a v : string) (row row' : AdapterRow.t) :
  key row' = key row -> where_version t a v row' = where_version t a v row.
Proof. unfold key, where_version, where_adapter. by intros [= -> -> ->]. Qed.

Lemma where_key (t a : string) (version : option string) (row row' : AdapterRow.t) :
  key row' = key row -> where_ t a version row' = where_ t a version row.
Proof.
  unfold where_. destruct (PolicyEngine.truthy version);
    [apply where_version_key | apply where_adapter_key].
Qed.

Lemma where_version_adapter (t a v : string) (row : AdapterRow.t) :
  where_version t a v row = true -> where_adapter t a row = true.
Proof. unfold where_version. by intros [? _]%andb_true_iff. Qed.

Lemma where_is_adapter (t a : string) (version : option string) (row : AdapterRow.t) :
  where_ t a version row = true -> where_adapter t a row = true.
Proof.
  unfold where_. destruct (PolicyEngine.truthy version); [apply where_version_adapter | done].
Qed.

Lemma where_adapter_tenant (t a : string) (row : AdapterRow.t) :
  where_adapter t a row = true -> AdapterRow.tenant_id row = t.
Proof. unfold where_adapter. by intros [?%String.eqb_eq _]%andb_true_iff. Qed.

Lemma where_version_iff (t a v : string) (row : AdapterRow.t) :
  where_version t a v row = true <-> key row = (t, a, v).
Proof.
  unfold where_version, where_adapter, key.
  rewrite !andb_true_iff, !String.eqb_eq. split.
  - by intros [[-> ->] ->].
  - by intros [= -> -> ->].
Qed.

Lemma find_map_same {A} (Q : A -> bool) (g : A -> A) (l : list A) :
  (forall x, Q (g x) = Q x) -> List.find Q (map g l) = option_map g (List.find Q l).
Proof.
  intros Hg. induction l as [|x l IH]; [done|].
  cbn [map List.find]. rewrite Hg. by destruct (Q x).
Qed.

Lemma filter_map_fixed {A} (Q : A -> bool) (g : A -> A) (l : list A) :
  (forall x, Q (g x) = Q x) -> (forall x, Q x = true -> g x = x) ->
  List.filter Q (map g l) = List.filter Q l.
Proof.
  intros Hg Hfix. induction l as [|x l IH]; [done|].
  cbn [map List.filter]. rewrite Hg, IH.
  destruct (Q x) eqn:HQ; [by rewrite Hfix|done].
Qed.

Lemma find_app_last {A} (Q : A -> bool) (l : list A) (x : A) :
  List.find Q (l ++ [x])
  = match List.find Q l with Some y => Some y | None => if Q x then Some x else None end.
Proof.
  induction l as [|y l IH]; [done|].
  cbn [app List.find]. by destruct (Q y).
Qed.

Lemma filter_nil_existsb {A} (Q : A -> bool) (l : list A) :
  Nat.eqb (length (List.filter Q l)) 0 = negb (existsb Q l).
Proof.
  induction l as [|x l IH]; [done|].
  cbn [List.filter existsb]. by destruct (Q x).
Qed.

Lemma existsb_find {A} (Q : A -> bool) (l : list A) :
  existsb Q l = true -> exists x, List.find Q l = Some x /\ Q x = true.
Proof.
  induction l as [|x l IH]; [done|].
  cbn [existsb List.find]. destruct (Q x) eqn:HQ; [by exists x | done].
Qed.

Lemma map_key_updated (selected : AdapterRow.t -> bool) (set : AdapterRow.t -> AdapterRow.t)
    (table : Table) :
  (forall row, key (set row) = key row) ->
  map key (updated selected set table) = map key table.
Proof.
  intros Hset. unfold updated. rewrite map_map. apply map_ext.
  intros row. by destruct (selected row).
Qed.

Lemma updated_none (selected : AdapterRow.t -> bool) (set : AdapterRow.t -> AdapterRow.t)
    (table : Table) :
  existsb selected table = false -> updated selected set table = table.
Proof.
  induction table as [|row table IH]; [done|].
  cbn [existsb]. intros [Hrow Hrest]%orb_false_iff.
  unfold updated in *. cbn [map]. by rewrite Hrow, IH.
Qed.

Section WithRuntime.
Variable JSON_parse : string -> Outcome.t Error JsonValue.
Variable first_of_equal : AdapterRow.t -> AdapterRow.t -> bool.

Abbreviation get := (AdapterRegistry.get JSON_parse first_of_equal).
Abbreviation register := (AdapterRegistry.register JSON_parse first_of_equal).
Abbreviation setTelemetryKey := (AdapterRegistry.setTelemetryKey JSON_parse first_of_equal).
Abbreviation revokeTelemetryKey :=
  (AdapterRegistry.revokeTelemetryKey JSON_parse first_of_equal).
Abbreviation getActiveTelemetryKey :=
  (AdapterRegistry.getActiveTelemetryKey JSON_parse first_of_equal).
Abbreviation latest := (sql_latest first_of_equal).

(** The row a call of [get] reads. *)
Definition selected_row (table : Table) (t a : string) (version : option string)
    : option AdapterRow.t :=
  if PolicyEngine.truthy version
  then List.find (where_version t a (default "" version)) table
  else latest (List.filter (where_adapter t a) table).

(** The key [getActiveTelemetryKey] makes of the row [get] reads. *)
Definition active_key (row : AdapterRow.t) : Outcome.t Error (option ActiveTelemetryKey) :=
  match rowToRecord JSON_parse row with
  | Throw e => Throw e
  | Return record =>
      if negb (ToBoolean (AdapterRecord.telemetry_public_jwk record))
         || PolicyEngine.truthy (AdapterRecord.telemetry_key_revoked_at record)
      then Return None
      else if negb (PolicyEngine.truthy (AdapterRecord.telemetry_key_alg record))
      then Return None
      else
        Return (Some
          {| keyAlg := default "" (AdapterRecord.telemetry_key_alg record);
             publicJwk := AdapterRecord.telemetry_public_jwk record;
             keyId := AdapterRecord.telemetry_key_id record;
             createdAt := AdapterRecord.telemetry_key_created_at record |})
  end.

Lemma get_selected_row (table : Table) (t a : string) (version : option string) :
  get table t a version
  = match selected_row table t a version with
    | Some row =>
        match rowToRecord JSON_parse row with
        | Return record => Return (Some record)
        | Throw e => Throw e
        end
    | None => Return None
    end.
Proof. reflexivity. Qed.

Lemma getActiveTelemetryKey_selected_row (table : Table) (t a : string)
    (version : option string) :
  getActiveTelemetryKey table t a version
  = match selected_row table t a version with
    | Some row => active_key row
    | None => Return None
    end.
Proof.
  unfold AdapterRegistry.getActiveTelemetryKey. rewrite get_selected_row.
  destruct (selected_row table t a version) as [row|]; [|done].
  unfold active_key. by destruct (rowToRecord JSON_parse row).
Qed.

Lemma latest_elem_of (rows : list AdapterRow.t) (row : AdapterRow.t) :
  latest rows = Some row -> In row rows.
Proof.
  revert row. induction rows as [|first rest IH]; [done|].
  intros row. cbn [sql_latest].
  destruct (latest rest) as [other|].
  - destruct (String.compare _ _); [destruct (first_of_equal first other)| |];
      intros [= <-]; (by left) || (right; by apply IH).
  - intros [= <-]. by left.
Qed.

Lemma latest_None (rows : list AdapterRow.t) : latest rows = None -> rows = [].
Proof.
  destruct rows as [|first rest]; [done|]. cbn [sql_latest].
  destruct (latest rest) as [other|]; [|done].
  by destruct (String.compare _ _); [destruct (first_of_equal first other)| |].
Qed.

Lemma selected_row_where (table : Table) (t a : string) (version : option string)
    (row : AdapterRow.t) :
  selected_row table t a version = Some row ->
  In row table /\ where_ t a version row = true.
Proof.
  unfold selected_row, where_. destruct (PolicyEngine.truthy version).
  - intros Hfind. by apply find_some in Hfind.
  - intros Hlatest%latest_elem_of. by apply filter_In in Hlatest.
Qed.

Lemma selected_row_None (table : Table) (t a : string) (version : option string) :
  selected_row table t a version = None -> existsb (where_ t a version) table = false.
Proof.
  unfold selected_row, where_. destruct (PolicyEngine.truthy version).
  - intros Hfind. apply not_true_is_false. intros (row & Hin & Hrow)%existsb_exists.
    by eapply find_none in Hfind; [rewrite Hfind in Hrow|].
  - intros Hnil%latest_None. apply not_true_is_false.
    intros (row & Hin & Hrow)%existsb_exists.
    assert (In row (List.filter (where_adapter t a) table)) as Hfiltered
      by by apply filter_In.
    by rewrite Hnil in Hfiltered.
Qed.

Lemma active_key_ext (row row' : AdapterRow.t) :
  AdapterRow.capabilities row' = AdapterRow.capabilities row ->
  telemetry row' = telemetry row ->
  active_key row' = active_key row.
Proof.
  unfold telemetry, active_key, rowToRecord. intros -> [= -> -> -> -> ->].
  destruct (JSON_parse (if negb _ then _ else _)); [|done].
  by destruct (if PolicyEngine.truthy _ then _ else _).
Qed.

Lemma selected_row_updated (selected : AdapterRow.t -> bool)
    (set : AdapterRow.t -> AdapterRow.t) (table : Table) (t a : string)
    (version : option string) :
  PolicyEngine.truthy version = true ->
  (forall row, key (set row) = key row) ->
  selected_row (updated selected set table) t a version
  = option_map (fun row => if selected row then set row else row)
      (selected_row table t a version).
Proof.
  intros Htruthy Hkey. unfold selected_row, updated. rewrite Htruthy.
  apply find_map_same. intros row. destruct (selected row); [|done].
  by apply where_version_key.
Qed.

Lemma selected_row_other_tenant (selected : AdapterRow.t -> bool)
    (set : AdapterRow.t -> AdapterRow.t) (table : Table) (t t' a' : string)
    (version' : option string) :
  t' <> t ->
  (forall row, key (set row) = key row) ->
  (forall row, selected row = true -> AdapterRow.tenant_id row = t) ->
  selected_row (updated selected set table) t' a' version'
  = selected_row table t' a' version'.
Proof.
  intros Hother Hkey Htenant.
  assert (forall row, where_adapter t' a' row = true ->
                      (if selected row then set row else row) = row) as Hfixed.
  { intros row Hrow%where_adapter_tenant. destruct (selected row) eqn:Hsel; [|done].
    apply Htenant in Hsel. congruence. }
  unfold selected_row, updated. destruct (PolicyEngine.truthy version').
  - rewrite find_map_same.
    + destruct (List.find _ table) as [row|] eqn:Hfind; [|done].
      apply find_some in Hfind as [_ Hrow%where_version_adapter].
      cbn [option_map]. by rewrite Hfixed.
    + intros row. destruct (selected row); [|done]. by apply where_version_key.
  - rewrite filter_map_fixed; [done| |done].
    intros row. destruct (selected row); [|done]. by apply where_adapter_key.
Qed.

Lemma existsb_updated (Q selected : AdapterRow.t -> bool)
    (set : AdapterRow.t -> AdapterRow.t) (table : Table) :
  (forall row, Q (set row) = Q row) ->
  existsb Q (updated selected set table) = existsb Q table.
Proof.
  intros Hset. induction table as [|row table IH]; [done|].
  unfold updated in *. cbn [map existsb]. rewrite IH.
  destruct (selected row); by rewrite ?Hset.
Qed.

Lemma setTelemetryKey_table (table : Table) (now t a : string) (version : option string)
    (keyAlg : string) (publicJwk : Js.Obj JsonValue) (keyId : option string) :
  exists set,
    (setTelemetryKey table now t a version keyAlg publicJwk keyId).2
    = updated (where_ t a version) set table
    /\ (forall row, key (set row) = key row)
    /\ (forall row, AdapterRow.capabilities (set row) = AdapterRow.capabilities row)
    /\ (forall row,
          telemetry (set row)
          = (Some keyAlg, Some (JSON_stringify (JObject publicJwk)),
             or_undefined keyId, Some now, None)).
Proof.
  eexists. split.
  - unfold AdapterRegistry.setTelemetryKey, sql_update, updated.
    by destruct (Nat.eqb _ 0).
  - by split_and!.
Qed.

Lemma revokeTelemetryKey_table (table : Table) (now t a : string)
    (version : option string) :
  exists set,
    (revokeTelemetryKey table now t a version).2 = updated (where_ t a version) set table
    /\ (forall row, key (set row) = key row)
    /\ (forall row, AdapterRow.telemetry_key_revoked_at (set row) = Some now).
Proof.
  eexists. split.
  - unfold AdapterRegistry.revokeTelemetryKey, sql_update, updated.
    by destruct (Nat.eqb _ 0).
  - by split_and!.
Qed.

Lemma disable_table (table : Table) (now t a : string) (version : option string) :
  exists set,
    (disable table now t a version).2 = updated (where_ t a version) set table
    /\ (forall row, key (set row) = key row)
    /\ (forall row, AdapterRow.capabilities (set row) = AdapterRow.capabilities row)
    /\ (forall row, telemetry (set row) = telemetry row).
Proof.
  eexists. split; [reflexivity|]. by split_and!.
Qed.

(** Revocation is effective.  After [revokeTelemetryKey], no lookup of a
    version the call covered yields an active key: the version given, or,
    when none was given, every version of the adapter and the lookup
    without a version too. *)
Theorem revokeTelemetryKey_revokes (table : Table) (now t a : string)
    (version version' : option string) (active : ActiveTelemetryKey)
    (Hnow : now <> "")
    (Hcovered : PolicyEngine.truthy version = false \/ version' = version) :
  getActiveTelemetryKey (revokeTelemetryKey table now t a version).2 t a version'
  <> Return (Some active).
Proof.
  destruct (revokeTelemetryKey_table table now t a version) as (set & -> & Hkey & Hrevoked).
  rewrite getActiveTelemetryKey_selected_row.
  destruct (selected_row _ t a version') as [row|] eqn:Hselected; [|done].
  apply selected_row_where in Hselected as [Hin Hrow].
  unfold updated in Hin. apply in_map_iff in Hin as (old & <- & _).
  destruct (where_ t a version old) eqn:Hold.
  - unfold active_key, rowToRecord.
    destruct (JSON_parse (if negb _ then _ else _)); [|done].
    destruct (if PolicyEngine.truthy _ then _ else _); [|done].
    cbn [AdapterRecord.telemetry_key_revoked_at AdapterRecord.telemetry_public_jwk].
    rewrite Hrevoked. unfold PolicyEngine.truthy at 1.
    destruct (String.eqb_spec now "") as [|_]; [done|].
    cbn [negb]. by rewrite orb_true_r.
  - destruct Hcovered as [Hfalsy | ->]; [|congruence].
    apply where_is_adapter in Hrow. unfold where_ in Hold.
    rewrite Hfalsy in Hold. congruence.
Qed.

(** Disabling an adapter does not touch its telemetry key: a lookup of
    the key by version gives after [disable] what it gave before, for every
    tenant, adapter and version. *)
Theorem disable_keeps_telemetry_key (table : Table) (now t a : string)
    (version : option string) (t' a' v' : string)
    (Hversion : v' <> "") :
  getActiveTelemetryKey (disable table now t a version).2 t' a' (Some v')
  = getActiveTelemetryKey table t' a' (Some v').
Proof.
  destruct (disable_table table now t a version) as (set & -> & Hkey & Hcaps & Htel).
  rewrite !getActiveTelemetryKey_selected_row, selected_row_updated; [|  |done].
  - destruct (selected_row table t' a' (Some v')) as [row|]; [|done].
    cbn [option_map]. destruct (where_ t a version row); [|done].
    by apply active_key_ext.
  - cbn [PolicyEngine.truthy]. by destruct (String.eqb_spec v' "").
Qed.

(** The text [register] stores for the capabilities. *)
Definition capabilities_text (registration : AdapterRegistration.t) : string :=
  JSON_stringify (JArray (map JString (AdapterRegistration.capabilities registration))).

Lemma register_table (table : Table) (now t : string)
    (registration : AdapterRegistration.t) :
  exists row set,
    (register table now t registration).2 = sql_upsert row set table
    /\ key row
       = (t, AdapterRegistration.adapter_id registration,
          AdapterRegistration.version registration)
    /\ AdapterRow.capabilities row = capabilities_text registration
    /\ telemetry row = (None, None, None, None, None)
    /\ AdapterRow.display_name row = AdapterRegistration.display_name registration
    /\ AdapterRow.risk_class row = AdapterRegistration.risk_class registration
    /\ AdapterRow.enabled row
       = (if AdapterRegistration.enabled registration then 1%Z else 0%Z)
    /\ AdapterRow.updated_at row = now
    /\ (forall old, key (set old) = key old)
    /\ (forall old, AdapterRow.capabilities (set old) = capabilities_text registration)
    /\ (forall old, telemetry (set old) = telemetry old)
    /\ (forall old, AdapterRow.display_name (set old)
                    = AdapterRegistration.display_name registration)
    /\ (forall old, AdapterRow.risk_class (set old)
                    = AdapterRegistration.risk_class registration)
    /\ (forall old, AdapterRow.enabled (set old)
                    = (if AdapterRegistration.enabled registration then 1%Z else 0%Z))
    /\ (forall old, AdapterRow.updated_at (set old) = now).
Proof.
  do 2 eexists. split; [reflexivity|]. by split_and!.
Qed.

Lemma capabilities_text_truthy (registration : AdapterRegistration.t) :
  negb (String.eqb (capabilities_text registration) "") = true.
Proof. reflexivity. Qed.

Lemma jwk_text_truthy (publicJwk : Js.Obj JsonValue) :
  PolicyEngine.truthy (Some (JSON_stringify (JObject publicJwk))) = true.
Proof. reflexivity. Qed.

Lemma truthy_Some (text : string) : text <> "" -> PolicyEngine.truthy (Some text) = true.
Proof. intros Htext. cbn [PolicyEngine.truthy]. by destruct (String.eqb_spec text ""). Qed.

(** A key that is set is the active one.  When the adapter version is
    registered, [setTelemetryKey] for it makes [getActiveTelemetryKey]
    return that key, created at the time of the call, also when a revoked
    key was stored before. *)
Theorem setTelemetryKey_activates (table : Table) (now t a v keyAlg : string)
    (publicJwk : Js.Obj JsonValue) (keyId : option string)
    (row : AdapterRow.t) (capabilities parsed : JsonValue)
    (Hversion : v <> "")
    (Halg : keyAlg <> "")
    (Hregistered : List.find (where_version t a v) table = Some row)
    (Hcapabilities :
       JSON_parse (if negb (String.eqb (AdapterRow.capabilities row) "")
                   then AdapterRow.capabilities row else "[]")
       = Return capabilities)
    (Hparsed : JSON_parse (JSON_stringify (JObject publicJwk)) = Return parsed)
    (Hobject : ToBoolean parsed = true) :
  getActiveTelemetryKey
    (setTelemetryKey table now t a (Some v) keyAlg publicJwk keyId).2 t a (Some v)
  = Return (Some {| keyAlg := keyAlg; publicJwk := parsed;
                    keyId := or_undefined keyId; createdAt := Some now |}).
Proof.
  destruct (setTelemetryKey_table table now t a (Some v) keyAlg publicJwk keyId)
    as (set & -> & Hkey & Hcaps & Htel).
  pose proof (truthy_Some v Hversion) as Htruthy.
  rewrite getActiveTelemetryKey_selected_row, selected_row_updated by done.
  unfold selected_row, where_. rewrite Htruthy. cbn [default from_option id].
  rewrite Hregistered. cbn [option_map].
  apply find_some in Hregistered as [_ ->].
  specialize (Htel row). specialize (Hcaps row).
  pose proof (f_equal (fun columns => columns.1.1.1.1) Htel) as Halg'.
  pose proof (f_equal (fun columns => columns.1.1.1.2) Htel) as Hjwk.
  pose proof (f_equal (fun columns => columns.1.1.2) Htel) as Hid.
  pose proof (f_equal (fun columns => columns.1.2) Htel) as Hcreated.
  pose proof (f_equal (fun columns => columns.2) Htel) as Hrevoked.
  cbn [telemetry fst snd] in Halg', Hjwk, Hid, Hcreated, Hrevoked.
  unfold active_key, rowToRecord.
  rewrite Hcaps, Hcapabilities, Hjwk, jwk_text_truthy.
  cbn [default from_option id]. rewrite Hparsed.
  cbn [AdapterRecord.telemetry_public_jwk AdapterRecord.telemetry_key_revoked_at
       AdapterRecord.telemetry_key_alg AdapterRecord.telemetry_key_id
       AdapterRecord.telemetry_key_created_at].
  rewrite Hobject, Hrevoked, Halg', Hid, Hcreated, (truthy_Some keyAlg Halg).
  reflexivity.
Qed.

Lemma active_key_reregistered (row row' : AdapterRow.t) (capabilities : JsonValue)
    (result : option ActiveTelemetryKey) :
  JSON_parse (if negb (String.eqb (AdapterRow.capabilities row') "")
              then AdapterRow.capabilities row' else "[]") = Return capabilities ->
  telemetry row' = telemetry row ->
  active_key row = Return result -> active_key row' = Return result.
Proof.
  unfold telemetry, active_key, rowToRecord. intros -> [= -> -> -> -> ->].
  destruct (JSON_parse (if negb _ then _ else _)); [|done].
  by destruct (if PolicyEngine.truthy _ then _ else _).
Qed.

(** Registering does not touch telemetry keys.  Whatever a lookup of a
    key by version returned before [register], it returns afterwards: an
    active key stays the active key, and a version without a key, with a
    revoked key or not registered before has no active key afterwards. *)
Theorem register_keeps_telemetry_key (table : Table) (now t : string)
    (registration : AdapterRegistration.t) (capabilities : JsonValue)
    (t' a' v' : string) (result : option ActiveTelemetryKey)
    (Hversion : v' <> "")
    (Hcapabilities : JSON_parse (capabilities_text registration) = Return capabilities)
    (Hbefore : getActiveTelemetryKey table t' a' (Some v') = Return result) :
  getActiveTelemetryKey (register table now t registration).2 t' a' (Some v')
  = Return result.
Proof.
  destruct (register_table table now t registration)
    as (row & set & -> & Hrow & Hrow_caps & Hrow_tel & _ & _ & _ & _
        & Hkey & Hcaps & Htel & _).
  pose proof (truthy_Some v' Hversion) as Htruthy.
  rewrite getActiveTelemetryKey_selected_row in Hbefore |- *.
  unfold sql_upsert. destruct (existsb _ table).
  - change (map _ table) with (updated
      (where_version (AdapterRow.tenant_id row) (AdapterRow.adapter_id row)
         (AdapterRow.version row)) set table).
    rewrite selected_row_updated by done.
    destruct (selected_row table t' a' (Some v')) as [old|]; [|done].
    cbn [option_map]. destruct (where_version _ _ _ old); [|done].
    apply (active_key_reregistered old _ capabilities); [|done|done].
    by rewrite Hcaps, capabilities_text_truthy.
  - unfold selected_row in *. rewrite Htruthy in *. rewrite find_app_last.
    destruct (List.find _ table) as [old|]; [done|].
    destruct (where_version t' a' _ row); [|done].
    injection Hbefore as <-.
    unfold telemetry in Hrow_tel. injection Hrow_tel as Halg Hjwk _ _ _.
    unfold active_key, rowToRecord.
    by rewrite Hrow_caps, capabilities_text_truthy, Hcapabilities, Hjwk.
Qed.

(** Tenants are isolated.  No call made for one tenant changes what
    [get] returns for another tenant, with or without a version. *)
Theorem registry_tenant_isolation (table : Table) (now t a : string)
    (version : option string) (registration : AdapterRegistration.t)
    (keyAlg : string) (publicJwk : Js.Obj JsonValue) (keyId : option string)
    (t' a' : string) (version' : option string)
    (Hother : t' <> t) :
  get (register table now t registration).2 t' a' version' = get table t' a' version'
  /\ get (setTelemetryKey table now t a version keyAlg publicJwk keyId).2 t' a' version'
     = get table t' a' version'
  /\ get (revokeTelemetryKey table now t a version).2 t' a' version'
     = get table t' a' version'
  /\ get (disable table now t a version).2 t' a' version' = get table t' a' version'.
Proof.
  assert (forall row, where_ t a version row = true -> AdapterRow.tenant_id row = t)
    as Htenant.
  { intros row Hrow%where_is_adapter. by apply where_adapter_tenant in Hrow. }
  rewrite !get_selected_row. split_and!.
  - destruct (register_table table now t registration)
      as (row & set & -> & Hrow & _ & _ & _ & _ & _ & _ & Hkey & _).
    pose proof (f_equal (fun columns => columns.1.1) Hrow) as Hrow_tenant.
    cbn [key fst] in Hrow_tenant.
    unfold sql_upsert. destruct (existsb _ table).
    + change (map _ table) with (updated
        (where_version (AdapterRow.tenant_id row) (AdapterRow.adapter_id row)
           (AdapterRow.version row)) set table).
      rewrite (selected_row_other_tenant _ _ _ t); [done..|].
      intros old Hold%where_version_adapter%where_adapter_tenant. congruence.
    + assert (where_adapter t' a' row = false) as Hnot.
      { apply not_true_is_false. intros Hrow'%where_adapter_tenant. congruence. }
      unfold selected_row. destruct (PolicyEngine.truthy version').
      * rewrite find_app_last. destruct (List.find _ table); [done|].
        unfold where_version. by rewrite Hnot.
      * rewrite List.filter_app. cbn [List.filter]. by rewrite Hnot, app_nil_r.
  - destruct (setTelemetryKey_table table now t a version keyAlg publicJwk keyId)
      as (set & -> & Hkey & _).
    by rewrite (selected_row_other_tenant _ _ _ t).
  - destruct (revokeTelemetryKey_table table now t a version) as (set & -> & Hkey & _).
    by rewrite (selected_row_other_tenant _ _ _ t).
  - destruct (disable_table table now t a version) as (set & -> & Hkey & _).
    by rewrite (selected_row_other_tenant _ _ _ t).
Qed.

(** The unique index is kept.  If no two rows of the table have the same
    tenant, adapter and version, none have after any of the four writing
    calls. *)
Theorem registry_keeps_unique_index (table : Table) (now t a : string)
    (version : option string) (registration : AdapterRegistration.t)
    (keyAlg : string) (publicJwk : Js.Obj JsonValue) (keyId : option string)
    (Hunique : NoDup (map key table)) :
  NoDup (map key (register table now t registration).2)
  /\ NoDup (map key (setTelemetryKey table now t a version keyAlg publicJwk keyId).2)
  /\ NoDup (map key (revokeTelemetryKey table now t a version).2)
  /\ NoDup (map key (disable table now t a version).2).
Proof.
  split_and!.
  - destruct (register_table table now t registration)
      as (row & set & -> & _ & _ & _ & _ & _ & _ & _ & Hkey & _).
    unfold sql_upsert. destruct (existsb _ table) eqn:Hconflict.
    + change (map _ table) with (updated
        (where_version (AdapterRow.tenant_id row) (AdapterRow.adapter_id row)
           (AdapterRow.version row)) set table).
      by rewrite map_key_updated.
    + rewrite map_app. apply NoDup_app. split_and!; [done| |apply NoDup_singleton].
      intros k Hin ->%list_elem_of_singleton.
      apply list_elem_of_In, in_map_iff in Hin as (old & Hold & Hin).
      assert (existsb (where_version (AdapterRow.tenant_id row)
                         (AdapterRow.adapter_id row) (AdapterRow.version row)) table
              = true) as Hexists; [|congruence].
      apply existsb_exists. exists old. split; [done|]. by apply where_version_iff.
  - destruct (setTelemetryKey_table table now t a version keyAlg publicJwk keyId)
      as (set & -> & Hkey & _).
    by rewrite map_key_updated.
  - destruct (revokeTelemetryKey_table table now t a version) as (set & -> & Hkey & _).
    by rewrite map_key_updated.
  - destruct (disable_table table now t a version) as (set & -> & Hkey & _).
    by rewrite map_key_updated.
Qed.

Lemma where_or_undefined (t a : string) (version : option string) :
  where_ t a (or_undefined version) = where_ t a version.
Proof.
  unfold where_, or_undefined. destruct (PolicyEngine.truthy version) eqn:Htruthy.
  - by rewrite Htruthy.
  - reflexivity.
Qed.

Lemma get_after_update (set : AdapterRow.t -> AdapterRow.t) (table : Table)
    (t a : string) (version : option string) :
  (forall row, key (set row) = key row) ->
  existsb (where_ t a version) table = true ->
  get (updated (where_ t a version) set table) t a (or_undefined version) <> Return None.
Proof.
  intros Hkey Hregistered. rewrite get_selected_row.
  destruct (selected_row _ t a (or_undefined version)) as [row|] eqn:Hselected.
  - by destruct (rowToRecord JSON_parse row).
  - apply selected_row_None in Hselected.
    rewrite where_or_undefined, existsb_updated in Hselected; [congruence|].
    intros row. by apply where_key.
Qed.

(** Keys and flags are only written to registered adapters.
    [setTelemetryKey], [revokeTelemetryKey] and [disable] add and remove no
    row; the first two return [null], and the third [false], exactly when
    the table has no row for the tenant, adapter and version given (any
    version when none is given), and then the table is left as it was. *)
Theorem registry_updates_need_registration (table : Table) (now t a : string)
    (version : option string) (keyAlg : string) (publicJwk : Js.Obj JsonValue)
    (keyId : option string) :
  let registered := existsb (where_ t a version) table in
  let set := setTelemetryKey table now t a version keyAlg publicJwk keyId in
  let revoked := revokeTelemetryKey table now t a version in
  let disabled := disable table now t a version in
  (map key set.2 = map key table
   /\ (set.1 = Return None <-> registered = false)
   /\ (registered = false -> set.2 = table))
  /\ (map key revoked.2 = map key table
      /\ (revoked.1 = Return None <-> registered = false)
      /\ (registered = false -> revoked.2 = table))
  /\ (map key disabled.2 = map key table
      /\ disabled.1 = registered
      /\ (registered = false -> disabled.2 = table)).
Proof.
  cbn zeta. split_and!.
  - destruct (setTelemetryKey_table table now t a version keyAlg publicJwk keyId)
      as (set & -> & Hkey & _).
    by apply map_key_updated.
  - unfold AdapterRegistry.setTelemetryKey, sql_update. rewrite filter_nil_existsb.
    destruct (existsb _ table) eqn:Hregistered; [|done].
    cbn [negb fst]. split; [|done]. intros Hnull.
    by eapply get_after_update in Hnull.
  - intros Hnone.
    destruct (setTelemetryKey_table table now t a version keyAlg publicJwk keyId)
      as (set & -> & _).
    by apply updated_none.
  - destruct (revokeTelemetryKey_table table now t a version) as (set & -> & Hkey & _).
    by apply map_key_updated.
  - unfold AdapterRegistry.revokeTelemetryKey, sql_update. rewrite filter_nil_existsb.
    destruct (existsb _ table) eqn:Hregistered; [|done].
    cbn [negb fst]. split; [|done]. intros Hnull.
    by eapply get_after_update in Hnull.
  - intros Hnone.
    destruct (revokeTelemetryKey_table table now t a version) as (set & -> & _).
    by apply updated_none.
  - destruct (disable_table table now t a version) as (set & -> & Hkey & _).
    by apply map_key_updated.
  - unfold disable, sql_update. cbn [fst]. rewrite filter_nil_existsb.
    apply negb_involutive.
  - intros Hnone.
    destruct (disable_table table now t a version) as (set & -> & _).
    by apply updated_none.
Qed.

Lemma existsb_false_find {A} (Q : A -> bool) (l : list A) :
  existsb Q l = false -> List.find Q l = None.
Proof.
  induction l as [|x l IH]; [done|].
  cbn [existsb List.find]. by destruct (Q x).
Qed.

(** What [register] returns.  Unless a key stored with the adapter
    version cannot be parsed, the call returns a record, and the record has
    the tenant and the registration it was called with, whether the version
    was registered before or not. *)
Theorem register_returns_registration (table : Table) (now t : string)
    (registration : AdapterRegistration.t) (capabilities : JsonValue)
    (Hversion : AdapterRegistration.version registration <> "")
    (Hcapabilities : JSON_parse (capabilities_text registration) = Return capabilities) :
  match (register table now t registration).1 with
  | Return (Some record) =>
      AdapterRecord.tenant_id record = t
      /\ AdapterRecord.adapter_id record = AdapterRegistration.adapter_id registration
      /\ AdapterRecord.version record = AdapterRegistration.version registration
      /\ AdapterRecord.display_name record = AdapterRegistration.display_name registration
      /\ AdapterRecord.risk_class record = AdapterRegistration.risk_class registration
      /\ AdapterRecord.capabilities record = capabilities
      /\ AdapterRecord.enabled record = AdapterRegistration.enabled registration
      /\ AdapterRecord.updated_at record = now
  | Return None => False
  | Throw _ =>
      exists old text,
        In old table
        /\ key old = (t, AdapterRegistration.adapter_id registration,
                      AdapterRegistration.version registration)
        /\ AdapterRow.telemetry_public_jwk old = Some text
        /\ JSON_parse text = Throw SyntaxError
  end.
Proof.
  change ((register table now t registration).1)
    with (get (register table now t registration).2 t
            (AdapterRegistration.adapter_id registration)
            (Some (AdapterRegistration.version registration))).
  destruct (register_table table now t registration)
    as (row & set & -> & Hrow & Hrow_caps & Hrow_tel & Hrow_name & Hrow_risk
        & Hrow_enabled & Hrow_updated & Hkey & Hcaps & Htel & Hname & Hrisk
        & Henabled & Hupdated).
  pose proof (truthy_Some _ Hversion) as Htruthy.
  pose proof Hrow as Hconflict. apply where_version_iff in Hconflict.
  assert (where_version (AdapterRow.tenant_id row) (AdapterRow.adapter_id row)
            (AdapterRow.version row)
          = where_version t (AdapterRegistration.adapter_id registration)
              (AdapterRegistration.version registration)) as Hwhere.
  { unfold key in Hrow. by injection Hrow as -> -> ->. }
  assert (forall stored,
            key stored = (t, AdapterRegistration.adapter_id registration,
                          AdapterRegistration.version registration) ->
            AdapterRow.capabilities stored = capabilities_text registration ->
            AdapterRow.display_name stored = AdapterRegistration.display_name registration ->
            AdapterRow.risk_class stored = AdapterRegistration.risk_class registration ->
            AdapterRow.enabled stored
            = (if AdapterRegistration.enabled registration then 1%Z else 0%Z) ->
            AdapterRow.updated_at stored = now ->
            match rowToRecord JSON_parse stored with
            | Return record =>
                AdapterRecord.tenant_id record = t
                /\ AdapterRecord.adapter_id record
                   = AdapterRegistration.adapter_id registration
                /\ AdapterRecord.version record = AdapterRegistration.version registration
                /\ AdapterRecord.display_name record
                   = AdapterRegistration.display_name registration
                /\ AdapterRecord.risk_class record
                   = AdapterRegistration.risk_class registration
                /\ AdapterRecord.capabilities record = capabilities
                /\ AdapterRecord.enabled record = AdapterRegistration.enabled registration
                /\ AdapterRecord.updated_at record = now
            | Throw _ =>
                exists text, AdapterRow.telemetry_public_jwk stored = Some text
                             /\ JSON_parse text = Throw SyntaxError
            end) as Hrecord.
  { intros stored Hstored Hstored_caps Hstored_name Hstored_risk Hstored_enabled
      Hstored_updated.
    unfold key in Hstored. injection Hstored as Htenant Hadapter Hver.
    unfold rowToRecord.
    rewrite Hstored_caps, capabilities_text_truthy, Hcapabilities.
    destruct (AdapterRow.telemetry_public_jwk stored) as [text|] eqn:Htext;
      cbn [PolicyEngine.truthy default from_option id].
    - destruct (negb (String.eqb text "")).
      + destruct (JSON_parse text) as [jwk|[]] eqn:Hjwk.
        * cbn. rewrite Hstored_enabled. split_and!; try done.
          by destruct (AdapterRegistration.enabled registration).
        * by exists text.
      + cbn. rewrite Hstored_enabled. split_and!; try done.
        by destruct (AdapterRegistration.enabled registration).
    - cbn. rewrite Hstored_enabled. split_and!; try done.
      by destruct (AdapterRegistration.enabled registration). }
  rewrite get_selected_row. unfold selected_row. rewrite Htruthy.
  cbn [default from_option id]. unfold sql_upsert. rewrite Hwhere.
  destruct (existsb _ table) eqn:Hexists.
  - rewrite find_map_same.
    + apply existsb_find in Hexists as (old & Hfind & Hold).
      rewrite Hfind. cbn [option_map]. apply find_some in Hfind as [Hin _].
      rewrite Hold. apply where_version_iff in Hold.
      specialize (Hrecord (set old)).
      destruct (rowToRecord JSON_parse (set old)) as [record|e].
      * apply Hrecord; try done. by rewrite Hkey.
      * destruct Hrecord as (text & Htext & Hthrow); try done; [by rewrite Hkey|].
        exists old, text. split_and!; try done.
        pose proof (f_equal (fun columns => columns.1.1.1.2) (Htel old)) as Hsame.
        cbn [telemetry fst snd] in Hsame. congruence.
    + intros old. destruct (where_version _ _ _ old) eqn:Hold; [|done].
      rewrite <- Hold. by apply where_version_key.
  - rewrite find_app_last, (existsb_false_find _ _ Hexists).
    rewrite Hconflict.
    specialize (Hrecord row).
    destruct (rowToRecord JSON_parse row) as [record|e].
    + by apply Hrecord.
    + destruct Hrecord as (text & Htext & _); try done.
      pose proof (f_equal (fun columns => columns.1.1.1.2) Hrow_tel) as Hnone.
      cbn [telemetry fst snd] in Hnone. congruence.
Qed.

End WithRuntime.

(** A parser for the two texts of the examples, and a database that puts
    the older of two rows first. *)
Definition toy_JSON_parse (text : string) : Outcome.t Error JsonValue :=
  if String.eqb text "[]" then Return (JArray [])
  else if String.eqb text "{}" then Return (JObject [])
  else Throw SyntaxError.

Definition toy_first_of_equal (row other : AdapterRow.t) : bool := true.

(** The adapter [mailer] of tenant [acme], version 1.0, with a telemetry
    key. *)
Definition mailer_row : AdapterRow.t :=
  {| AdapterRow.tenant_id := "acme";
     AdapterRow.adapter_id := "mailer";
     AdapterRow.version := "1.0";
     AdapterRow.display_name := "Mailer";
     AdapterRow.risk_class := medium;
     AdapterRow.capabilities := "[]";
     AdapterRow.enabled := 1;
     AdapterRow.telemetry_key_alg := Some "EdDSA";
     AdapterRow.telemetry_public_jwk := Some "{}";
     AdapterRow.telemetry_key_id := Some "key-1";
     AdapterRow.telemetry_key_created_at := Some "2026-01-01T00:00:00.000Z";
     AdapterRow.telemetry_key_revoked_at := None;
     AdapterRow.created_at := "2026-01-01T00:00:00.000Z";
     AdapterRow.updated_at := "2026-01-01T00:00:00.000Z" |}.

Definition mailer_registration : AdapterRegistration.t :=
  {| AdapterRegistration.adapter_id := "mailer";
     AdapterRegistration.display_name := "Mailer 2";
     AdapterRegistration.risk_class := high;
     AdapterRegistration.capabilities := [];
     AdapterRegistration.version := "1.0";
     AdapterRegistration.enabled := false |}.

Definition mailer_key : ActiveTelemetryKey :=
  {| keyAlg := "EdDSA"; publicJwk := JObject []; keyId := Some "key-1";
     createdAt := Some "2026-01-01T00:00:00.000Z" |}.

Definition later : string := "2026-02-01T00:00:00.000Z".

Example mailer_key_is_active :
  AdapterRegistry.getActiveTelemetryKey toy_JSON_parse toy_first_of_equal [mailer_row]
    "acme" "mailer" (Some "1.0")
  = Return (Some mailer_key).
Proof. reflexivity. Qed.

Lemma revokeTelemetryKey_revokes_witness :
  AdapterRegistry.getActiveTelemetryKey toy_JSON_parse toy_first_of_equal
    (AdapterRegistry.revokeTelemetryKey toy_JSON_parse toy_first_of_equal [mailer_row]
       later "acme" "mailer" None).2
    "acme" "mailer" (Some "1.0")
  <> Return (Some mailer_key).
Proof.
  apply (revokeTelemetryKey_revokes toy_JSON_parse toy_first_of_equal [mailer_row] later
           "acme" "mailer" None (Some "1.0") mailer_key).
  - discriminate.
  - left. reflexivity.
Defined.

Lemma disable_keeps_telemetry_key_witness :
  AdapterRegistry.getActiveTelemetryKey toy_JSON_parse toy_first_of_equal
    (disable [mailer_row] later "acme" "mailer" None).2 "acme" "mailer" (Some "1.0")
  = AdapterRegistry.getActiveTelemetryKey toy_JSON_parse toy_first_of_equal [mailer_row]
      "acme" "mailer" (Some "1.0").
Proof.
  apply (disable_keeps_telemetry_key toy_JSON_parse toy_first_of_equal [mailer_row] later
           "acme" "mailer" None "acme" "mailer" "1.0").
  discriminate.
Defined.

Lemma setTelemetryKey_activates_witness :
  AdapterRegistry.getActiveTelemetryKey toy_JSON_parse toy_first_of_equal
    (AdapterRegistry.setTelemetryKey toy_JSON_parse toy_first_of_equal [mailer_row] later
       "acme" "mailer" (Some "1.0") "ES256" [] None).2
    "acme" "mailer" (Some "1.0")
  = Return (Some {| keyAlg := "ES256"; publicJwk := JObject [];
                    keyId := or_undefined None; createdAt := Some later |}).
Proof.
  apply (setTelemetryKey_activates toy_JSON_parse toy_first_of_equal [mailer_row] later
           "acme" "mailer" "1.0" "ES256" [] None mailer_row (JArray []) (JObject [])).
  - discriminate.
  - discriminate.
  - reflexivity.
  - reflexivity.
  - reflexivity.
  - reflexivity.
Defined.

Lemma register_keeps_telemetry_key_witness :
  AdapterRegistry.getActiveTelemetryKey toy_JSON_parse toy_first_of_equal
    (AdapterRegistry.register toy_JSON_parse toy_first_of_equal [mailer_row] later
       "acme" mailer_registration).2
    "acme" "mailer" (Some "1.0")
  = Return (Some mailer_key).
Proof.
  apply (register_keeps_telemetry_key toy_JSON_parse toy_first_of_equal [mailer_row] later
           "acme" mailer_registration (JArray []) "acme" "mailer" "1.0"
           (Some mailer_key)).
  - discriminate.
  - reflexivity.
  - reflexivity.
Defined.

Lemma registry_tenant_isolation_witness :
  AdapterRegistry.get toy_JSON_parse toy_first_of_equal
    (AdapterRegistry.register toy_JSON_parse toy_first_of_equal [mailer_row] later
       "globex" mailer_registration).2 "acme" "mailer" None
  = AdapterRegistry.get toy_JSON_parse toy_first_of_equal [mailer_row] "acme" "mailer" None
  /\ AdapterRegistry.get toy_JSON_parse toy_first_of_equal
       (AdapterRegistry.setTelemetryKey toy_JSON_parse toy_first_of_equal [mailer_row]
          later "globex" "mailer" None "ES256" [] None).2 "acme" "mailer" None
     = AdapterRegistry.get toy_JSON_parse toy_first_of_equal [mailer_row] "acme" "mailer"
         None
  /\ AdapterRegistry.get toy_JSON_parse toy_first_of_equal
       (AdapterRegistry.revokeTelemetryKey toy_JSON_parse toy_first_of_equal
          [mailer_row] later "globex" "mailer" None).2 "acme" "mailer" None
     = AdapterRegistry.get toy_JSON_parse toy_first_of_equal [mailer_row] "acme" "mailer"
         None
  /\ AdapterRegistry.get toy_JSON_parse toy_first_of_equal
       (disable [mailer_row] later "globex" "mailer" None).2 "acme" "mailer" None
     = AdapterRegistry.get toy_JSON_parse toy_first_of_equal [mailer_row] "acme" "mailer"
         None.
Proof.
  apply (registry_tenant_isolation toy_JSON_parse toy_first_of_equal [mailer_row] later
           "globex" "mailer" None mailer_registration "ES256" [] None "acme" "mailer"
           None).
  discriminate.
Defined.

Lemma registry_keeps_unique_index_witness :
  NoDup (map key (AdapterRegistry.register toy_JSON_parse toy_first_of_equal
                    [mailer_row] later "acme" mailer_registration).2)
  /\ NoDup (map key (AdapterRegistry.setTelemetryKey toy_JSON_parse toy_first_of_equal
                       [mailer_row] later "acme" "mailer" None "ES256" [] None).2)
  /\ NoDup (map key (AdapterRegistry.revokeTelemetryKey toy_JSON_parse
                       toy_first_of_equal [mailer_row] later "acme" "mailer" None).2)
  /\ NoDup (map key (disable [mailer_row] later "acme" "mailer" None).2).
Proof.
  apply (registry_keeps_unique_index toy_JSON_parse toy_first_of_equal [mailer_row] later
           "acme" "mailer" None mailer_registration "ES256" [] None).
  simpl. apply NoDup_singleton.
Defined.

Lemma register_returns_registration_witness :
  match (AdapterRegistry.register toy_JSON_parse toy_first_of_equal [mailer_row] later
           "acme" mailer_registration).1 with
  | Return (Some record) =>
      AdapterRecord.tenant_id record = "acme"
      /\ AdapterRecord.adapter_id record = AdapterRegistration.adapter_id mailer_registration
      /\ AdapterRecord.version record = AdapterRegistration.version mailer_registration
      /\ AdapterRecord.display_name record
         = AdapterRegistration.display_name mailer_registration
      /\ AdapterRecord.risk_class record
         = AdapterRegistration.risk_class mailer_registration
      /\ AdapterRecord.capabilities record = JArray []
      /\ AdapterRecord.enabled record = AdapterRegistration.enabled mailer_registration
      /\ AdapterRecord.updated_at record = later
  | Return None => False
  | Throw _ =>
      exists old text,
        In old [mailer_row]
        /\ key old = ("acme", AdapterRegistration.adapter_id mailer_registration,
                      AdapterRegistration.version mailer_registration)
        /\ AdapterRow.telemetry_public_jwk old = Some text
        /\ toy_JSON_parse text = Throw SyntaxError
  end.
Proof.
  apply (register_returns_registration toy_JSON_parse toy_first_of_equal [mailer_row]
           later "acme" mailer_registration (JArray [])).
  - discriminate.
  - reflexivity.
Defined.

End AdapterRegistryFacts.
